(** * parseq: a shallow embedding of [parseq.js] and its specification

    The library coordinates asynchronous "requestors" on a single-threaded
    event loop.  The embedding follows the source function by function:

    - JavaScript values are the inductive [value]; [undefined] is a value;
    - a function that may [throw] returns a [result];
    - the variables that the closures of one requestor invocation share
      ([cancel_array], [next_number], [timer_id], [number_pending], ...) are
      the fields of the record [state], and the inner functions ([cancel],
      [start_requestor], the action and timeout functions) are programs of a
      small state-and-exception monad [M] over it;
    - the host (event loop and timers) and the sub-requestors are the
      environment: the host delivers [event]s one at a time, and a
      sub-requestor, when it is called, either raises or returns a value (its
      cancel function, if any) and reports later through its callback.

    What the model leaves out:

    - a sub-requestor that calls its callback while it is still being called
      (before it returns): reports arrive as events of their own;
    - what a cancel function or the caller's callback does when it is called:
      the calls are recorded in [observed], in order;
    - numbers that are not rationals, other than NaN; prototype chains (an
      object is its own enumerable properties);
    - arguments of [parallel] that are neither [undefined] nor arrays;
    - the launches that [run] has already queued when it throws
      "Bad milliseconds.": a [run] that throws leaves no state here.  *)

From Stdlib Require Import ZArith QArith String Bool Lia.
From stdpp Require Import list strings pretty.

Set Warnings "-register-all".

Local Open Scope string_scope.
Local Open Scope nat_scope.

(** ** Values *)

Inductive value : Type :=
| VUndefined
| VNull
| VBool (b : bool)
| VNum (q : Q)                            (* a finite number *)
| VNaN
| VStr (s : string)
| VFun (arity : nat) (id : nat)           (* a function: its [length] and an identity *)
| VArr (elems : list value)               (* an array; an empty slot reads as [undefined] *)
| VObj (props : list (string * value))    (* an object: own enumerable properties, in key order *)
| VError (message : string) (evidence : value)  (* a report built by [make_error] *)
| VTypeError (message : string).          (* a TypeError raised by the engine *)

Inductive js_type := TUndefined | TObject | TBoolean | TNumber | TString | TFunction.

Definition typeof (v : value) : js_type :=
  match v with
  | VUndefined => TUndefined
  | VBool _ => TBoolean
  | VNum _ | VNaN => TNumber
  | VStr _ => TString
  | VFun _ _ => TFunction
  | VNull | VArr _ | VObj _ | VError _ _ | VTypeError _ => TObject
  end.

Definition is_undefined (v : value) : bool :=
  match v with VUndefined => true | _ => false end.

Definition is_function (v : value) : bool :=
  match v with VFun _ _ => true | _ => false end.

Definition is_boolean (v : value) : bool :=
  match v with VBool _ => true | _ => false end.

(** Reading [a[i]]: a missing or empty slot reads as [undefined]. *)
Definition array_get (a : list value) (i : nat) : value :=
  default VUndefined (a !! i).

(** Writing [a[i] = v]: past the end, JavaScript extends the array, and the
    slots in between are empty. *)
Definition array_set (i : nat) (v : value) (a : list value) : list value :=
  if i <? length a then <[i := v]> a
  else a ++ replicate (i - length a) VUndefined ++ [v].

(** ** Results of functions that may throw *)

Inductive result (A : Type) : Type :=
| Return (a : A)
| Throw (exception : value).
Arguments Return {A} a.
Arguments Throw {A} exception.

(** ** make_error, is_callback, check_callback, check_requestor_array *)

Inductive factory := Fallback | Parallel | Race | Sequence.

Definition factory_string (f : factory) : string :=
  match f with
  | Fallback => "fallback"
  | Parallel => "parallel"
  | Race => "race"
  | Sequence => "sequence"
  end.

Definition make_error (factory_name : string) (reason : option string)
    (evidence : value) : value :=
  VError ("parseq." ++ factory_name ++
          match reason with
          | None => ""
          | Some reason => ": " ++ reason
          end)
         evidence.

Definition is_callback (callback : value) : bool :=
  match callback with
  | VFun arity _ => arity =? 2
  | _ => false
  end.

Definition check_callback (callback : value) (factory_name : string) : result unit :=
  if negb (is_callback callback)
  then Throw (make_error factory_name (Some "Not a callback.") callback)
  else Return tt.

Definition bad_requestor (requestor : value) : bool :=
  match requestor with
  | VFun arity _ => (arity <? 1) || (2 <? arity)
  | _ => true
  end.

Definition check_requestor_array (requestor_array : value) (factory_name : string)
    : result unit :=
  match requestor_array with
  | VArr elems =>
      if (length elems <? 1) || existsb bad_requestor elems
      then Throw (make_error factory_name (Some "Bad requestors array.") requestor_array)
      else Return tt
  | _ => Throw (make_error factory_name (Some "Bad requestors array.") requestor_array)
  end.

(** ** The factories

    A factory validates its arguments and returns a requestor.  The requestor
    is a closure; [requestor] records the variables it closes over. *)

Record requestor : Type := {
  r_factory : factory;                (* the factory whose action and timeout it runs *)
  r_requestor_array : list value;
  r_number_required : nat;            (* parallel *)
  r_option : value;                   (* parallel *)
  r_milliseconds : value;
  r_throttle : value;
  r_names : option (list string)      (* parallel_object: the harvested names *)
}.

Definition elements (a : value) : list value :=
  match a with VArr elems => elems | _ => [] end.

Definition fallback (requestor_array milliseconds : value) : result requestor :=
  match check_requestor_array requestor_array "fallback" with
  | Throw e => Throw e
  | Return _ =>
      Return {| r_factory := Fallback;
                r_requestor_array := elements requestor_array;
                r_number_required := 0;
                r_option := VUndefined;
                r_milliseconds := milliseconds;
                r_throttle := VNum 1;
                r_names := None |}
  end.

Definition race (requestor_array milliseconds throttle : value) : result requestor :=
  match check_requestor_array requestor_array "race" with
  | Throw e => Throw e
  | Return _ =>
      Return {| r_factory := Race;
                r_requestor_array := elements requestor_array;
                r_number_required := 0;
                r_option := VUndefined;
                r_milliseconds := milliseconds;
                r_throttle := throttle;
                r_names := None |}
  end.

Definition sequence (requestor_array milliseconds : value) : result requestor :=
  match check_requestor_array requestor_array "sequence" with
  | Throw e => Throw e
  | Return _ =>
      Return {| r_factory := Sequence;
                r_requestor_array := elements requestor_array;
                r_number_required := 0;
                r_option := VUndefined;
                r_milliseconds := milliseconds;
                r_throttle := VNum 1;
                r_names := None |}
  end.

(** [parallel]: each of the two array arguments is [undefined] ([None]) or an
    array. *)

Definition missing (a : option (list value)) : bool :=
  match a with
  | None => true
  | Some elems => length elems =? 0
  end.

Definition array_value (a : option (list value)) : value :=
  match a with None => VUndefined | Some elems => VArr elems end.

Definition parallel_checked (requestor_array : list value) (number_required : nat)
    (milliseconds throttle option : value) : result requestor :=
  match check_requestor_array (VArr requestor_array) "parallel" with
  | Throw e => Throw e
  | Return _ =>
      Return {| r_factory := Parallel;
                r_requestor_array := requestor_array;
                r_number_required := number_required;
                r_option := option;
                r_milliseconds := milliseconds;
                r_throttle := throttle;
                r_names := None |}
  end.

Definition parallel (required_array optional_array : option (list value))
    (milliseconds throttle option : value) : result requestor :=
  if missing required_array then
    if missing optional_array then
      Throw (make_error "parallel" (Some "Missing requestor array.")
                        (array_value required_array))
    else
      parallel_checked (default [] optional_array) 0 milliseconds throttle (VBool true)
  else
    if missing optional_array then
      parallel_checked (default [] required_array)
                       (length (default [] required_array))
                       milliseconds throttle VUndefined
    else
      if negb (is_undefined option) && negb (is_boolean option) then
        Throw (make_error "parallel" (Some "Bad option.") option)
      else
        parallel_checked (default [] required_array ++ default [] optional_array)
                         (length (default [] required_array))
                         milliseconds throttle option.

(** ** parallel_object *)

(** [Object.keys] with the values of the keys.  The keys of an array are its
    indices; [null] has none and [Object.keys(null)] raises. *)
Definition own_properties (object : value) : result (list (string * value)) :=
  match object with
  | VObj props => Return props
  | VArr elems => Return (imap (fun i v => (pretty i, v)) elems)
  | VError _ evidence => Return [("evidence", evidence)]
  | VNull => Throw (VTypeError "Cannot convert undefined or null to object")
  | _ => Return []
  end.

(** [object[name]] on own properties. *)
Fixpoint get_property (props : list (string * value)) (name : string) : value :=
  match props with
  | [] => VUndefined
  | (key, v) :: props => if String.eqb key name then v else get_property props name
  end.

Definition property (object : value) (name : string) : value :=
  match own_properties object with
  | Return props => get_property props name
  | Throw _ => VUndefined
  end.

(** "We only collect functions with an arity of 1 or 2." *)
Definition collected (requestor : value) : bool :=
  match requestor with
  | VFun arity _ => (arity =? 1) || (arity =? 2)
  | _ => false
  end.

Definition harvest_required (props : list (string * value)) : list (string * value) :=
  filter (fun entry => collected entry.2 = true) props.

Fixpoint harvest_optional (required_object : value) (props : list (string * value))
    : result (list (string * value)) :=
  match props with
  | [] => Return []
  | (name, requestor) :: props =>
      if collected requestor then
        if negb (is_undefined required_object)
           && negb (is_undefined (property required_object name))
        then Throw (make_error "parallel_object" (Some "Duplicate name.") (VStr name))
        else match harvest_optional required_object props with
             | Throw e => Throw e
             | Return rest => Return ((name, requestor) :: rest)
             end
      else harvest_optional required_object props
  end.

(** What [parallel_object] hands back when it does not throw. *)
Inductive returned : Type :=
| RReport (report : value)            (* an error report, as a return value *)
| RRequestor (r : requestor).

Definition with_names (names : list string) (r : requestor) : requestor :=
  {| r_factory := r_factory r;
     r_requestor_array := r_requestor_array r;
     r_number_required := r_number_required r;
     r_option := r_option r;
     r_milliseconds := r_milliseconds r;
     r_throttle := r_throttle r;
     r_names := Some names |}.

(** The first half of [parallel_object]: the entries harvested from one
    argument, or the exception raised on the way. *)
Definition extract_required (required_object : value) : result (list (string * value)) :=
  if is_undefined required_object then Return []
  else match typeof required_object with
       | TObject =>
           match own_properties required_object with
           | Throw e => Throw e
           | Return props => Return (harvest_required props)
           end
       | _ => Throw (make_error "parallel_object" (Some "Type mismatch.") required_object)
       end.

Definition extract_optional (required_object optional_object : value)
    : result (list (string * value)) :=
  if is_undefined optional_object then Return []
  else match typeof optional_object with
       | TObject =>
           match own_properties optional_object with
           | Throw e => Throw e
           | Return props => harvest_optional required_object props
           end
       | _ => Throw (make_error "parallel_object" (Some "Type mismatch.") optional_object)
       end.

Definition parallel_object (required_object optional_object : value)
    (milliseconds throttle option : value) : result returned :=
  match extract_required required_object with
  | Throw e => Throw e
  | Return required =>
      match extract_optional required_object optional_object with
      | Throw e => Throw e
      | Return optional =>
          let names := (required.*1 ++ optional.*1)%list in
          let required_array := required.*2 in
          let optional_array := optional.*2 in
          if length names =? 0 then
            Return (RReport (make_error "parallel_object" (Some "No requestors.")
                                        required_object))
          else
            match parallel (Some required_array) (Some optional_array)
                           milliseconds throttle option with
            | Throw e => Throw e
            | Return parallel_requestor =>
                Return (RRequestor (with_names names parallel_requestor))
            end
      end
  end.

(** ** The state of one requestor invocation

    Invoking a requestor made by a factory creates the local variables of the
    requestor function and of [run]; the closures created there (the action,
    the timeout function, [cancel], [start_requestor] and the callbacks handed
    to the sub-requestors) share them. *)

(** What a sub-requestor does when [start_requestor] calls it. *)
Inductive launch_outcome : Type :=
| Raises (exception : value)      (* it throws *)
| Returns (cancel : value).       (* it returns this value and reports later *)

(** The sub-requestors of one invocation, by number and input value. *)
Definition environment : Type := nat -> value -> launch_outcome.

(** What the outside sees. *)
Inductive observation : Type :=
| Launched (number : nat) (input : value)          (* requestor [number] was called *)
| Cancelled (number : nat) (cancel reason : value) (* the cancel function it returned was called *)
| Called (success error : value)                   (* the caller's callback was called *)
| Uncaught (exception : value).                    (* an exception reached the event loop *)

Record state : Type := {
  (* fixed when the requestor is invoked *)
  self : requestor;
  initial_value : value;
  (* variables of [run] *)
  cancel_array : option (list value);
  next_number : nat;
  timer_id : bool;                          (* [timer_id !== undefined] *)
  numbers : list (option nat);              (* the [number] variable of each launch *)
  (* variables of the requestor function *)
  callback : value;
  number_pending : Z;
  number_pending_required_array : Z;
  results : list value;
  option_ : value;
  (* the host *)
  deferred : nat;                           (* queued [setTimeout(start_requestor, 0, ...)] *)
  timer_running : bool;                     (* the timeout timer is armed and has not fired *)
  observed : list observation
}.

Definition set_cancel_array (x : option (list value)) (st : state) : state :=
  {| self := self st; initial_value := initial_value st;
     cancel_array := x; next_number := next_number st;
     timer_id := timer_id st; numbers := numbers st;
     callback := callback st; number_pending := number_pending st;
     number_pending_required_array := number_pending_required_array st;
     results := results st; option_ := option_ st;
     deferred := deferred st; timer_running := timer_running st;
     observed := observed st |}.

Definition set_next_number (x : nat) (st : state) : state :=
  {| self := self st; initial_value := initial_value st;
     cancel_array := cancel_array st; next_number := x;
     timer_id := timer_id st; numbers := numbers st;
     callback := callback st; number_pending := number_pending st;
     number_pending_required_array := number_pending_required_array st;
     results := results st; option_ := option_ st;
     deferred := deferred st; timer_running := timer_running st;
     observed := observed st |}.

Definition set_timer (id running : bool) (st : state) : state :=
  {| self := self st; initial_value := initial_value st;
     cancel_array := cancel_array st; next_number := next_number st;
     timer_id := id; numbers := numbers st;
     callback := callback st; number_pending := number_pending st;
     number_pending_required_array := number_pending_required_array st;
     results := results st; option_ := option_ st;
     deferred := deferred st; timer_running := running;
     observed := observed st |}.

Definition set_numbers (x : list (option nat)) (st : state) : state :=
  {| self := self st; initial_value := initial_value st;
     cancel_array := cancel_array st; next_number := next_number st;
     timer_id := timer_id st; numbers := x;
     callback := callback st; number_pending := number_pending st;
     number_pending_required_array := number_pending_required_array st;
     results := results st; option_ := option_ st;
     deferred := deferred st; timer_running := timer_running st;
     observed := observed st |}.

Definition set_callback (x : value) (st : state) : state :=
  {| self := self st; initial_value := initial_value st;
     cancel_array := cancel_array st; next_number := next_number st;
     timer_id := timer_id st; numbers := numbers st;
     callback := x; number_pending := number_pending st;
     number_pending_required_array := number_pending_required_array st;
     results := results st; option_ := option_ st;
     deferred := deferred st; timer_running := timer_running st;
     observed := observed st |}.

Definition set_number_pending (x : Z) (st : state) : state :=
  {| self := self st; initial_value := initial_value st;
     cancel_array := cancel_array st; next_number := next_number st;
     timer_id := timer_id st; numbers := numbers st;
     callback := callback st; number_pending := x;
     number_pending_required_array := number_pending_required_array st;
     results := results st; option_ := option_ st;
     deferred := deferred st; timer_running := timer_running st;
     observed := observed st |}.

Definition set_number_pending_required_array (x : Z) (st : state) : state :=
  {| self := self st; initial_value := initial_value st;
     cancel_array := cancel_array st; next_number := next_number st;
     timer_id := timer_id st; numbers := numbers st;
     callback := callback st; number_pending := number_pending st;
     number_pending_required_array := x;
     results := results st; option_ := option_ st;
     deferred := deferred st; timer_running := timer_running st;
     observed := observed st |}.

Definition set_results (x : list value) (st : state) : state :=
  {| self := self st; initial_value := initial_value st;
     cancel_array := cancel_array st; next_number := next_number st;
     timer_id := timer_id st; numbers := numbers st;
     callback := callback st; number_pending := number_pending st;
     number_pending_required_array := number_pending_required_array st;
     results := x; option_ := option_ st;
     deferred := deferred st; timer_running := timer_running st;
     observed := observed st |}.

Definition set_option (x : value) (st : state) : state :=
  {| self := self st; initial_value := initial_value st;
     cancel_array := cancel_array st; next_number := next_number st;
     timer_id := timer_id st; numbers := numbers st;
     callback := callback st; number_pending := number_pending st;
     number_pending_required_array := number_pending_required_array st;
     results := results st; option_ := x;
     deferred := deferred st; timer_running := timer_running st;
     observed := observed st |}.

Definition set_deferred (x : nat) (st : state) : state :=
  {| self := self st; initial_value := initial_value st;
     cancel_array := cancel_array st; next_number := next_number st;
     timer_id := timer_id st; numbers := numbers st;
     callback := callback st; number_pending := number_pending st;
     number_pending_required_array := number_pending_required_array st;
     results := results st; option_ := option_ st;
     deferred := x; timer_running := timer_running st;
     observed := observed st |}.

Definition observe (os : list observation) (st : state) : state :=
  {| self := self st; initial_value := initial_value st;
     cancel_array := cancel_array st; next_number := next_number st;
     timer_id := timer_id st; numbers := numbers st;
     callback := callback st; number_pending := number_pending st;
     number_pending_required_array := number_pending_required_array st;
     results := results st; option_ := option_ st;
     deferred := deferred st; timer_running := timer_running st;
     observed := (observed st ++ os)%list |}.

(** ** A monad for the closures: state, and exceptions that keep the state *)

Definition M (A : Type) : Type := state -> result A * state.

Definition ret {A} (a : A) : M A := fun st => (Return a, st).

Definition bind {A B} (m : M A) (f : A -> M B) : M B :=
  fun st =>
    match m st with
    | (Return a, st') => f a st'
    | (Throw e, st') => (Throw e, st')
    end.

Definition throw {A} (e : value) : M A := fun st => (Throw e, st).

Definition get : M state := fun st => (Return st, st).

Definition modify (f : state -> state) : M unit := fun st => (Return tt, f st).

#[export] Instance M_ret : MRet M := @ret.
#[export] Instance M_bind : MBind M := fun A B f m => bind m f.

Definition when (b : bool) (m : M unit) : M unit := if b then m else ret tt.

Definition factory_name (st : state) : string := factory_string (r_factory (self st)).
Definition requestor_array (st : state) : list value := r_requestor_array (self st).
Definition number_required (st : state) : nat := r_number_required (self st).
Definition milliseconds (st : state) : value := r_milliseconds (self st).

(** ** cancel *)

(** The calls made by [cancel_array.forEach]: every slot that holds a function
    is called with the reason; what it throws is ignored. *)
Definition cancel_calls (reason : value) (slots : list value) : list observation :=
  omap (fun slot => slot)
       (imap (fun number cancel =>
                if is_function cancel then Some (Cancelled number cancel reason)
                else None)
             slots).

Definition cancel (reason : value) : M unit :=
  st ← get;
  let reason :=
    if is_undefined reason
    then make_error (factory_name st) (Some "Cancel.") VUndefined
    else reason in
  when (timer_id st) (modify (set_timer false false));;
  st ← get;
  match cancel_array st with
  | Some slots =>
      modify (observe (cancel_calls reason slots));;
      modify (set_cancel_array None)
  | None => ret tt
  end.

(** ** Calling the caller's callback

    [callback(success, error)] in an action or timeout function.  The variable
    is [undefined] once a result has been delivered; calling it then raises a
    TypeError.  Under [parallel_object] the variable holds
    [parallel_object_callback], which turns the array of successes into an
    object before it calls the caller's callback. *)

Definition parallel_object_callback (names : list string) (success error : value)
    : observation :=
  if is_undefined success then Called success error
  else Called (VObj (imap (fun index name => (name, array_get (elements success) index))
                          names))
              VUndefined.

Definition call_callback (success error : value) : M unit :=
  st ← get;
  if is_function (callback st) then
    match r_names (self st) with
    | None => modify (observe [Called success error])
    | Some names => modify (observe [parallel_object_callback names success error])
    end
  else throw (VTypeError "callback is not a function").

(** ** The action and timeout functions of the four factories *)

Definition fallback_action (success error : value) (ignore : nat) : M unit :=
  modify (fun st => set_number_pending (number_pending st - 1) st);;
  when (negb (is_undefined success))
       (cancel VUndefined;;
        call_callback success VUndefined;;
        modify (set_callback VUndefined));;
  st ← get;
  when (number_pending st <? 1)%Z
       (cancel error;;
        call_callback VUndefined error;;
        modify (set_callback VUndefined)).

Definition fallback_timeout : M unit :=
  st ← get;
  let error := make_error "fallback" (Some "Timeout.") (milliseconds st) in
  cancel error;;
  call_callback VUndefined error;;
  modify (set_callback VUndefined).

Definition race_action (success error : value) (number : nat) : M unit :=
  modify (fun st => set_number_pending (number_pending st - 1) st);;
  when (negb (is_undefined success))
       (cancel (make_error "race" (Some "Loser.")
                           (VNum (inject_Z (Z.of_nat number))));;
        call_callback success VUndefined;;
        modify (set_callback VUndefined));;
  st ← get;
  when (number_pending st <? 1)%Z
       (cancel error;;
        call_callback VUndefined error;;
        modify (set_callback VUndefined)).

Definition race_timeout : M unit :=
  st ← get;
  let error := make_error "race" (Some "Timeout.") (milliseconds st) in
  cancel error;;
  call_callback VUndefined error;;
  modify (set_callback VUndefined).

Definition sequence_action (success error : value) (ignore : nat) : M unit :=
  st ← get;
  when (negb (is_undefined (callback st)))
       (modify (fun st => set_number_pending (number_pending st - 1) st);;
        when (is_undefined success)
             (cancel error;;
              call_callback VUndefined error;;
              modify (set_callback VUndefined));;
        st ← get;
        when (number_pending st <? 1)%Z
             (cancel VUndefined;;
              call_callback success VUndefined;;
              modify (set_callback VUndefined))).

Definition sequence_timeout : M unit :=
  st ← get;
  let error := make_error "sequence" (Some "Timeout.") (milliseconds st) in
  cancel error;;
  call_callback VUndefined error;;
  modify (set_callback VUndefined).

Definition parallel_action (success error : value) (number : nat) : M unit :=
  modify (fun st => set_results (array_set number success (results st)) st);;
  modify (fun st => set_number_pending (number_pending st - 1) st);;
  st ← get;
  returned ←
    (if number <? number_required st then
       modify (fun st => set_number_pending_required_array
                           (number_pending_required_array st - 1) st);;
       if is_undefined success then
         cancel error;;
         call_callback VUndefined error;;
         modify (set_callback VUndefined);;
         ret true
       else ret false
     else ret false);
  if returned : bool then ret tt
  else
    st ← get;
    when ((number_pending st <? 1)%Z
          || (is_undefined (option_ st)
              && (number_pending_required_array st <? 1)%Z))
         (cancel (make_error "parallel" (Some "Optional.") VUndefined);;
          st ← get;
          call_callback (VArr (results st)) VUndefined;;
          modify (set_callback VUndefined)).

Definition is_false (v : value) : bool :=
  match v with VBool false => true | _ => false end.

Definition parallel_timeout : M unit :=
  st ← get;
  let reason := make_error "parallel" (Some "Timeout.") (milliseconds st) in
  if is_false (option_ st) then
    modify (set_option VUndefined);;
    when (number_pending_required_array st <? 1)%Z
         (cancel reason;;
          st ← get;
          call_callback (VArr (results st)) VUndefined)
  else
    cancel reason;;
    st ← get;
    (if (number_pending_required_array st <? 1)%Z
     then call_callback (VArr (results st)) VUndefined
     else call_callback VUndefined reason);;
    modify (set_callback VUndefined).

Definition action (success error : value) (number : nat) : M unit :=
  st ← get;
  match r_factory (self st) with
  | Fallback => fallback_action success error number
  | Parallel => parallel_action success error number
  | Race => race_action success error number
  | Sequence => sequence_action success error number
  end.

Definition timeout : M unit :=
  st ← get;
  match r_factory (self st) with
  | Fallback => fallback_timeout
  | Parallel => parallel_timeout
  | Race => race_timeout
  | Sequence => sequence_timeout
  end.

(** ** start_requestor

    [start_requestor] calls itself after a requestor that raised, and each
    such call passes the [next_number < requestor_array.length] test again,
    so the requestors that are left bound the depth: [fuel] counts them. *)

Definition is_live (st : state) (number : nat) : bool :=
  match numbers st !! number with
  | Some (Some _) => true
  | _ => false
  end.

Definition clear_number (number : nat) (st : state) : state :=
  set_numbers (<[number := None]> (numbers st)) st.

Definition set_slot (number : nat) (v : value) (st : state) : state :=
  set_cancel_array (array_set number v <$> cancel_array st) st.

Fixpoint start_requestor_fuel (fuel : nat) (env : environment) (value : value)
    : M unit :=
  st ← get;
  if bool_decide (is_Some (cancel_array st))
     && (next_number st <? length (requestor_array st))
  then
    match fuel with
    | 0 => ret tt
    | S fuel =>
        let number := next_number st in
        modify (set_next_number (next_number st + 1));;
        modify (fun st => set_numbers (numbers st ++ [Some number]) st);;
        modify (observe [Launched number value]);;
        match env number value with
        | Returns cancel => modify (set_slot number cancel)
        | Raises exception =>
            action VUndefined exception number;;
            modify (clear_number number);;
            start_requestor_fuel fuel env value
        end
    end
  else ret tt.

Definition start_requestor (env : environment) (value : value) : M unit :=
  st ← get;
  start_requestor_fuel (length (requestor_array st) - next_number st) env value.

(** The callback that [start_requestor] hands to requestor [number]. *)
Definition start_requestor_callback (env : environment) (number : nat)
    (success error : value) : M unit :=
  st ← get;
  if bool_decide (is_Some (cancel_array st)) && is_live st number then
    modify (set_slot number VUndefined);;
    action success error number;;
    modify (clear_number number);;
    st ← get;
    start_requestor env
      (match r_factory (self st) with
       | Sequence => success
       | _ => initial_value st
       end)
  else ret tt.

(** ** run, and invoking a requestor *)

Definition safe_integer (v : value) : option Z :=
  match v with
  | VNum q =>
      let q := Qred q in
      if (Zpos (Qden q) =? 1)%Z && (Z.abs (Qnum q) <=? 2 ^ 53 - 1)%Z
      then Some (Qnum q) else None
  | _ => None
  end.

Definition milliseconds_check (factory_name : string) (milliseconds : value)
    : result bool :=
  match milliseconds with
  | VUndefined => Return false
  | VNum q =>
      if Qle_bool 0 q then Return (negb (Qle_bool q 0))
      else Throw (make_error factory_name (Some "Bad milliseconds.") milliseconds)
  | _ => Throw (make_error factory_name (Some "Bad milliseconds.") milliseconds)
  end.

(** [run] returns [cancel]; here it returns the state its closures share. *)
Definition run (r : requestor) (callback initial_value : value) : result state :=
  let name := factory_string (r_factory r) in
  let count := length (r_requestor_array r) in
  let throttle :=
    if is_undefined (r_throttle r) then VNum (inject_Z (Z.of_nat count))
    else r_throttle r in
  match safe_integer throttle with
  | None => Throw (make_error name (Some "Bad throttle.") throttle)
  | Some t =>
      if (t <? 1)%Z then Throw (make_error name (Some "Bad throttle.") throttle)
      else
        let repeat := Nat.min (Z.to_nat t) count in
        match milliseconds_check name (r_milliseconds r) with
        | Throw e => Throw e
        | Return timer =>
            Return {| self := r;
                      initial_value := initial_value;
                      cancel_array := Some (replicate count VUndefined);
                      next_number := 0;
                      timer_id := timer;
                      numbers := [];
                      callback := callback;
                      number_pending := Z.of_nat count;
                      number_pending_required_array := Z.of_nat (r_number_required r);
                      results := [];
                      option_ := r_option r;
                      deferred := repeat;
                      timer_running := timer;
                      observed := [] |}
        end
  end.

Definition invoke (r : requestor) (callback initial_value : value) : result state :=
  let name :=
    match r_names r with
    | Some _ => "parallel_object"
    | None => factory_string (r_factory r)
    end in
  match check_callback callback name with
  | Throw e => Throw e
  | Return _ => run r callback initial_value
  end.

(** ** The event loop *)

Inductive event : Type :=
| Tick                                      (* a queued [start_requestor] runs *)
| Report (number : nat) (success error : value)
                                            (* requestor [number] calls its callback *)
| Timer                                     (* the timeout timer fires *)
| Cancel (reason : value).                  (* the caller calls the returned [cancel] *)

(** One task of the event loop; an exception that escapes it is reported and
    the loop goes on. *)
Definition task (m : M unit) (st : state) : state :=
  match m st with
  | (Return _, st') => st'
  | (Throw e, st') => observe [Uncaught e] st'
  end.

Definition handle (env : environment) (ev : event) (st : state) : state :=
  match ev with
  | Tick =>
      if 0 <? deferred st
      then task (start_requestor env (initial_value st))
                (set_deferred (deferred st - 1) st)
      else st
  | Report number success error =>
      task (start_requestor_callback env number success error) st
  | Timer =>
      if timer_running st
      then task timeout (set_timer (timer_id st) false st)
      else st
  | Cancel reason => task (cancel reason) st
  end.

Definition run_events (env : environment) (evs : list event) (st : state) : state :=
  foldl (fun st ev => handle env ev st) st evs.

(** ** Vocabulary of the statements *)

(** A named mapping handed to [parallel_object]: [undefined] or an object. *)
Definition is_mapping (object : value) : Prop :=
  object = VUndefined \/ exists props, object = VObj props.

Definition mapping_entries (object : value) : list (string * value) :=
  match object with VObj props => props | _ => [] end.

Definition nothing_collected (object : value) : Prop :=
  Forall (fun entry => collected entry.2 = false) (mapping_entries object).

(** The coordinator is running as long as [cancel_array] is defined. *)
Definition alive (st : state) : Prop := is_Some (cancel_array st).

(** What [cancel] leaves behind; [cancel] never throws. *)
Definition cancelled (reason : value) (st : state) : state :=
  let reason :=
    if is_undefined reason
    then make_error (factory_name st) (Some "Cancel.") VUndefined
    else reason in
  let st := if timer_id st then set_timer false false st else st in
  match cancel_array st with
  | Some slots => set_cancel_array None (observe (cancel_calls reason slots) st)
  | None => st
  end.

(** A program of [M] keeps a relation between the state it starts from and
    the state it leaves, whether it returns or throws. *)
Definition preserves {A} (R : relation state) (m : M A) : Prop :=
  forall st, R st (m st).2.

(** The part of the state that only [start_requestor] and the event loop
    write: an action or timeout function leaves it alone, except that it may
    stop the coordinator. *)
Record core_frame (st st' : state) : Prop := {
  frame_self : self st' = self st;
  frame_initial_value : initial_value st' = initial_value st;
  frame_next_number : next_number st' = next_number st;
  frame_numbers : numbers st' = numbers st;
  frame_deferred : deferred st' = deferred st;
  frame_cancel_array :
    cancel_array st' = cancel_array st \/ cancel_array st' = None;
  frame_timer_running : timer_running st' = true -> timer_running st = true;
  frame_option : option_ st' = option_ st \/ option_ st' = VUndefined;
  frame_observed : observed st `prefix_of` observed st'
}.

(** In addition, the callback variable is only cleared once the coordinator
    has stopped. *)
Definition frame (st st' : state) : Prop :=
  core_frame st st' /\ (alive st' -> callback st' = callback st).

(** Requestors launched and not yet completed, and requestors completed:
    the [number] variable of a launch is cleared when it completes. *)
Definition outstanding (st : state) : nat :=
  length (filter is_Some (numbers st)).


(** How many of the launches in [ns] have completed. *)
Definition count_none (ns : list (option nat)) : nat :=
  length (filter (fun number => number = None) ns).

(** Required requestors that have not completed (launched or not). *)
Definition pending_required (st : state) : nat :=
  number_required st - count_none (take (number_required st) (numbers st)).

(** What the caller's callback receives for [callback(success, error)]. *)
Definition delivery (st : state) (success error : value) : observation :=
  match r_names (self st) with
  | None => Called success error
  | Some names => parallel_object_callback names success error
  end.

(** The action and timeout functions leave [results] and the two counters
    alone once they have recorded a completion. *)
Definition counters_kept (st st' : state) : Prop :=
  results st' = results st
  /\ number_pending st' = number_pending st
  /\ number_pending_required_array st' = number_pending_required_array st.

(** A program that, when it throws, has stopped the coordinator first. *)
Definition safe {A} (m : M A) : Prop :=
  forall st, alive (m st).2 -> exists a, (m st).1 = Return a.

(** The invariant of a run. *)
Record run_inv (st : state) : Prop := {
  inv_numbers : length (numbers st) = next_number st;
  inv_cursor : next_number st <= length (requestor_array st);
  inv_slots : forall slots,
    cancel_array st = Some slots ->
    length slots = length (requestor_array st)
    /\ forall i, numbers st !! i = None \/ numbers st !! i = Some None ->
                 i < length slots -> slots !! i = Some VUndefined;
  inv_callback : alive st -> is_function (callback st) = true;
  inv_pending : alive st ->
    number_pending st
    = (Z.of_nat (length (requestor_array st)) - Z.of_nat (count_none (numbers st)))%Z;
  inv_pending_required : alive st -> r_factory (self st) = Parallel ->
    number_pending_required_array st = Z.of_nat (pending_required st);
  inv_results : alive st ->
    forall i, numbers st !! i <> Some None -> array_get (results st) i = VUndefined
}.

(** The states a run goes through, with the sub-requestors [env]. *)
Definition reachable (env : environment) (st : state) : Prop :=
  exists r callback initial_value st0 evs,
    invoke r callback initial_value = Return st0
    /\ st = run_events env evs st0.

(** The state right after [start_requestor] has claimed the next number and
    called its requestor. *)
Definition launched (number : nat) (value : value) (st : state) : state :=
  observe [Launched number value]
    (set_numbers (numbers st ++ [Some number])
       (set_next_number (next_number st + 1) st)).

(** What [start_requestor] keeps and how far it moves. *)
Record started (st st' : state) : Prop := {
  started_inv : run_inv st';
  started_self : self st' = self st;
  started_initial_value : initial_value st' = initial_value st;
  started_deferred : deferred st' = deferred st;
  started_outstanding : outstanding st' <= S (outstanding st);
  started_alive : alive st' -> alive st;
  started_timer_running : timer_running st' = true -> timer_running st = true;
  started_option : option_ st' = option_ st \/ option_ st' = VUndefined
}.

(** What one event keeps. *)
Record stepped (st st' : state) : Prop := {
  stepped_inv : run_inv st';
  stepped_self : self st' = self st;
  stepped_initial_value : initial_value st' = initial_value st;
  stepped_throttle :
    outstanding st' + deferred st' <= outstanding st + deferred st;
  stepped_alive : alive st' -> alive st;
  stepped_timer_running : timer_running st' = true -> timer_running st = true;
  stepped_option : option_ st' = option_ st \/ option_ st' = VUndefined
}.

(** The throttle that [run] works with: the argument, or the number of
    requestors when the argument is [undefined]. *)
Definition effective_throttle (r : requestor) : value :=
  if is_undefined (r_throttle r)
  then VNum (inject_Z (Z.of_nat (length (r_requestor_array r))))
  else r_throttle r.

(** The reason [cancel] hands to the cancel functions: its argument, or the
    default of the parameter. *)
Definition cancel_reason (st : state) (reason : value) : value :=
  if is_undefined reason
  then make_error (factory_name st) (Some "Cancel.") VUndefined
  else reason.

(** [cancel(reason); callback(success, error); callback = undefined] on a
    state whose callback variable still holds the callback. *)
Definition finished (reason success error : value) (st : state) : state :=
  set_callback VUndefined
    (observe [delivery st success error] (cancelled reason st)).

(** The bookkeeping at the head of [parallel_action]. *)
Definition parallel_recorded (number : nat) (success : value) (st : state) : state :=
  let st1 :=
    set_number_pending (number_pending st - 1)
      (set_results (array_set number success (results st)) st) in
  if number <? number_required st
  then set_number_pending_required_array
         (number_pending_required_array st - 1) st1
  else st1.

(** The step from [st] to [st'] ends the run: every cancel function held in
    [slots] is called with [reason], then the caller's callback receives
    [result]; the coordinator is stopped and nothing is launched. *)
Definition finishes (st st' : state) (reason : value) (slots : list value)
    (result : observation) : Prop :=
  cancel_array st' = None
  /\ next_number st' = next_number st
  /\ observed st'
     = (observed st ++ cancel_calls reason slots ++ [result])%list.

(** ** Concrete runs *)

(** Sub-requestors that return a cancel function and report later. *)
Definition example_env : environment :=
  fun number _ => Returns (VFun 1 (100 + number)).

(** The state after the events [evs] of the requestor made by a factory,
    invoked with a callback and the initial value ["init"]. *)
Definition example_run (made : result requestor) (env : environment)
    (evs : list event) : option state :=
  match made with
  | Return r =>
      match invoke r (VFun 2 0) (VStr "init") with
      | Return st0 => Some (run_events env evs st0)
      | Throw _ => None
      end
  | Throw _ => None
  end.

(** [parallel] over two required requestors and one optional requestor, no
    option; and over one required and one optional requestor with a time
    limit and the option [false]. *)
Definition example_parallel : result requestor :=
  parallel (Some [VFun 1 1; VFun 1 2]) (Some [VFun 2 3])
           VUndefined VUndefined VUndefined.


(** [race] over five requestors with throttle 2. *)
Definition example_race : result requestor :=
  race (VArr [VFun 1 1; VFun 1 2; VFun 1 3; VFun 1 4; VFun 1 5])
       VUndefined (VNum 2).

(** A run of the requestor [r] made by [sequence] in which the requestors
    before number [k] have succeeded and requestor [k] has been launched;
    [inputs] lists the input values in launch order. *)
Record sequence_at (r : requestor) (inputs : list value) (k : nat)
    (st : state) : Prop := {
  at_self : self st = r;
  at_slots : exists cancel,
    cancel_array st
    = Some (<[k := cancel]> (replicate (length (r_requestor_array r)) VUndefined));
  at_next_number : next_number st = S k;
  at_numbers : numbers st = (replicate k None ++ [Some k])%list;
  at_callback : is_function (callback st) = true;
  at_number_pending :
    number_pending st
    = (Z.of_nat (length (r_requestor_array r)) - Z.of_nat k)%Z;
  at_observed : observed st = imap Launched (take (S k) inputs)
}.

(** Requestor 0 raises when it is called; and requestor 0 returns nothing
    and reports later. *)
Definition example_raising_env : environment :=
  fun number input =>
    if number =? 0 then Raises (VStr "boom") else example_env number input.

Definition example_reporting_env : environment :=
  fun number input =>
    if number =? 0 then Returns VUndefined else example_env number input.

(** Every requestor that is launched and has not completed was called with
    an input recorded in [observed] and returned the value that its slot of
    [cancel_array] holds. *)
Definition returned_inv (env : environment) (st : state) : Prop :=
  forall slots j x,
    cancel_array st = Some slots ->
    numbers st !! j = Some (Some x) ->
    exists input cancel,
      Launched j input ∈ observed st
      /\ env j input = Returns cancel
      /\ slots !! j = Some cancel.


(** A step that completes nothing by a report: what has completed stays
    completed with its result, and an empty result slot stays empty. *)
Record quiet (st st' : state) : Prop := {
  quiet_completed :
    forall j, numbers st !! j = Some None -> numbers st' !! j = Some None;
  quiet_results :
    forall j, numbers st !! j = Some None ->
              array_get (results st') j = array_get (results st) j;
  quiet_empty :
    forall j, array_get (results st) j = VUndefined ->
              array_get (results st') j = VUndefined
}.

(** ** Vocabulary of the further properties *)

(** A requestor array as [check_requestor_array] wants it. *)
Definition requestors (elems : list value) : Prop :=
  elems <> [] /\ Forall (fun requestor => collected requestor = true) elems.

(** The requestors that the five factories return. *)
Inductive made : requestor -> Prop :=
| made_fallback requestor_array milliseconds r :
    fallback requestor_array milliseconds = Return r -> made r
| made_parallel required_array optional_array milliseconds throttle option r :
    parallel required_array optional_array milliseconds throttle option = Return r ->
    made r
| made_parallel_object required_object optional_object milliseconds throttle option r :
    parallel_object required_object optional_object milliseconds throttle option
    = Return (RRequestor r) ->
    made r
| made_race requestor_array milliseconds throttle r :
    race requestor_array milliseconds throttle = Return r -> made r
| made_sequence requestor_array milliseconds r :
    sequence requestor_array milliseconds = Return r -> made r.

(** What each of them satisfies. *)
Record well_formed (r : requestor) : Prop := {
  wf_requestors : requestors (r_requestor_array r);
  wf_number_required : r_number_required r <= length (r_requestor_array r);
  wf_option :
    r_option r = VUndefined \/ exists b, r_option r = VBool b;
  wf_optional_only : r_factory r = Parallel -> r_number_required r = 0 ->
                     r_option r = VBool true;
  wf_one_at_a_time : r_factory r = Fallback \/ r_factory r = Sequence ->
                     r_throttle r = VNum 1;
  wf_names : forall names, r_names r = Some names ->
                           r_factory r = Parallel
                           /\ length names = length (r_requestor_array r)
}.

(** [Object.keys(object)]. *)
Definition keys (object : value) : list string :=
  match own_properties object with
  | Return props => props.*1
  | Throw _ => []
  end.

(** The tests of [run] on its [throttle] and [milliseconds] arguments. *)
Definition throttle_ok (throttle : value) : bool :=
  is_undefined throttle
  || match safe_integer throttle with
     | Some t => (1 <=? t)%Z
     | None => false
     end.

Definition milliseconds_ok (milliseconds : value) : bool :=
  match milliseconds with
  | VUndefined => true
  | VNum q => Qle_bool 0 q
  | _ => false
  end.

(** The name under which a requestor checks its callback. *)
Definition requestor_name (r : requestor) : string :=
  match r_names r with
  | Some _ => "parallel_object"
  | None => factory_string (r_factory r)
  end.


(** The exception raised by a call of the cleared callback variable. *)
Definition not_a_function : value := VTypeError "callback is not a function".

(** A timer that can still fire belongs to a running coordinator that holds
    its identifier; a stopped coordinator holds none. *)
Definition armed (st : state) : Prop :=
  match cancel_array st with
  | Some _ => timer_running st = true -> timer_id st = true
  | None => timer_id st = false /\ timer_running st = false
  end.

(** [st'] is [st] with its counters, results and option rewritten. *)
Record recorded (st st' : state) : Prop := {
  recorded_frame : core_frame st st';
  recorded_cancel_array : cancel_array st' = cancel_array st;
  recorded_timer_id : timer_id st' = timer_id st;
  recorded_timer_running : timer_running st' = timer_running st;
  recorded_callback : callback st' = callback st;
  recorded_observed : observed st' = observed st
}.

(** What an action or timeout function did: it recorded something and went
    on, or it recorded something and then ended the run with [cancel(reason)]
    and one call of the callback. *)
Inductive closed (st : state) : result unit -> state -> Prop :=
| closed_on st1 :
    recorded st st1 -> closed st (Return ()) st1
| closed_off st1 reason success error res cb :
    recorded st st1 ->
    res = Return ()
    \/ (res = Throw not_a_function /\ r_factory (self st) <> Parallel) ->
    closed st res
      (set_callback cb (observe [delivery st success error] (cancelled reason st1))).

(** ** Reading the log *)

Definition launch_number (o : observation) : option nat :=
  match o with Launched number _ => Some number | _ => None end.

Definition cancel_number (o : observation) : option nat :=
  match o with Cancelled number _ _ => Some number | _ => None end.

Definition is_call (o : observation) : bool :=
  match o with Called _ _ => true | _ => false end.

(** The numbers of the requestors launched, and of the requestors whose
    cancel function was called, in order; the calls of the callback. *)
Definition launches (os : list observation) : list nat := omap launch_number os.

Definition cancellations (os : list observation) : list nat :=
  omap cancel_number os.

Definition calls (os : list observation) : list observation :=
  filter (fun o => is_call o = true) os.

(** What every state of a run satisfies, as far as the log goes. *)
Record trace_inv (env : environment) (st : state) : Prop := {
  trace_launches : launches (observed st) = seq 0 (next_number st);
  trace_running :
    alive st -> Forall (fun o => is_Some (launch_number o)) (observed st);
  trace_calls : length (calls (observed st)) <= 1;
  trace_cancellations : NoDup (cancellations (observed st));
  trace_armed : armed st;
  trace_cancelled : forall j c reason,
    Cancelled j c reason ∈ observed st ->
    is_function c = true /\ is_live st j = true
    /\ exists input, Launched j input ∈ observed st /\ env j input = Returns c;
  trace_reason : forall j c reason j' c' reason',
    Cancelled j c reason ∈ observed st ->
    Cancelled j' c' reason' ∈ observed st -> reason' = reason;
  trace_inputs : r_factory (self st) <> Sequence ->
    forall j input, Launched j input ∈ observed st -> input = initial_value st;
  trace_uncaught : forall e,
    Uncaught e ∈ observed st ->
    e = not_a_function /\ r_factory (self st) <> Parallel
    /\ exists success error, Called success error ∈ observed st
}.

(** A closure has run to [st'] with result [res]: the log is in order, and
    an exception is the one raised by a call of the cleared callback
    variable, after the callback has been called. *)
Definition traced (env : environment) (res : result unit) (st' : state) : Prop :=
  trace_inv env st'
  /\ forall e, res = Throw e ->
       e = not_a_function /\ r_factory (self st') <> Parallel
       /\ exists success error, Called success error ∈ observed st'.

(** The slots that [cancel] may call belong to requestors that are
    outstanding, and hold what these returned. *)
Definition held (env : environment) (st : state) (slots : list value) : Prop :=
  forall j c, slots !! j = Some c -> is_function c = true ->
    is_live st j = true
    /\ exists input, Launched j input ∈ observed st /\ env j input = Returns c.

(** The launch that follows a completion, when the next requestor returns. *)
Definition next_launch (input : value) (st : state) : list observation :=
  if next_number st <? length (requestor_array st)
  then [Launched (next_number st) input]
  else [].


(** * Properties *)

(** ** The factories: configuration errors *)

Lemma harvest_required_nothing (props : list (string * value)) :
  Forall (fun entry => collected entry.2 = false) props ->
  harvest_required props = [].
Proof.
  unfold harvest_required.
  induction 1 as [|entry props Hentry _ IH]; [reflexivity|].
  rewrite filter_cons, IH.
  destruct (decide (collected entry.2 = true)) as [Hc|]; [congruence|reflexivity].
Qed.

Lemma harvest_optional_nothing (required_object : value)
    (props : list (string * value)) :
  Forall (fun entry => collected entry.2 = false) props ->
  harvest_optional required_object props = Return [].
Proof.
  induction 1 as [|[name requestor] props Hentry _ IH]; [reflexivity|].
  simpl in *. rewrite Hentry. exact IH.
Qed.

Lemma extract_required_nothing (required_object : value) :
  is_mapping required_object -> nothing_collected required_object ->
  extract_required required_object = Return [].
Proof.
  intros [->|[props ->]] Hnone; [reflexivity|].
  unfold extract_required; simpl.
  now rewrite harvest_required_nothing.
Qed.

Lemma extract_optional_nothing (required_object optional_object : value) :
  is_mapping optional_object -> nothing_collected optional_object ->
  extract_optional required_object optional_object = Return [].
Proof.
  intros [->|[props ->]] Hnone; [reflexivity|].
  unfold extract_optional; simpl.
  now apply harvest_optional_nothing.
Qed.

(** C3 (the code departs from the claim).  When no entry of either mapping
    is a function of arity 1 or 2, [parallel_object] reaches its
    "No requestors." check, and there it hands the error report back as its
    return value: nothing is thrown.  The sibling checks of the same function
    ("Type mismatch.", "Duplicate name.") do throw. *)
Theorem parallel_object_no_requestors_is_returned
    (required_object optional_object milliseconds throttle option : value) :
  is_mapping required_object -> is_mapping optional_object ->
  nothing_collected required_object -> nothing_collected optional_object ->
  parallel_object required_object optional_object milliseconds throttle option
  = Return (RReport (make_error "parallel_object" (Some "No requestors.")
                                required_object))
  /\ forall e,
      parallel_object required_object optional_object milliseconds throttle option
      <> Throw e.
Proof.
  intros Hr Ho Hnr Hno.
  assert (parallel_object required_object optional_object milliseconds throttle option
          = Return (RReport (make_error "parallel_object" (Some "No requestors.")
                                        required_object))) as Heq.
  { unfold parallel_object.
    rewrite (extract_required_nothing _ Hr Hnr).
    rewrite (extract_optional_nothing required_object _ Ho Hno).
    reflexivity. }
  split; [exact Heq|]. intros e He. rewrite Heq in He. discriminate.
Qed.

Lemma parallel_object_no_requestors_is_returned_witness :
  parallel_object (VObj [("a", VNum 1); ("b", VFun 3 0)]) VUndefined
                  VUndefined VUndefined VUndefined
  = Return (RReport (make_error "parallel_object" (Some "No requestors.")
                                (VObj [("a", VNum 1); ("b", VFun 3 0)]))).
Proof.
  apply (parallel_object_no_requestors_is_returned
           (VObj [("a", VNum 1); ("b", VFun 3 0)]) VUndefined
           VUndefined VUndefined VUndefined).
  - right. eexists. reflexivity.
  - left. reflexivity.
  - repeat constructor.
  - constructor.
Defined.

(** C7 as stated fails: with only one of the two arrays given, a non-boolean
    option is accepted. *)
Lemma parallel_bad_option_accepted :
  ~ (forall (required_array optional_array : option (list value))
            (milliseconds throttle option : value),
        is_undefined option = false -> is_boolean option = false ->
        exists e,
          parallel required_array optional_array milliseconds throttle option
          = Throw e).
Proof.
  intros H.
  destruct (H (Some [VFun 1 0]) (Some []) VUndefined VUndefined (VStr "yes")
              eq_refl eq_refl) as [e He].
  discriminate He.
Qed.

(** C7 (amended).  A defined, non-boolean option makes the construction throw
    "Bad option." when both arrays are non-empty; with both arrays empty or
    undefined the construction throws "Missing requestor array."; with
    exactly one non-empty array the option is not looked at. *)
Theorem parallel_bad_option
    (required_array optional_array : option (list value))
    (milliseconds throttle option : value) :
  is_undefined option = false -> is_boolean option = false ->
  (missing required_array = false -> missing optional_array = false ->
   parallel required_array optional_array milliseconds throttle option
   = Throw (make_error "parallel" (Some "Bad option.") option))
  /\ (missing required_array = true -> missing optional_array = true ->
      parallel required_array optional_array milliseconds throttle option
      = Throw (make_error "parallel" (Some "Missing requestor array.")
                          (array_value required_array)))
  /\ (missing required_array <> missing optional_array ->
      parallel required_array optional_array milliseconds throttle option
      = parallel required_array optional_array milliseconds throttle VUndefined).
Proof.
  intros Hu Hb. unfold parallel. repeat split.
  - intros -> ->. now rewrite Hu, Hb.
  - now intros -> ->.
  - destruct (missing required_array), (missing optional_array); congruence.
Qed.

Lemma parallel_bad_option_witness :
  parallel (Some [VFun 1 0]) (Some [VFun 2 1]) VUndefined VUndefined (VNum 3)
  = Throw (make_error "parallel" (Some "Bad option.") (VNum 3)).
Proof.
  apply (parallel_bad_option (Some [VFun 1 0]) (Some [VFun 2 1])
                             VUndefined VUndefined (VNum 3));
    reflexivity.
Defined.

Lemma parallel_checked_returns (requestor_array : list value)
    (number_required : nat) (milliseconds throttle option : value) (r : requestor) :
  parallel_checked requestor_array number_required milliseconds throttle option
  = Return r ->
  r_option r = option /\ r_number_required r = number_required
  /\ r_requestor_array r = requestor_array.
Proof.
  unfold parallel_checked.
  destruct (check_requestor_array _ _); [|discriminate].
  intros [= <-]. simpl. auto.
Qed.

Lemma parallel_checked_throws (requestor_array : list value)
    (number_required : nat) (milliseconds throttle option bad : value) :
  parallel_checked requestor_array number_required milliseconds throttle option
  <> Throw (make_error "parallel" (Some "Bad option.") bad).
Proof.
  unfold parallel_checked, check_requestor_array.
  destruct (_ || _); discriminate.
Qed.


(** ** Framing: what the closures may change *)

#[local] Instance core_frame_preorder : PreOrder core_frame.
Proof.
  split.
  - intros st. split; auto.
  - intros st1 st2 st3 H12 H23. destruct H12, H23. split; try congruence.
    + destruct frame_cancel_array1 as [->| ->]; auto.
    + auto.
    + destruct frame_option1 as [->| ->]; auto.
    + by etrans.
Qed.

#[local] Instance frame_preorder : PreOrder frame.
Proof.
  split.
  - intros st. split; [reflexivity|auto].
  - intros st1 st2 st3 [H12 C12] [H23 C23]. split; [by etrans|].
    intros Halive. rewrite C23 by done. apply C12.
    unfold alive in *.
    destruct (frame_cancel_array _ _ H23) as [Heq|Hnone].
    + by rewrite <- Heq.
    + rewrite Hnone in Halive. by destruct Halive.
Qed.

Section preserves.
Context (R : relation state) `{!PreOrder R}.

Lemma preserves_ret {A} (a : A) : preserves R (ret a).
Proof. intros st. simpl. reflexivity. Qed.

Lemma preserves_throw {A} (e : value) : preserves R (throw (A:=A) e).
Proof. intros st. simpl. reflexivity. Qed.

Lemma preserves_get : preserves R get.
Proof. intros st. simpl. reflexivity. Qed.

Lemma preserves_bind {A B} (m : M A) (f : A -> M B) :
  preserves R m -> (forall a, preserves R (f a)) -> preserves R (m ≫= f).
Proof.
  intros Hm Hf st. unfold mbind, M_bind, bind.
  specialize (Hm st). destruct (m st) as [[a|e] st']; simpl in *; [|done].
  etrans; [exact Hm|apply Hf].
Qed.

Lemma preserves_when (b : bool) (m : M unit) :
  preserves R m -> preserves R (when b m).
Proof. destruct b; [done|]. intros _. apply preserves_ret. Qed.

Lemma preserves_modify (f : state -> state) :
  (forall st, R st (f st)) -> preserves R (modify f).
Proof. intros Hf st. apply Hf. Qed.
End preserves.

Lemma cancel_eq (reason : value) (st : state) :
  cancel reason st = (Return (), cancelled reason st).
Proof.
  unfold cancel, cancelled, mbind, M_bind, bind, get, when, modify, ret; simpl.
  destruct (timer_id st); simpl; destruct (cancel_array st); reflexivity.
Qed.

Lemma cancelled_dead (reason : value) (st : state) :
  cancel_array (cancelled reason st) = None.
Proof.
  unfold cancelled.
  destruct (timer_id st); simpl; destruct (cancel_array st) eqn:E; simpl; auto.
Qed.

Lemma cancelled_core_frame (reason : value) (st : state) :
  core_frame st (cancelled reason st).
Proof.
  unfold cancelled.
  destruct (timer_id st); simpl; destruct (cancel_array st) eqn:E; simpl;
    split; simpl; auto; try done; by apply prefix_app_r.
Qed.

Lemma cancel_core_frame (reason : value) : preserves core_frame (cancel reason).
Proof. intros st. rewrite cancel_eq. apply cancelled_core_frame. Qed.

Lemma call_callback_core_frame (success error : value) :
  preserves core_frame (call_callback success error).
Proof.
  intros st. unfold call_callback, mbind, M_bind, bind, get, modify, throw.
  destruct (is_function (callback st)); [|reflexivity].
  destruct (r_names (self st)); split; simpl; auto; by apply prefix_app_r.
Qed.

Lemma call_callback_frame (success error : value) :
  preserves frame (call_callback success error).
Proof.
  intros st. unfold call_callback, mbind, M_bind, bind, get, modify, throw.
  destruct (is_function (callback st)); [|reflexivity].
  destruct (r_names (self st)); (split; [split|]); simpl; auto;
    by apply prefix_app_r.
Qed.

Lemma core_frame_dead (st st' : state) :
  core_frame st st' -> cancel_array st = None -> cancel_array st' = None.
Proof. intros [] Hdead. destruct frame_cancel_array0; congruence. Qed.

(** Once [cancel] has run, what follows cannot break [frame]. *)
Lemma cancel_then_frame {A} (reason : value) (k : M A) :
  preserves core_frame k -> preserves frame (cancel reason;; k).
Proof.
  intros Hk st. unfold mbind, M_bind, bind. rewrite cancel_eq.
  specialize (Hk (cancelled reason st)).
  pose proof (cancelled_core_frame reason st) as Hc.
  pose proof (cancelled_dead reason st) as Hd.
  destruct (k (cancelled reason st)) as [[a|e] st']; simpl in *.
  all: split; [by etrans|];
    intros [slots Halive]; rewrite (core_frame_dead _ _ Hk Hd) in Halive;
    discriminate.
Qed.

Lemma frame_core_frame {A} (m : M A) : preserves frame m -> preserves core_frame m.
Proof. intros H st. apply H. Qed.

Ltac frame_modify :=
  intros ?; repeat split; simpl; auto; try reflexivity.

Ltac frame_step :=
  lazymatch goal with
  | |- preserves core_frame (cancel _) => apply cancel_core_frame
  | |- preserves core_frame (call_callback _ _) => apply call_callback_core_frame
  | |- preserves frame (call_callback _ _) => apply call_callback_frame
  | |- preserves frame (cancel _ ≫= _) => apply cancel_then_frame
  | |- preserves _ (modify _) => apply preserves_modify; frame_modify
  | |- preserves _ (when _ _) => apply preserves_when; [typeclasses eauto|]
  | |- preserves _ (ret _) => apply preserves_ret; typeclasses eauto
  | |- preserves _ get => apply preserves_get; typeclasses eauto
  | |- preserves _ (throw _) => apply preserves_throw; typeclasses eauto
  | |- preserves _ (_ ≫= _) => apply preserves_bind; [typeclasses eauto| |intros ?]
  | |- preserves _ (if ?b then _ else _) => destruct b
  | |- preserves _ (match ?x with _ => _ end) => destruct x
  end.

Ltac frame_tac := repeat frame_step.

Lemma fallback_action_frame (success error : value) (number : nat) :
  preserves frame (fallback_action success error number).
Proof. unfold fallback_action. frame_tac. Qed.

Lemma race_action_frame (success error : value) (number : nat) :
  preserves frame (race_action success error number).
Proof. unfold race_action. frame_tac. Qed.

Lemma sequence_action_frame (success error : value) (number : nat) :
  preserves frame (sequence_action success error number).
Proof. unfold sequence_action. frame_tac. Qed.

Lemma parallel_action_frame (success error : value) (number : nat) :
  preserves frame (parallel_action success error number).
Proof. unfold parallel_action. frame_tac. Qed.

Lemma action_frame (success error : value) (number : nat) :
  preserves frame (action success error number).
Proof.
  unfold action. apply preserves_bind; [typeclasses eauto|frame_step|].
  intros st. destruct (r_factory (self st)).
  - apply fallback_action_frame.
  - apply parallel_action_frame.
  - apply race_action_frame.
  - apply sequence_action_frame.
Qed.

Lemma timeout_frame : preserves frame timeout.
Proof.
  unfold timeout. apply preserves_bind; [typeclasses eauto|frame_step|].
  intros st. destruct (r_factory (self st)).
  - unfold fallback_timeout. frame_tac.
  - unfold parallel_timeout. frame_tac.
  - unfold race_timeout. frame_tac.
  - unfold sequence_timeout. frame_tac.
Qed.

(** ** Lists of [number] variables, arrays *)

Lemma count_none_app (l1 l2 : list (option nat)) :
  count_none (l1 ++ l2) = count_none l1 + count_none l2.
Proof. unfold count_none. by rewrite filter_app, length_app. Qed.


Ltac option_cases :=
  repeat case_decide; simplify_eq/=;
  try match goal with
      | H : is_Some None |- _ => by destruct H as [? [=]]
      | H : ¬ is_Some (Some _) |- _ => by destruct H; eexists
      end;
  try done; try lia.

Lemma count_none_clear (l : list (option nat)) (k x : nat) :
  l !! k = Some (Some x) -> count_none (<[k := None]> l) = S (count_none l).
Proof.
  unfold count_none. revert k.
  induction l as [|y l IH]; intros [|k] Hk; simplify_eq/=.
  - rewrite !filter_cons. option_cases.
  - rewrite !filter_cons. specialize (IH k Hk). option_cases.
Qed.

Lemma outstanding_clear (l : list (option nat)) (k x : nat) :
  l !! k = Some (Some x) ->
  S (length (filter is_Some (<[k := None]> l))) = length (filter is_Some l).
Proof.
  revert k.
  induction l as [|y l IH]; intros [|k] Hk; simplify_eq/=.
  - rewrite !filter_cons. option_cases.
  - rewrite !filter_cons. specialize (IH k Hk). option_cases.
Qed.

Lemma outstanding_completed (l : list (option nat)) :
  length (filter is_Some l) + count_none l = length l.
Proof.
  unfold count_none.
  induction l as [|[x|] l IH]; simpl; [done| |]; rewrite !filter_cons;
    option_cases.
Qed.

Lemma count_none_take_clear (l : list (option nat)) (n k x : nat) :
  l !! k = Some (Some x) ->
  count_none (take n (<[k := None]> l))
  = count_none (take n l) + (if k <? n then 1 else 0).
Proof.
  intros Hk. destruct (k <? n) eqn:Hkn.
  - apply Nat.ltb_lt in Hkn. rewrite take_insert_lt by done.
    rewrite (count_none_clear _ _ x); [lia|].
    by rewrite lookup_take_lt.
  - apply Nat.ltb_ge in Hkn. rewrite take_insert_ge by done. lia.
Qed.

Lemma count_none_take_launch (l : list (option nat)) (n k : nat) :
  count_none (take n (l ++ [Some k])) = count_none (take n l).
Proof.
  rewrite take_app, count_none_app.
  destruct (n - length l) as [|m]; simpl; [done|].
  rewrite take_nil. unfold count_none at 2. rewrite filter_cons.
  option_cases.
Qed.

Lemma count_none_take_live (l : list (option nat)) (n k x : nat) :
  l !! k = Some (Some x) -> k < n -> count_none (take n l) < n.
Proof.
  intros Hk Hkn.
  assert (length (filter is_Some (take n l)) > 0).
  { assert (Some x ∈ filter is_Some (take n l)) as Hin.
    { apply list_elem_of_filter. split; [by eexists|].
      apply list_elem_of_lookup. exists k. by rewrite lookup_take_lt. }
    destruct (filter is_Some (take n l)); [by apply elem_of_nil in Hin|simpl; lia]. }
  pose proof (outstanding_completed (take n l)).
  pose proof (length_take l n). lia.
Qed.

Lemma array_set_in_range (i : nat) (v : value) (a : list value) :
  i < length a -> array_set i v a = <[i := v]> a.
Proof. intros Hi. unfold array_set. by apply Nat.ltb_lt in Hi as ->. Qed.

Lemma array_get_set (i j : nat) (v : value) (a : list value) :
  array_get (array_set i v a) j = if decide (i = j) then v else array_get a j.
Proof.
  unfold array_get, array_set. destruct (i <? length a) eqn:Hi.
  - apply Nat.ltb_lt in Hi. rewrite list_lookup_insert.
    destruct (decide (i = j)) as [->|Hij].
    + by rewrite decide_True.
    + by rewrite decide_False by (by intros [? _]).
  - apply Nat.ltb_ge in Hi. case_decide as Hij.
    + subst j. rewrite lookup_app_r by done.
      rewrite lookup_app_r by (rewrite length_replicate; lia).
      rewrite length_replicate. by rewrite Nat.sub_diag.
    + destruct (decide (j < length a)) as [Hj|Hj].
      * by rewrite lookup_app_l.
      * rewrite lookup_app_r by lia. rewrite (lookup_ge_None_2 a) by lia. simpl.
        destruct (decide (j - length a < i - length a)) as [Hlt|Hge].
        -- rewrite lookup_app_l by (rewrite length_replicate; lia).
           by rewrite lookup_replicate_2.
        -- rewrite lookup_app_r by (rewrite length_replicate; lia).
           rewrite length_replicate.
           destruct (j - length a - (i - length a)) as [|m] eqn:Hm; [lia|done].
Qed.

(** ** Stepping through the monad *)

Lemma modify_then {A} (f : state -> state) (k : M A) (st : state) :
  (modify f;; k) st = k (f st).
Proof. reflexivity. Qed.

Lemma get_then {A} (k : state -> M A) (st : state) :
  (get ≫= k) st = k st st.
Proof. reflexivity. Qed.

Lemma cancel_then {A} (reason : value) (k : M A) (st : state) :
  (cancel reason;; k) st = k (cancelled reason st).
Proof. unfold mbind, M_bind, bind. by rewrite cancel_eq. Qed.

Lemma bind_eq {A B} (m : M A) (f : A -> M B) (st : state) :
  (m ≫= f) st
  = match m st with
    | (Return a, st') => f a st'
    | (Throw e, st') => (Throw e, st')
    end.
Proof. reflexivity. Qed.

Lemma bind_assoc {A B C} (m : M A) (f : A -> M B) (g : B -> M C) (st : state) :
  ((m ≫= f) ≫= g) st = (m ≫= (fun a => f a ≫= g)) st.
Proof.
  unfold mbind, M_bind, bind. destruct (m st) as [[a|e] st']; reflexivity.
Qed.

(** ** Counters and results *)

#[local] Instance counters_kept_preorder : PreOrder counters_kept.
Proof.
  split.
  - intros st. by repeat split.
  - intros st1 st2 st3 (? & ? & ?) (? & ? & ?). repeat split; congruence.
Qed.

Lemma cancelled_counters_kept (reason : value) (st : state) :
  counters_kept st (cancelled reason st).
Proof.
  unfold cancelled.
  destruct (timer_id st); simpl; destruct (cancel_array st) eqn:E; simpl;
    by repeat split.
Qed.

Lemma cancel_counters_kept (reason : value) :
  preserves counters_kept (cancel reason).
Proof. intros st. rewrite cancel_eq. apply cancelled_counters_kept. Qed.

Lemma call_callback_counters_kept (success error : value) :
  preserves counters_kept (call_callback success error).
Proof.
  intros st. unfold call_callback, mbind, M_bind, bind, get, modify, throw.
  destruct (is_function (callback st)); [|reflexivity].
  destruct (r_names (self st)); by repeat split.
Qed.

Ltac kept_step :=
  lazymatch goal with
  | |- preserves counters_kept (cancel _) => apply cancel_counters_kept
  | |- preserves counters_kept (call_callback _ _) =>
      apply call_callback_counters_kept
  | |- _ => frame_step
  end.

Ltac kept_tac := repeat kept_step.

(** ** Throwing only after the coordinator has stopped *)

Lemma safe_ret {A} (a : A) : safe (ret a).
Proof. intros st _. by eexists. Qed.

Lemma safe_get : safe get.
Proof. intros st _. by eexists. Qed.

Lemma safe_modify (f : state -> state) : safe (modify f).
Proof. intros st _. by eexists. Qed.

Lemma safe_cancel (reason : value) : safe (cancel reason).
Proof. intros st _. rewrite cancel_eq. by eexists. Qed.

Lemma safe_bind {A B} (m : M A) (f : A -> M B) :
  safe m -> (forall a, safe (f a)) -> safe (m ≫= f).
Proof.
  intros Hm Hf st. unfold mbind, M_bind, bind.
  specialize (Hm st). destruct (m st) as [[a|e] st']; simpl in *.
  - apply Hf.
  - intros Halive. destruct (Hm Halive) as [a [=]].
Qed.

Lemma safe_when (b : bool) (m : M unit) : safe m -> safe (when b m).
Proof. destruct b; [done|]. intros _. apply safe_ret. Qed.

Lemma safe_cancel_then {A} (reason : value) (k : M A) :
  preserves core_frame k -> safe (cancel reason;; k).
Proof.
  intros Hk st. rewrite cancel_then. intros [slots Halive].
  rewrite (core_frame_dead _ _ (Hk _) (cancelled_dead reason st)) in Halive.
  discriminate.
Qed.

Ltac safe_step :=
  lazymatch goal with
  | |- safe (cancel _ ≫= _) => apply safe_cancel_then
  | |- safe (cancel _) => apply safe_cancel
  | |- safe (modify _) => apply safe_modify
  | |- safe (when _ _) => apply safe_when
  | |- safe (ret _) => apply safe_ret
  | |- safe get => apply safe_get
  | |- safe (_ ≫= _) => apply safe_bind; [|intros ?]
  | |- safe (if ?b then _ else _) => destruct b
  | |- safe (match ?x with _ => _ end) => destruct x
  | |- _ => frame_step
  end.

Ltac safe_tac := repeat safe_step.

Lemma action_safe (success error : value) (number : nat) :
  safe (action success error number).
Proof.
  unfold action. apply safe_bind; [safe_step|].
  intros st. destruct (r_factory (self st)).
  - unfold fallback_action. safe_tac.
  - unfold parallel_action. safe_tac.
  - unfold race_action. safe_tac.
  - unfold sequence_action. safe_tac.
Qed.

Lemma timeout_safe : safe timeout.
Proof.
  unfold timeout. apply safe_bind; [safe_step|].
  intros st. destruct (r_factory (self st)).
  - unfold fallback_timeout. safe_tac.
  - unfold parallel_timeout. safe_tac.
  - unfold race_timeout. safe_tac.
  - unfold sequence_timeout. safe_tac.
Qed.

Lemma timeout_counters_kept : preserves counters_kept timeout.
Proof.
  unfold timeout. apply preserves_bind; [typeclasses eauto|kept_step|].
  intros st. destruct (r_factory (self st)).
  - unfold fallback_timeout. kept_tac.
  - unfold parallel_timeout. kept_tac.
  - unfold race_timeout. kept_tac.
  - unfold sequence_timeout. kept_tac.
Qed.

Ltac counters_after k s :=
  let Hk := fresh "Hk" in
  let H1 := fresh in let H2 := fresh in let H3 := fresh in
  assert (preserves counters_kept k) as Hk by kept_tac;
  destruct (Hk s) as (H1 & H2 & H3);
  split_and!; [etrans; [exact H1|]|etrans; [exact H2|]|etrans; [exact H3|]];
  done.

(** What an action records of a completion, whatever it does next. *)
Lemma action_counters (success error : value) (number : nat) (st : state) :
  is_function (callback st) = true ->
  let st' := (action success error number st).2 in
  results st'
  = match r_factory (self st) with
    | Parallel => array_set number success (results st)
    | _ => results st
    end
  /\ number_pending st' = (number_pending st - 1)%Z
  /\ number_pending_required_array st'
     = match r_factory (self st) with
       | Parallel =>
           if number <? number_required st
           then (number_pending_required_array st - 1)%Z
           else number_pending_required_array st
       | _ => number_pending_required_array st
       end.
Proof.
  intros Hcb. unfold action. rewrite get_then.
  destruct (r_factory (self st)) eqn:Hf; cbv zeta.
  - unfold fallback_action. rewrite modify_then.
    match goal with |- context [?k (set_number_pending ?x st)] =>
      counters_after k (set_number_pending x st)
    end.
  - unfold parallel_action. rewrite !modify_then, get_then.
    change (number_required (set_number_pending _ (set_results _ st)))
      with (number_required st).
    destruct (number <? number_required st).
    + rewrite bind_assoc, modify_then.
      match goal with |- context [?k (set_number_pending_required_array ?x ?s)] =>
        counters_after k (set_number_pending_required_array x s)
      end.
    + match goal with |- context [(?k ?s).2] => counters_after k s end.
  - unfold race_action. rewrite modify_then.
    match goal with |- context [?k (set_number_pending ?x st)] =>
      counters_after k (set_number_pending x st)
    end.
  - unfold sequence_action. rewrite get_then.
    destruct (callback st); try discriminate. simpl. rewrite modify_then.
    match goal with |- context [?k (set_number_pending ?x st)] =>
      counters_after k (set_number_pending x st)
    end.
Qed.

(** ** The invariant of a run *)

Lemma start_requestor_fuel_stopped (fuel : nat) (env : environment)
    (value : value) (st : state) :
  ¬ (alive st /\ next_number st < length (requestor_array st)) ->
  start_requestor_fuel fuel env value st = (Return (), st).
Proof.
  intros Hstop. destruct fuel; simpl; rewrite get_then.
  all: destruct (bool_decide (is_Some (cancel_array st))) eqn:Ha; simpl; [|done].
  all: destruct (next_number st <? length (requestor_array st)) eqn:Hn; [|done].
  all: apply bool_decide_eq_true in Ha; apply Nat.ltb_lt in Hn; by destruct Hstop.
Qed.

Lemma start_requestor_fuel_launch (fuel : nat) (env : environment)
    (value : value) (st : state) :
  alive st -> next_number st < length (requestor_array st) ->
  start_requestor_fuel (S fuel) env value st
  = match env (next_number st) value with
    | Returns cancel =>
        (Return (), set_slot (next_number st) cancel
                      (launched (next_number st) value st))
    | Raises exception =>
        (action VUndefined exception (next_number st);;
         modify (clear_number (next_number st));;
         start_requestor_fuel fuel env value)
          (launched (next_number st) value st)
    end.
Proof.
  intros Ha Hn. simpl. rewrite get_then.
  rewrite bool_decide_eq_true_2 by done.
  apply Nat.ltb_lt in Hn as ->. simpl.
  rewrite !modify_then. fold (launched (next_number st) value st).
  by destruct (env (next_number st) value).
Qed.

Lemma launched_inv (value : value) (st : state) :
  run_inv st -> next_number st < length (requestor_array st) ->
  run_inv (launched (next_number st) value st).
Proof.
  intros [] Hn. split; simpl; unfold alive, pending_required in *; simpl.
  - rewrite length_app. simpl. lia.
  - unfold requestor_array in *. simpl. lia.
  - intros slots Hs. destruct (inv_slots0 slots Hs) as [Hlen Hempty].
    split; [done|]. intros i Hi Hlt. apply Hempty; [|done].
    destruct (decide (i < next_number st)).
    + by rewrite lookup_app_l in Hi by lia.
    + left. apply lookup_ge_None_2. lia.
  - done.
  - intros Ha. rewrite count_none_app. unfold count_none at 2.
    rewrite filter_cons. rewrite decide_False by done. simpl.
    rewrite inv_pending0 by done. unfold requestor_array. simpl. lia.
  - intros Ha Hf. unfold number_required. simpl.
    rewrite count_none_take_launch. by apply inv_pending_required0.
  - intros Ha i Hi. apply inv_results0; [done|]. intros Hnone. apply Hi.
    apply lookup_app_l_Some. done.
Qed.

Lemma launched_slot (st : state) (slots : list value) :
  run_inv st -> next_number st < length (requestor_array st) ->
  cancel_array st = Some slots ->
  slots !! next_number st = Some VUndefined.
Proof.
  intros [] Hn Hs. destruct (inv_slots0 slots Hs) as [Hlen Hempty].
  apply Hempty; [|lia]. left. apply lookup_ge_None_2. lia.
Qed.

Lemma launched_live (value : value) (st : state) :
  run_inv st ->
  numbers (launched (next_number st) value st) !! next_number st
  = Some (Some (next_number st)).
Proof.
  intros []. simpl. rewrite lookup_app_r by lia.
  by rewrite inv_numbers0, Nat.sub_diag.
Qed.

Lemma set_slot_inv (number : nat) (v : value) (x : nat) (st : state) :
  run_inv st -> numbers st !! number = Some (Some x) ->
  run_inv (set_slot number v st).
Proof.
  intros [] Hlive. split; simpl; unfold alive in *; simpl; try done.
  - intros slots Hs. destruct (cancel_array st) as [old|] eqn:Ho; [|done].
    simpl in Hs. injection Hs as <-.
    destruct (inv_slots0 old eq_refl) as [Hlen Hempty].
    assert (number < length old) as Hlt.
    { apply lookup_lt_Some in Hlive. lia. }
    rewrite array_set_in_range by done. rewrite length_insert.
    split; [done|]. intros i Hi Hi'.
    rewrite list_lookup_insert_ne; [by apply Hempty|].
    intros <-. destruct Hi; congruence.
  - intros Ha. apply inv_callback0. by destruct (cancel_array st).
  - intros Ha. apply inv_pending0. by destruct (cancel_array st).
  - intros Ha. apply inv_pending_required0. by destruct (cancel_array st).
  - intros Ha. apply inv_results0. by destruct (cancel_array st).
Qed.

(** A completion: the action runs for a live number whose slot is empty,
    then the number is cleared. *)
Lemma completion_inv (success error : value) (number x : nat) (st : state) :
  run_inv st -> alive st ->
  numbers st !! number = Some (Some x) ->
  (forall slots, cancel_array st = Some slots -> slots !! number = Some VUndefined) ->
  match action success error number st with
  | (Return _, st') => run_inv (clear_number number st')
  | (Throw _, st') => run_inv st' /\ cancel_array st' = None
  end.
Proof.
  intros Hinv Ha Hlive Hslot.
  pose proof (action_frame success error number st) as [Hframe Hcb].
  pose proof (action_safe success error number st) as Hsafe.
  pose proof (action_counters success error number st
                (inv_callback _ Hinv Ha)) as (Hres & Hpend & Hreq).
  cbv zeta in *.
  destruct (action success error number st) as [res st'] eqn:Hact.
  simpl in *. destruct Hframe, Hinv.
  assert (alive st' -> cancel_array st' = cancel_array st) as Hsame.
  { intros [slots Hs]. destruct frame_cancel_array0; congruence. }
  assert (number < length (numbers st)) as Hlt by (by eapply lookup_lt_Some).
  destruct res as [[]|e].
  - split; simpl; unfold alive, requestor_array, pending_required,
             number_required in *; simpl.
    + rewrite length_insert. congruence.
    + congruence.
    + intros slots Hs. rewrite Hsame in Hs by (by eexists).
      destruct (inv_slots0 slots Hs) as [Hlen Hempty].
      rewrite frame_self0. split; [done|]. intros i Hi Hi'.
      rewrite frame_numbers0 in Hi.
      destruct (decide (i = number)) as [->|Hne]; [by apply Hslot|].
      rewrite list_lookup_insert_ne in Hi by done. by apply Hempty.
    + intros Ha'. rewrite Hcb by done. apply inv_callback0.
      by rewrite <- Hsame.
    + intros Ha'. rewrite Hpend, frame_numbers0, frame_self0.
      rewrite (count_none_clear _ _ x) by done.
      rewrite inv_pending0 by (by rewrite <- Hsame). lia.
    + intros Ha' Hf. rewrite frame_self0 in *. rewrite Hreq, Hf, frame_numbers0.
      rewrite (count_none_take_clear _ _ _ x) by done.
      rewrite inv_pending_required0 by (by rewrite <- ?Hsame).
      destruct (number <? r_number_required (self st)) eqn:Hn; [|lia].
      apply Nat.ltb_lt in Hn.
      pose proof (count_none_take_live _ _ _ _ Hlive Hn). lia.
    + intros Ha' i Hi. rewrite frame_numbers0 in Hi.
      assert (i <> number) as Hne.
      { intros ->. apply Hi. by rewrite list_lookup_insert_eq. }
      rewrite list_lookup_insert_ne in Hi by done.
      assert (array_get (results st) i = VUndefined) as Hold.
      { apply inv_results0; [by rewrite <- Hsame|done]. }
      rewrite Hres. destruct (r_factory (self st)); try done.
      rewrite array_get_set. by rewrite decide_False.
  - assert (cancel_array st' = None) as Hdead.
    { destruct (cancel_array st') eqn:Hs; [|done].
      destruct Hsafe as [? [=]]. by eexists. }
    split; [|done].
    split; simpl; unfold alive, requestor_array in *; simpl;
      rewrite ?Hdead; try congruence; try (by intros [? [=]]).
Qed.

Ltac chain :=
  unfold outstanding in *; simpl in *;
  repeat match goal with H : _ \/ _ |- _ => destruct H end;
  try (left; congruence); try (right; congruence); eauto; try lia.

Lemma launched_outstanding (input : value) (st : state) :
  outstanding (launched (next_number st) input st) = S (outstanding st).
Proof.
  unfold outstanding. simpl. rewrite filter_app, length_app, filter_cons.
  rewrite decide_True by (by eexists). simpl. lia.
Qed.

Lemma clear_number_outstanding (number x : nat) (st : state) :
  numbers st !! number = Some (Some x) ->
  S (outstanding (clear_number number st)) = outstanding st.
Proof. intros Hlive. unfold outstanding. simpl. by eapply outstanding_clear. Qed.

Lemma start_requestor_fuel_started (fuel : nat) (env : environment)
    (input : value) (st : state) :
  run_inv st -> started st (start_requestor_fuel fuel env input st).2.
Proof.
  revert st. induction fuel as [|fuel IH]; intros st Hinv.
  all: destruct (decide (alive st /\ next_number st < length (requestor_array st)))
         as [[Ha Hn]|Hstop];
    [|rewrite start_requestor_fuel_stopped by done; split; auto].
  { simpl. rewrite get_then. rewrite bool_decide_eq_true_2 by done.
    apply Nat.ltb_lt in Hn as ->. simpl. split; auto. }
  rewrite start_requestor_fuel_launch by done.
  pose proof (launched_inv input st Hinv Hn) as Hinv1.
  pose proof (launched_live input st Hinv) as Hlive1.
  pose proof (launched_outstanding input st) as Hout1.
  set (st1 := launched (next_number st) input st) in *.
  destruct (env (next_number st) input) as [exception|cancel].
  - pose proof (completion_inv VUndefined exception (next_number st) _ st1
                  Hinv1 Ha Hlive1) as Hdone.
    pose proof (action_frame VUndefined exception (next_number st) st1)
      as [Hframe _].
    rewrite bind_eq.
    destruct (action VUndefined exception (next_number st) st1)
      as [[[]|e] st2]; simpl in Hframe.
    + rewrite modify_then.
      assert (run_inv (clear_number (next_number st) st2)) as Hinv3.
      { apply Hdone. intros slots Hs. by eapply launched_slot. }
      destruct (IH _ Hinv3), Hframe. simpl in *.
      assert (numbers st2 !! next_number st = Some (Some (next_number st)))
        as Hlive2 by congruence.
      pose proof (clear_number_outstanding _ _ st2 Hlive2) as Hout3.
      assert (outstanding st2 = outstanding st1) as Hout2.
      { unfold outstanding. by rewrite frame_numbers0. }
      split; try congruence; try lia; chain.
    + simpl. destruct Hdone as [Hinv2 Hdead].
      { intros slots Hs. by eapply launched_slot. }
      destruct Hframe. split; try done;
        try (unfold outstanding in *; rewrite frame_numbers0; lia); chain.
  - simpl. split; try done; try (by eapply set_slot_inv); chain.
Qed.

Lemma start_requestor_started (env : environment) (input : value) (st : state) :
  run_inv st -> started st (start_requestor env input st).2.
Proof.
  intros Hinv. unfold start_requestor. rewrite get_then.
  by apply start_requestor_fuel_started.
Qed.

Lemma observe_inv (os : list observation) (st : state) :
  run_inv st -> run_inv (observe os st).
Proof. intros []. by split. Qed.

Lemma set_timer_inv (id running : bool) (st : state) :
  run_inv st -> run_inv (set_timer id running st).
Proof. intros []. by split. Qed.

Lemma set_deferred_inv (n : nat) (st : state) :
  run_inv st -> run_inv (set_deferred n st).
Proof. intros []. by split. Qed.

Lemma stopped_inv (st st' : state) :
  run_inv st -> core_frame st st' -> cancel_array st' = None -> run_inv st'.
Proof.
  intros [] [] Hdead.
  split; unfold alive, requestor_array in *; rewrite ?Hdead;
    try congruence; by intros [? [=]].
Qed.

Lemma cancelled_inv (reason : value) (st : state) :
  run_inv st -> run_inv (cancelled reason st).
Proof.
  intros Hinv. eapply stopped_inv; [done|..].
  - apply cancelled_core_frame.
  - apply cancelled_dead.
Qed.

Lemma timeout_inv (st : state) : run_inv st -> run_inv (timeout st).2.
Proof.
  intros Hinv.
  pose proof (timeout_frame st) as [Hframe Hcb].
  pose proof (timeout_counters_kept st) as (Hres & Hpend & Hreq).
  destruct (cancel_array (timeout st).2) as [slots|] eqn:Hs;
    [|by eapply stopped_inv].
  destruct Hframe, Hinv.
  assert (cancel_array (timeout st).2 = cancel_array st) as Hsame.
  { destruct frame_cancel_array0; congruence. }
  split; unfold alive, requestor_array, pending_required, number_required in *;
    rewrite ?Hsame, ?frame_self0, ?frame_numbers0, ?frame_next_number0,
      ?Hres, ?Hpend, ?Hreq; try done.
  intros Ha. rewrite Hcb; [by apply inv_callback0|]. by rewrite Hsame.
Qed.

Lemma is_live_Some (st : state) (number : nat) :
  is_live st number = true -> exists x, numbers st !! number = Some (Some x).
Proof.
  unfold is_live. destruct (numbers st !! number) as [[x|]|]; try done.
  by exists x.
Qed.

Lemma start_requestor_callback_ignored (env : environment) (number : nat)
    (success error : value) (st : state) :
  ¬ (alive st /\ is_live st number = true) ->
  start_requestor_callback env number success error st = (Return (), st).
Proof.
  intros Hno. unfold start_requestor_callback. rewrite get_then.
  destruct (bool_decide (is_Some (cancel_array st))) eqn:Ha; [|done].
  destruct (is_live st number) eqn:Hl; [|done].
  apply bool_decide_eq_true in Ha. by destruct Hno.
Qed.

Lemma start_requestor_callback_fires (env : environment) (number : nat)
    (success error : value) (st : state) :
  alive st -> is_live st number = true ->
  start_requestor_callback env number success error st
  = match action success error number (set_slot number VUndefined st) with
    | (Return _, st') =>
        start_requestor env
          (match r_factory (self st') with
           | Sequence => success
           | _ => initial_value st'
           end)
          (clear_number number st')
    | (Throw e, st') => (Throw e, st')
    end.
Proof.
  intros Ha Hl. unfold start_requestor_callback. rewrite get_then.
  rewrite bool_decide_eq_true_2 by done. rewrite Hl. simpl.
  rewrite modify_then, bind_eq.
  destruct (action _ _ _ _) as [[[]|e] st']; [|done].
  by rewrite modify_then, get_then.
Qed.

Lemma task_stepped (m : M unit) (st0 st : state) :
  (stepped st0 (m st).2) -> stepped st0 (task m st).
Proof.
  unfold task. destruct (m st) as [[[]|e] st']; [done|]. simpl.
  intros []. split; try done. by apply observe_inv.
Qed.

Lemma handle_stepped (env : environment) (ev : event) (st : state) :
  run_inv st -> stepped st (handle env ev st).
Proof.
  intros Hinv.
  assert (stepped st st) as Hrefl by (split; auto).
  destruct ev as [|number success error| |reason]; simpl.
  - destruct (0 <? deferred st) eqn:Hd; [|done].
    apply Nat.ltb_lt in Hd. apply task_stepped.
    destruct (start_requestor_started env (initial_value st)
                (set_deferred (deferred st - 1) st)
                (set_deferred_inv _ _ Hinv)).
    split; try done; chain.
  - apply task_stepped.
    destruct (decide (alive st /\ is_live st number = true)) as [[Ha Hl]|Hno];
      [|by rewrite start_requestor_callback_ignored].
    rewrite start_requestor_callback_fires by done.
    destruct (is_live_Some _ _ Hl) as [x Hx].
    set (st1 := set_slot number VUndefined st).
    assert (run_inv st1) as Hinv1 by (by eapply set_slot_inv).
    assert (alive st1) as Ha1.
    { unfold alive, st1. simpl. by destruct Ha as [? ->]. }
    pose proof (completion_inv success error number x st1 Hinv1 Ha1 Hx)
      as Hdone.
    pose proof (action_frame success error number st1) as [Hframe _].
    destruct (action success error number st1) as [[[]|e] st2];
      simpl in Hframe; destruct Hframe.
    + assert (run_inv (clear_number number st2)) as Hinv3.
      { apply Hdone. intros slots Hs. unfold st1 in Hs. simpl in Hs.
        destruct Ha as [old Hold]. rewrite Hold in Hs. injection Hs as <-.
        destruct (inv_slots _ Hinv old Hold) as [Hlen _].
        assert (number < length old).
        { apply lookup_lt_Some in Hx.
          pose proof (inv_numbers _ Hinv). pose proof (inv_cursor _ Hinv). lia. }
        rewrite array_set_in_range by done.
        by rewrite list_lookup_insert_eq. }
      match goal with |- context [start_requestor env ?v _] =>
        destruct (start_requestor_started env v _ Hinv3)
      end.
      assert (numbers st2 !! number = Some (Some x)) as Hx2
        by (rewrite frame_numbers0; exact Hx).
      pose proof (clear_number_outstanding _ _ st2 Hx2).
      assert (outstanding st2 = outstanding st) as Hout.
      { unfold outstanding. by rewrite frame_numbers0. }
      subst st1. simpl in *.
      destruct (stepped_option _ _ Hrefl) as [_|_];
        split; try done; simpl in *; try congruence; chain.
    + destruct Hdone as [Hinv2 Hdead].
      { intros slots Hs. unfold st1 in Hs. simpl in Hs.
        destruct Ha as [old Hold]. rewrite Hold in Hs. injection Hs as <-.
        destruct (inv_slots _ Hinv old Hold) as [Hlen _].
        assert (number < length old).
        { apply lookup_lt_Some in Hx.
          pose proof (inv_numbers _ Hinv). pose proof (inv_cursor _ Hinv). lia. }
        rewrite array_set_in_range by done.
        by rewrite list_lookup_insert_eq. }
      subst st1. simpl in *. split; try done;
        try (unfold outstanding; rewrite frame_numbers0, frame_deferred0; done);
        chain.
  - destruct (timer_running st); [|done]. apply task_stepped.
    set (st1 := set_timer (timer_id st) false st).
    pose proof (timeout_frame st1) as [[] _].
    split; try done.
    + apply timeout_inv. by apply set_timer_inv.
    + unfold outstanding. rewrite frame_numbers0, frame_deferred0. done.
    + unfold alive. destruct frame_cancel_array0 as [->| ->]; [done|].
      by intros [? [=]].
    + intros Ht. by apply frame_timer_running0 in Ht.
  - apply task_stepped. rewrite cancel_eq. simpl.
    pose proof (cancelled_core_frame reason st) as [].
    split; try done.
    + by apply cancelled_inv.
    + unfold outstanding. rewrite frame_numbers0, frame_deferred0. done.
    + unfold alive. rewrite cancelled_dead. by intros [? [=]].
Qed.

Lemma run_events_snoc (env : environment) (evs : list event) (ev : event)
    (st : state) :
  run_events env (evs ++ [ev]) st = handle env ev (run_events env evs st).
Proof. unfold run_events. by rewrite foldl_snoc. Qed.

Lemma run_events_stepped (env : environment) (evs : list event) (st : state) :
  run_inv st -> stepped st (run_events env evs st).
Proof.
  intros Hinv. induction evs as [|ev evs IH] using rev_ind.
  - split; auto.
  - rewrite run_events_snoc. destruct IH.
    destruct (handle_stepped env ev _ stepped_inv0).
    split; try done; try congruence; try lia; chain.
Qed.

Lemma run_returns (r : requestor) (callback initial_value : value) (st0 : state) :
  run r callback initial_value = Return st0 ->
  exists (t : Z) (timer : bool),
    safe_integer (effective_throttle r) = Some t /\ (1 <= t)%Z
    /\ st0 = {| self := r;
                initial_value := initial_value;
                cancel_array := Some (replicate (length (r_requestor_array r)) VUndefined);
                next_number := 0;
                timer_id := timer;
                numbers := [];
                callback := callback;
                number_pending := Z.of_nat (length (r_requestor_array r));
                number_pending_required_array := Z.of_nat (r_number_required r);
                results := [];
                option_ := r_option r;
                deferred := Nat.min (Z.to_nat t) (length (r_requestor_array r));
                timer_running := timer;
                observed := [] |}.
Proof.
  unfold run. fold (effective_throttle r).
  destruct (safe_integer (effective_throttle r)) as [t|]; [|done].
  destruct (t <? 1)%Z eqn:Ht; [done|].
  destruct (milliseconds_check _ _) as [timer|]; [|done].
  intros [= <-]. exists t, timer. split_and!; [done|lia|done].
Qed.

Lemma invoke_returns (r : requestor) (callback initial_value : value)
    (st0 : state) :
  invoke r callback initial_value = Return st0 ->
  is_function callback = true /\ run r callback initial_value = Return st0.
Proof.
  unfold invoke, check_callback.
  destruct callback as [| | | | | |arity id| | | |]; simpl; try done.
  by destruct (arity =? 2).
Qed.

Lemma invoke_inv (r : requestor) (callback initial_value : value) (st0 : state) :
  invoke r callback initial_value = Return st0 -> run_inv st0.
Proof.
  intros [Hcb Hrun]%invoke_returns.
  destruct (run_returns _ _ _ _ Hrun) as (t & timer & _ & _ & ->).
  split; simpl; unfold alive, requestor_array, pending_required,
    number_required; simpl; try done; try lia.
  - intros slots [= <-]. rewrite length_replicate. split; [done|].
    intros i _ Hi. by apply lookup_replicate_2.
  - intros _. unfold count_none. simpl. lia.
  - intros _ _. rewrite take_nil. unfold count_none. simpl. lia.
Qed.

Lemma reachable_inv (env : environment) (st : state) :
  reachable env st -> run_inv st.
Proof.
  intros (r & callback & initial_value & st0 & evs & Hinvoke & ->).
  apply run_events_stepped. by eapply invoke_inv.
Qed.

(** ** The cancel functions that [cancel_array] holds *)

Lemma returned_inv_mono (env : environment) (st st' : state) :
  returned_inv env st ->
  observed st `prefix_of` observed st' ->
  (forall slots' j x,
      cancel_array st' = Some slots' -> numbers st' !! j = Some (Some x) ->
      exists slots,
        cancel_array st = Some slots /\ numbers st !! j = Some (Some x)
        /\ slots' !! j = slots !! j) ->
  returned_inv env st'.
Proof.
  intros Hold [more Hmore] Hback slots' j x Hs' Hlive'.
  destruct (Hback slots' j x Hs' Hlive') as (slots & Hs & Hlive & Hsame).
  destruct (Hold slots j x Hs Hlive) as (input & c & Hin & Henv & Hc).
  exists input, c. split_and!; [|done|congruence].
  rewrite Hmore. apply elem_of_app. by left.
Qed.

Lemma completion_returned (env : environment) (number : nat)
    (st st1 st2 : state) :
  returned_inv env st ->
  observed st `prefix_of` observed st1 ->
  (forall j x, j <> number -> numbers st1 !! j = Some (Some x) ->
               numbers st !! j = Some (Some x)) ->
  (forall slots1, cancel_array st1 = Some slots1 ->
     exists slots, cancel_array st = Some slots
                   /\ forall j, j <> number -> slots1 !! j = slots !! j) ->
  core_frame st1 st2 ->
  number < length (numbers st1) ->
  returned_inv env (clear_number number st2).
Proof.
  intros Hold Hobs Hlive Hslots Hframe Hlt.
  destruct Hframe. eapply returned_inv_mono; [done|simpl; by etrans|].
  simpl. intros slots2 j x Hs2 Hj. rewrite frame_numbers0 in Hj.
  assert (j <> number) as Hne.
  { intros ->. by rewrite list_lookup_insert_eq in Hj. }
  rewrite list_lookup_insert_ne in Hj by done.
  assert (cancel_array st1 = Some slots2) as Hs1.
  { destruct frame_cancel_array0; congruence. }
  destruct (Hslots slots2 Hs1) as (slots & Hs & Hsame).
  exists slots. split_and!; [done|by eapply Hlive|by apply Hsame].
Qed.

Lemma start_requestor_fuel_returned (fuel : nat) (env : environment)
    (input : value) (st : state) :
  run_inv st -> returned_inv env st ->
  returned_inv env (start_requestor_fuel fuel env input st).2.
Proof.
  revert st. induction fuel as [|fuel IH]; intros st Hinv Hold.
  all: destruct (decide (alive st /\ next_number st < length (requestor_array st)))
         as [[Ha Hn]|Hstop];
    [|by rewrite start_requestor_fuel_stopped].
  { simpl. rewrite get_then. rewrite bool_decide_eq_true_2 by done.
    by apply Nat.ltb_lt in Hn as ->. }
  rewrite start_requestor_fuel_launch by done.
  pose proof (launched_inv input st Hinv Hn) as Hinv1.
  pose proof (launched_live input st Hinv) as Hlive1.
  pose proof (inv_numbers _ Hinv) as Hlen.
  destruct Ha as [slots Hs].
  destruct (inv_slots _ Hinv slots Hs) as [Hslots_len _].
  destruct (env (next_number st) input) as [exception|cancel] eqn:Henv.
  - set (st1 := launched (next_number st) input st) in *.
    pose proof (completion_inv VUndefined exception (next_number st) _ st1
                  Hinv1 ltac:(by exists slots) Hlive1) as Hdone.
    pose proof (action_frame VUndefined exception (next_number st) st1)
      as [Hframe _].
    rewrite bind_eq.
    destruct (action VUndefined exception (next_number st) st1)
      as [[[]|e] st2]; simpl in Hframe.
    + rewrite modify_then. apply IH.
      * apply Hdone. intros slots1 Hs1. by eapply launched_slot.
      * eapply (completion_returned env (next_number st) st st1 st2);
          try done.
        -- simpl. by apply prefix_app_r.
        -- simpl. intros j x Hne Hj.
           destruct (decide (j < length (numbers st))).
           ++ by rewrite lookup_app_l in Hj.
           ++ rewrite lookup_app_r in Hj by lia.
              destruct (j - length (numbers st)) as [|m] eqn:Hm; [lia|done].
        -- intros slots1 Hs1. exists slots1. by split.
        -- simpl. rewrite length_app. simpl. lia.
    + simpl. destruct Hdone as [_ Hdead].
      { intros slots1 Hs1. by eapply launched_slot. }
      intros slots2 j x Hs2. congruence.
  - simpl. intros slots' j x Hs' Hj. simpl in *. rewrite Hs in Hs'.
    simpl in Hs'. injection Hs' as <-.
    rewrite array_set_in_range by (unfold requestor_array in *; lia).
    destruct (decide (j = next_number st)) as [->|Hne].
    + exists input, cancel. split_and!.
      * apply elem_of_app. right. by apply list_elem_of_singleton.
      * done.
      * apply list_lookup_insert_eq. unfold requestor_array in *. lia.
    + assert (numbers st !! j = Some (Some x)) as Hj'.
      { destruct (decide (j < length (numbers st))).
        - by rewrite lookup_app_l in Hj.
        - rewrite lookup_app_r in Hj by lia.
          destruct (j - length (numbers st)) as [|m] eqn:Hm; [lia|done]. }
      destruct (Hold slots j x Hs Hj') as (input' & c & Hin & Hret & Hc).
      exists input', c. split_and!; [|done|by rewrite list_lookup_insert_ne].
      apply elem_of_app. by left.
Qed.

Lemma task_returned (env : environment) (m : M unit) (st : state) :
  returned_inv env (m st).2 -> returned_inv env (task m st).
Proof.
  unfold task. destruct (m st) as [[[]|e] st']; [done|]. simpl.
  intros Hold. eapply returned_inv_mono; [done|simpl; by apply prefix_app_r|].
  simpl. intros slots j x Hs Hj. by exists slots.
Qed.

Lemma dead_returned (env : environment) (st : state) :
  cancel_array st = None -> returned_inv env st.
Proof. intros Hdead slots j x Hs. congruence. Qed.

Lemma handle_returned (env : environment) (ev : event) (st : state) :
  run_inv st -> returned_inv env st -> returned_inv env (handle env ev st).
Proof.
  intros Hinv Hold.
  destruct ev as [|number success error| |reason]; simpl.
  - destruct (0 <? deferred st); [|done]. apply task_returned.
    apply start_requestor_fuel_returned; [by apply set_deferred_inv|].
    intros slots j x Hs Hj. by apply (Hold slots j x).
  - apply task_returned.
    destruct (decide (alive st /\ is_live st number = true)) as [[Ha Hl]|Hno];
      [|by rewrite start_requestor_callback_ignored].
    rewrite start_requestor_callback_fires by done.
    destruct (is_live_Some _ _ Hl) as [x Hx].
    destruct Ha as [slots Hs].
    destruct (inv_slots _ Hinv slots Hs) as [Hlen _].
    assert (number < length slots) as Hlt.
    { apply lookup_lt_Some in Hx.
      pose proof (inv_numbers _ Hinv). pose proof (inv_cursor _ Hinv). lia. }
    set (st1 := set_slot number VUndefined st).
    assert (run_inv st1) as Hinv1 by (by eapply set_slot_inv).
    assert (cancel_array st1 = Some (<[number := VUndefined]> slots)) as Hs1.
    { unfold st1. simpl. rewrite Hs. simpl. by rewrite array_set_in_range. }
    pose proof (completion_inv success error number x st1 Hinv1
                  ltac:(by eexists) Hx) as Hdone.
    pose proof (action_frame success error number st1) as [Hframe _].
    destruct (action success error number st1) as [[[]|e] st2];
      simpl in Hframe.
    + apply start_requestor_fuel_returned.
      * apply Hdone. intros slots1 Hslots1.
        rewrite Hs1 in Hslots1. injection Hslots1 as <-.
        by rewrite list_lookup_insert_eq.
      * eapply (completion_returned env number st st1 st2); try done.
        -- intros slots1 Hslots1. rewrite Hs1 in Hslots1.
           injection Hslots1 as <-. exists slots. split; [done|].
           intros j Hne. by rewrite list_lookup_insert_ne.
        -- by eapply lookup_lt_Some.
    + simpl. destruct Hdone as [_ Hdead]; [|by apply dead_returned].
      intros slots1 Hslots1. rewrite Hs1 in Hslots1. injection Hslots1 as <-.
      by rewrite list_lookup_insert_eq.
  - destruct (timer_running st); [|done]. apply task_returned.
    pose proof (timeout_frame (set_timer (timer_id st) false st)) as [[] _].
    eapply returned_inv_mono; [done|done|].
    intros slots' j x Hs' Hj. exists slots'. simpl in *.
    split_and!; [|congruence|done].
    destruct frame_cancel_array0; congruence.
  - apply task_returned. rewrite cancel_eq. simpl.
    apply dead_returned, cancelled_dead.
Qed.

Lemma reachable_returned (env : environment) (st : state) :
  reachable env st -> returned_inv env st.
Proof.
  intros (r & callback & initial_value & st0 & evs & Hinvoke & ->).
  pose proof (invoke_inv _ _ _ _ Hinvoke) as Hinv0.
  induction evs as [|ev evs IH] using rev_ind.
  - apply invoke_returns in Hinvoke as [_ Hrun].
    destruct (run_returns _ _ _ _ Hrun) as (t & timer & _ & _ & ->).
    intros slots j x _ Hj. done.
  - rewrite run_events_snoc. apply handle_returned; [|done].
    by apply run_events_stepped.
Qed.

(** ** Throttling *)




(** ** parallel: what the action and the timeout function do *)

Lemma call_callback_eq (success error : value) (st : state) :
  is_function (callback st) = true ->
  call_callback success error st
  = (Return (), observe [delivery st success error] st).
Proof.
  intros Hcb. unfold call_callback, delivery. rewrite get_then, Hcb.
  by destruct (r_names (self st)).
Qed.

Lemma cancelled_callback (reason : value) (st : state) :
  callback (cancelled reason st) = callback st.
Proof.
  unfold cancelled.
  by destruct (timer_id st); simpl; destruct (cancel_array st).
Qed.

Lemma cancelled_self (reason : value) (st : state) :
  self (cancelled reason st) = self st.
Proof. apply cancelled_core_frame. Qed.

Lemma cancelled_observed (reason : value) (st : state) (slots : list value) :
  cancel_array st = Some slots ->
  observed (cancelled reason st)
  = (observed st ++ cancel_calls (cancel_reason st reason) slots)%list.
Proof.
  intros Hs. unfold cancelled, cancel_reason, factory_name.
  destruct (timer_id st); simpl; by rewrite Hs.
Qed.

Lemma finish_eq (reason success error : value) (st : state) :
  is_function (callback st) = true ->
  (cancel reason;; call_callback success error;;
   modify (set_callback VUndefined)) st
  = (Return (), finished reason success error st).
Proof.
  intros Hcb. rewrite cancel_then, bind_eq.
  rewrite call_callback_eq by (by rewrite cancelled_callback).
  cbv beta iota. unfold modify, finished, delivery.
  by rewrite cancelled_self.
Qed.

Lemma finish_true_eq (reason success error : value) (st : state) :
  is_function (callback st) = true ->
  (cancel reason;; call_callback success error;;
   modify (set_callback VUndefined);; ret true) st
  = (Return true, finished reason success error st).
Proof.
  intros Hcb. rewrite cancel_then, bind_eq.
  rewrite call_callback_eq by (by rewrite cancelled_callback).
  cbv beta iota. rewrite modify_then. unfold ret, finished, delivery.
  by rewrite cancelled_self.
Qed.

Lemma finish_results_eq (reason : value) (st : state) :
  is_function (callback st) = true ->
  (cancel reason;;
   st ← get;
   call_callback (VArr (results st)) VUndefined;;
   modify (set_callback VUndefined)) st
  = (Return (), finished reason (VArr (results st)) VUndefined st).
Proof.
  intros Hcb. rewrite cancel_then, get_then, bind_eq.
  rewrite call_callback_eq by (by rewrite cancelled_callback).
  cbv beta iota. unfold modify, finished, delivery.
  rewrite cancelled_self.
  by destruct (cancelled_counters_kept reason st) as [-> _].
Qed.

Lemma parallel_recorded_callback (number : nat) (success : value) (st : state) :
  callback (parallel_recorded number success st) = callback st.
Proof.
  unfold parallel_recorded. by destruct (number <? number_required st).
Qed.

Lemma parallel_action_tail (required : bool) (success error : value)
    (st : state) :
  is_function (callback st) = true ->
  ((if required && is_undefined success
    then cancel error;; call_callback VUndefined error;;
         modify (set_callback VUndefined);; ret true
    else ret false)
   ≫= fun returned : bool =>
        if returned then ret ()
        else
          st ← get;
          when ((number_pending st <? 1)%Z
                || (is_undefined (option_ st)
                    && (number_pending_required_array st <? 1)%Z))
               (cancel (make_error "parallel" (Some "Optional.") VUndefined);;
                st ← get;
                call_callback (VArr (results st)) VUndefined;;
                modify (set_callback VUndefined))) st
  = (Return (),
     if required && is_undefined success
     then finished error VUndefined error st
     else if (number_pending st <? 1)%Z
             || (is_undefined (option_ st)
                 && (number_pending_required_array st <? 1)%Z)
          then finished (make_error "parallel" (Some "Optional.") VUndefined)
                        (VArr (results st)) VUndefined st
          else st).
Proof.
  intros Hcb. rewrite bind_eq.
  destruct (required && is_undefined success).
  - by rewrite finish_true_eq.
  - unfold ret at 1. rewrite get_then.
    destruct (_ || _); [|done].
    unfold when. by rewrite finish_results_eq.
Qed.

Lemma parallel_action_eq (success error : value) (number : nat) (st : state) :
  is_function (callback st) = true ->
  parallel_action success error number st
  = (Return (),
     let st1 := parallel_recorded number success st in
     if (number <? number_required st) && is_undefined success
     then finished error VUndefined error st1
     else if (number_pending st1 <? 1)%Z
             || (is_undefined (option_ st1)
                 && (number_pending_required_array st1 <? 1)%Z)
          then finished (make_error "parallel" (Some "Optional.") VUndefined)
                        (VArr (results st1)) VUndefined st1
          else st1).
Proof.
  intros Hcb. unfold parallel_action.
  rewrite !modify_then, get_then.
  change (number_required (set_number_pending _ (set_results _ st)))
    with (number_required st).
  assert (is_function (callback (parallel_recorded number success st)) = true)
    as Hcb1 by (by rewrite parallel_recorded_callback).
  pose proof (parallel_action_tail (number <? number_required st)
                success error _ Hcb1) as Htail.
  unfold parallel_recorded in *. cbv zeta.
  destruct (number <? number_required st).
  - rewrite bind_assoc, modify_then. rewrite <- Htail.
    by destruct (is_undefined success).
  - rewrite <- Htail. done.
Qed.

(** C10.  With exactly one of the two arrays non-empty, the option argument
    is overwritten before anything reads it: the requestor that is built is
    the same for every option, and no "Bad option." error is raised.  With
    only the optional array it carries [true] and no requestor is required,
    so that a completion delivers nothing as long as another requestor is
    pending; with only the required array it carries [undefined]. *)
Theorem parallel_single_array_discards_option
    (required_array optional_array : option (list value))
    (milliseconds throttle option : value) :
  missing required_array <> missing optional_array ->
  (forall option',
      parallel required_array optional_array milliseconds throttle option
      = parallel required_array optional_array milliseconds throttle option')
  /\ (forall r,
        parallel required_array optional_array milliseconds throttle option
        = Return r ->
        if missing required_array
        then r_option r = VBool true /\ r_number_required r = 0
             /\ Some (r_requestor_array r) = optional_array
             /\ (forall st success error number,
                   self st = r -> option_ st = VBool true ->
                   is_function (callback st) = true ->
                   (1 < number_pending st)%Z ->
                   parallel_action success error number st
                   = (Return (), parallel_recorded number success st))
        else r_option r = VUndefined
             /\ Some (r_requestor_array r) = required_array
             /\ r_number_required r = length (r_requestor_array r))
  /\ parallel required_array optional_array milliseconds throttle option
     <> Throw (make_error "parallel" (Some "Bad option.") option).
Proof.
  intros Hone. unfold parallel.
  destruct (missing required_array) eqn:Hr, (missing optional_array) eqn:Ho;
    try congruence;
    (split; [reflexivity|]);
    (split; [intros r Hret; apply parallel_checked_returns in Hret
            |apply parallel_checked_throws]).
  - destruct Hret as (Hoption & Hnumber & Harray). split_and!; try done.
    + rewrite Harray. destruct optional_array; [reflexivity|discriminate].
    + intros st success error number Hself Hopt Hcb Hpending.
      rewrite parallel_action_eq by done. cbv zeta.
      unfold parallel_recorded, number_required.
      rewrite Hself, Hnumber. simpl. rewrite Hopt. simpl.
      destruct (Z.ltb_spec (number_pending st - 1) 1); [lia|done].
  - destruct Hret as (-> & Hn & Ha). rewrite Hn, Ha. repeat split.
    destruct required_array; [reflexivity|discriminate].
Qed.

Lemma parallel_single_array_discards_option_witness :
  parallel (Some [VFun 1 0]) None VUndefined VUndefined (VNum 3)
  = parallel (Some [VFun 1 0]) None VUndefined VUndefined (VBool true).
Proof.
  apply (parallel_single_array_discards_option
           (Some [VFun 1 0]) None VUndefined VUndefined (VNum 3)).
  simpl. discriminate.
Defined.

Lemma finished_dead (reason success error : value) (st : state) :
  cancel_array (finished reason success error st) = None.
Proof. unfold finished. simpl. apply cancelled_dead. Qed.

Lemma finished_observed (reason success error : value) (st : state)
    (slots : list value) :
  cancel_array st = Some slots ->
  observed (finished reason success error st)
  = (observed st ++ cancel_calls (cancel_reason st reason) slots
       ++ [delivery st success error])%list.
Proof.
  intros Hs. unfold finished. simpl.
  rewrite (cancelled_observed _ _ slots) by done. by rewrite <- app_assoc.
Qed.

Lemma finished_next_number (reason success error : value) (st : state) :
  next_number (finished reason success error st) = next_number st.
Proof. unfold finished. simpl. apply cancelled_core_frame. Qed.

Lemma start_requestor_stopped (env : environment) (input : value) (st : state) :
  cancel_array st = None -> start_requestor env input st = (Return (), st).
Proof.
  intros Hdead. unfold start_requestor. rewrite get_then.
  apply start_requestor_fuel_stopped. intros [[slots Hs] _]. congruence.
Qed.






Lemma cancel_calls_elem (reason : value) (slots : list value) (o : observation) :
  o ∈ cancel_calls reason slots
  <-> exists j c, o = Cancelled j c reason /\ slots !! j = Some c
                  /\ is_function c = true.
Proof.
  unfold cancel_calls. rewrite list_elem_of_omap. split.
  - intros (m & Hm & Hsome). apply elem_of_lookup_imap in Hm as (j & c & -> & Hc).
    destruct (is_function c) eqn:Hf; [|done]. injection Hsome as <-.
    by exists j, c.
  - intros (j & c & -> & Hc & Hf). exists (Some (Cancelled j c reason)).
    split; [|done]. apply elem_of_lookup_imap. exists j, c. by rewrite Hf.
Qed.

Lemma cancel_calls_live (reason : value) (st : state) (slots : list value)
    (j : nat) (c r : value) :
  run_inv st -> cancel_array st = Some slots ->
  Cancelled j c r ∈ cancel_calls reason slots ->
  is_live st j = true.
Proof.
  intros Hinv Hs (j' & c' & [= -> -> ->] & Hc & Hf)%cancel_calls_elem.
  destruct (inv_slots _ Hinv slots Hs) as [_ Hempty].
  unfold is_live. destruct (numbers st !! j') as [[x|]|] eqn:Hj; [done|..].
  - rewrite Hempty in Hc; [by simplify_eq|by right|by eapply lookup_lt_Some].
  - rewrite Hempty in Hc; [by simplify_eq|by left|by eapply lookup_lt_Some].
Qed.




(** ** The results that have arrived *)

#[local] Instance quiet_preorder : PreOrder quiet.
Proof.
  split.
  - intros st. by split.
  - intros st1 st2 st3 [] []. split; intros j Hj; auto.
    rewrite quiet_results1 by auto. auto.
Qed.

Lemma quiet_fields (st st' : state) :
  numbers st' = numbers st -> results st' = results st -> quiet st st'.
Proof. intros Hn Hr. split; intros j; rewrite ?Hn, ?Hr; auto. Qed.

Lemma clear_number_quiet (number : nat) (st : state) :
  quiet st (clear_number number st).
Proof.
  split; simpl; try done. intros j Hj.
  destruct (decide (number = j)) as [->|Hne].
  - rewrite list_lookup_insert_eq; [done|by eapply lookup_lt_Some].
  - by rewrite list_lookup_insert_ne.
Qed.

Lemma launched_quiet (number : nat) (input : value) (st : state) :
  quiet st (launched number input st).
Proof. split; simpl; try done. intros j Hj. by apply lookup_app_l_Some. Qed.

(** The action for a requestor that raised. *)
Lemma raised_quiet (exception : value) (number x : nat) (st : state) :
  is_function (callback st) = true ->
  numbers st !! number = Some (Some x) ->
  quiet st (action VUndefined exception number st).2.
Proof.
  intros Hcb Hlive.
  pose proof (action_frame VUndefined exception number st) as [[] _].
  pose proof (action_counters VUndefined exception number st Hcb)
    as (Hres & _ & _).
  cbv zeta in Hres.
  split; intros j Hj; rewrite ?frame_numbers0, ?Hres; try done.
  - destruct (r_factory (self st)); try done.
    rewrite array_get_set, decide_False; [done|]. intros ->. congruence.
  - destruct (r_factory (self st)); try done.
    rewrite array_get_set. by case_decide.
Qed.

Lemma start_requestor_fuel_quiet (fuel : nat) (env : environment)
    (input : value) (st : state) :
  run_inv st -> quiet st (start_requestor_fuel fuel env input st).2.
Proof.
  revert st. induction fuel as [|fuel IH]; intros st Hinv.
  all: destruct (decide (alive st /\ next_number st < length (requestor_array st)))
         as [[Ha Hn]|Hstop];
    [|by rewrite start_requestor_fuel_stopped].
  { simpl. rewrite get_then. rewrite bool_decide_eq_true_2 by done.
    by apply Nat.ltb_lt in Hn as ->. }
  rewrite start_requestor_fuel_launch by done.
  pose proof (launched_inv input st Hinv Hn) as Hinv1.
  pose proof (launched_live input st Hinv) as Hlive1.
  pose proof (launched_quiet (next_number st) input st) as Hquiet1.
  set (st1 := launched (next_number st) input st) in *.
  assert (alive st1) as Ha1 by done.
  destruct (env (next_number st) input) as [exception|cancel].
  - pose proof (completion_inv VUndefined exception (next_number st) _ st1
                  Hinv1 Ha1 Hlive1) as Hdone.
    pose proof (raised_quiet exception (next_number st) _ st1
                  (inv_callback _ Hinv1 Ha1) Hlive1) as Hquiet2.
    rewrite bind_eq.
    destruct (action VUndefined exception (next_number st) st1)
      as [[[]|e] st2]; simpl in Hquiet2.
    + rewrite modify_then. etrans; [exact Hquiet1|]. etrans; [exact Hquiet2|].
      etrans; [apply (clear_number_quiet (next_number st))|].
      apply IH. apply Hdone. intros slots Hs.
      destruct Ha as [slots0 Hs0]. eapply launched_slot; try done.
    + simpl. by etrans.
  - simpl. etrans; [exact Hquiet1|]. by apply quiet_fields.
Qed.

Lemma task_quiet (m : M unit) (st0 st : state) :
  quiet st0 (m st).2 -> quiet st0 (task m st).
Proof.
  unfold task. destruct (m st) as [[[]|e] st']; [done|]. simpl.
  intros Hq. etrans; [exact Hq|]. by apply quiet_fields.
Qed.

(** An event other than an accepted report. *)
Lemma handle_quiet (env : environment) (ev : event) (st : state) :
  run_inv st ->
  match ev with
  | Report number _ _ => ¬ (alive st /\ is_live st number = true)
  | _ => True
  end ->
  quiet st (handle env ev st).
Proof.
  intros Hinv Hev. destruct ev as [|number success error| |reason]; simpl.
  - destruct (0 <? deferred st); [|done]. apply task_quiet.
    etrans; [|apply start_requestor_fuel_quiet; by apply set_deferred_inv].
    by apply quiet_fields.
  - apply task_quiet. by rewrite start_requestor_callback_ignored.
  - destruct (timer_running st); [|done]. apply task_quiet.
    pose proof (timeout_frame (set_timer (timer_id st) false st)) as [[] _].
    pose proof (timeout_counters_kept (set_timer (timer_id st) false st))
      as (Hres & _ & _).
    by apply quiet_fields.
  - apply task_quiet. rewrite cancel_eq. simpl.
    pose proof (cancelled_core_frame reason st) as [].
    pose proof (cancelled_counters_kept reason st) as (Hres & _ & _).
    by apply quiet_fields.
Qed.









(** ** Concrete runs *)

Lemma example_run_reachable (made : result requestor) (env : environment)
    (evs : list event) (st : state) :
  example_run made env evs = Some st -> reachable env st.
Proof.
  unfold example_run. destruct made as [r|]; [|done].
  destruct (invoke r (VFun 2 0) (VStr "init")) as [st0|] eqn:Hinvoke; [|done].
  intros [= <-]. by exists r, (VFun 2 0), (VStr "init"), st0, evs.
Defined.

(** C1 (the code departs from the claim).  When the report that ends a run
    is also the last one pending, [fallback_action], [race_action] and
    [sequence_action] call the caller's callback, clear the variable, and
    then fall into their second test, where they call the cleared variable:
    a TypeError is raised.  Three runs over a single requestor: it succeeds
    under [fallback] and under [race], it fails under [sequence]. *)
Theorem callback_called_after_cleared :
  observed <$> example_run (fallback (VArr [VFun 1 1]) VUndefined) example_env
                 [Tick; Report 0 (VStr "v") VUndefined]
  = Some [Launched 0 (VStr "init"); Called (VStr "v") VUndefined;
          Uncaught (VTypeError "callback is not a function")]
  /\ observed <$> example_run (race (VArr [VFun 1 1]) VUndefined VUndefined)
                    example_env [Tick; Report 0 (VStr "v") VUndefined]
     = Some [Launched 0 (VStr "init"); Called (VStr "v") VUndefined;
             Uncaught (VTypeError "callback is not a function")]
  /\ observed <$> example_run (sequence (VArr [VFun 1 1]) VUndefined)
                    example_env [Tick; Report 0 VUndefined (VStr "e")]
     = Some [Launched 0 (VStr "init"); Called VUndefined (VStr "e");
             Uncaught (VTypeError "callback is not a function")].
Proof. by vm_compute. Qed.





(** ** A requestor that raises *)

Lemma start_requestor_eq (env : environment) (input : value) (st : state) :
  start_requestor env input st
  = start_requestor_fuel (length (requestor_array st) - next_number st)
      env input st.
Proof. reflexivity. Qed.

(** Only the requestors that are still to be launched matter. *)
Lemma start_requestor_fuel_ext (fuel : nat) (env env' : environment)
    (input : value) (st : state) :
  (forall number v, next_number st <= number -> env' number v = env number v) ->
  start_requestor_fuel fuel env' input st = start_requestor_fuel fuel env input st.
Proof.
  revert st. induction fuel as [|fuel IH]; intros st Hext.
  - destruct (decide (alive st /\ next_number st < length (requestor_array st)))
      as [[Ha Hn]|Hstop]; [|by rewrite !start_requestor_fuel_stopped].
    simpl. rewrite !get_then. by destruct (_ && _).
  - destruct (decide (alive st /\ next_number st < length (requestor_array st)))
      as [[Ha Hn]|Hstop]; [|by rewrite !start_requestor_fuel_stopped].
    rewrite !start_requestor_fuel_launch by done.
    rewrite Hext by done.
    destruct (env (next_number st) input) as [exception|cancel]; [|done].
    rewrite !bind_eq.
    pose proof (action_frame VUndefined exception (next_number st)
                  (launched (next_number st) input st)) as [Hframe _].
    destruct (action _ _ _ _) as [[[]|e] st2]; [|done].
    rewrite !modify_then. apply IH. intros number v Hle. apply Hext.
    destruct Hframe. simpl in *. lia.
Qed.

(** The fuel [start_requestor] gives to [start_requestor_fuel] is enough:
    more fuel changes nothing, so the exhausted branch is never taken. *)
Lemma start_requestor_fuel_enough (fuel : nat) (env : environment)
    (input : value) (st : state) :
  length (requestor_array st) - next_number st <= fuel ->
  start_requestor_fuel fuel env input st = start_requestor env input st.
Proof.
  rewrite start_requestor_eq.
  remember (length (requestor_array st) - next_number st) as need eqn:Hneed.
  revert fuel st Hneed.
  induction need as [|need IH]; intros fuel st Hneed Hfuel.
  - rewrite !start_requestor_fuel_stopped; [done|lia|lia].
  - destruct fuel as [|fuel]; [lia|].
    destruct (decide (alive st)) as [Ha|Hdead];
      [|rewrite !start_requestor_fuel_stopped; [done|tauto|tauto]].
    rewrite !start_requestor_fuel_launch by (done || lia).
    destruct (env (next_number st) input) as [exception|cancel]; [|done].
    rewrite !bind_eq.
    pose proof (action_frame VUndefined exception (next_number st)
                  (launched (next_number st) input st)) as [Hframe _].
    destruct (action _ _ _ _) as [[[]|e] st2]; [|done].
    rewrite !modify_then. destruct Hframe. apply IH; [|lia].
    unfold requestor_array in *. simpl in *.
    rewrite frame_self0, frame_next_number0. simpl. lia.
Qed.

Lemma sequence_failure_stops (error : value) (number : nat) (st : state) :
  is_function (callback st) = true ->
  cancel_array (sequence_action VUndefined error number st).2 = None.
Proof.
  intros Hcb. unfold sequence_action. rewrite get_then.
  assert (is_undefined (callback st) = false) as ->
    by (by destruct (callback st)).
  simpl. rewrite modify_then, bind_eq.
  rewrite finish_eq by done.
  match goal with |- context [(get ≫= ?k) ?s] =>
    assert (preserves core_frame (get ≫= k)) as Hk by frame_tac;
    specialize (Hk s)
  end.
  eapply core_frame_dead; [exact Hk|]. apply finished_dead.
Qed.

(** C9.  When the requestor that [start_requestor] launches raises, the
    core calls the action with [(undefined, exception, number)] and goes on
    to the next launch.  The outcome is the one of a run in which that
    requestor had returned and then reported [exception] as a failure through
    its callback: same result, same state. *)
Theorem raise_is_a_failure_report (env env' : environment) (st : state)
    (input exception : value) :
  reachable env st -> alive st ->
  next_number st < length (requestor_array st) ->
  (r_factory (self st) <> Sequence -> input = initial_value st) ->
  env (next_number st) input = Raises exception ->
  env' (next_number st) input = Returns VUndefined ->
  (forall number v, number <> next_number st -> env' number v = env number v) ->
  let number := next_number st in
  start_requestor env input st
  = (action VUndefined exception number;;
     modify (clear_number number);;
     start_requestor env input) (launched number input st)
  /\ start_requestor env input st
     = (start_requestor env' input;;
        start_requestor_callback env' number VUndefined exception) st.
Proof.
  intros Hreach Ha Hn Hinput Hraise Hreturn Hother. cbv zeta.
  pose proof (reachable_inv _ _ Hreach) as Hinv.
  pose proof (launched_inv input st Hinv Hn) as Hinv1.
  pose proof (launched_live input st Hinv) as Hlive1.
  destruct Ha as [slots Hs].
  pose proof (launched_slot st slots Hinv Hn Hs) as Hslot.
  set (number := next_number st) in *.
  set (st1 := launched number input st) in *.
  assert (alive st1) as Ha1 by (by exists slots).
  pose proof (action_frame VUndefined exception number st1) as [Hframe _].
  assert (start_requestor env input st
          = (action VUndefined exception number;;
             modify (clear_number number);;
             start_requestor env input) st1) as Hcore.
  { rewrite start_requestor_eq.
    destruct (length (requestor_array st) - next_number st) as [|fuel] eqn:Hfuel;
      [lia|].
    rewrite start_requestor_fuel_launch by (done || by exists slots).
    fold number st1. rewrite Hraise, !bind_eq.
    destruct (action _ _ _ _) as [[[]|e] st2]; [|done].
    rewrite !modify_then, start_requestor_eq.
    destruct Hframe. unfold requestor_array in *. simpl in *.
    rewrite frame_self0, frame_next_number0.
    f_equal. lia. }
  split; [done|].
  rewrite Hcore, (bind_eq (start_requestor env' input)).
  rewrite !start_requestor_eq.
  destruct (length (requestor_array st) - next_number st) as [|fuel] eqn:Hfuel;
    [lia|].
  rewrite start_requestor_fuel_launch by (done || by exists slots).
  fold number st1. rewrite Hreturn.
  assert (set_slot number VUndefined st1 = st1) as Hsame.
  { unfold set_slot, st1, launched. simpl. rewrite Hs. simpl.
    rewrite array_set_in_range by (by eapply lookup_lt_Some).
    rewrite list_insert_id by done.
    unfold set_cancel_array, observe, set_numbers, set_next_number. simpl.
    by rewrite Hs. }
  rewrite Hsame.
  rewrite start_requestor_callback_fires;
    [|done|by unfold is_live; rewrite Hlive1].
  rewrite Hsame, bind_eq.
  destruct (action VUndefined exception number st1) as [[[]|e] st2] eqn:Hact;
    [|done].
  rewrite modify_then. simpl in Hframe. destruct Hframe.
  destruct (cancel_array st2) as [slots2|] eqn:Hs2.
  - assert (r_factory (self st) <> Sequence) as Hnot.
    { intros Hseq.
      pose proof (sequence_failure_stops exception number st1
                    (inv_callback _ Hinv1 Ha1)) as Hdead.
      unfold action in Hact. rewrite get_then in Hact. simpl in Hact.
      rewrite Hseq in Hact. rewrite Hact in Hdead. simpl in Hdead. congruence. }
    rewrite !start_requestor_eq. simpl.
    rewrite frame_self0, frame_initial_value0. simpl.
    rewrite (Hinput Hnot).
    replace (match r_factory (self st) with
             | Sequence => VUndefined
             | _ => initial_value st
             end) with (initial_value st)
      by (by destruct (r_factory (self st))).
    symmetry. apply start_requestor_fuel_ext.
    intros k v Hle. apply Hother. simpl in Hle.
    rewrite frame_next_number0 in Hle. simpl in Hle. lia.
  - by rewrite !start_requestor_stopped.
Qed.

(** ** sequence *)

Lemma sequence_action_eq (success error : value) (number : nat) (st : state) :
  is_function (callback st) = true -> is_undefined success = false ->
  sequence_action success error number st
  = (Return (),
     let st1 := set_number_pending (number_pending st - 1) st in
     if (number_pending st - 1 <? 1)%Z
     then finished VUndefined success VUndefined st1
     else st1).
Proof.
  intros Hcb Hsucc. unfold sequence_action. rewrite get_then.
  assert (is_undefined (callback st) = false) as ->
    by (by destruct (callback st)).
  simpl. rewrite modify_then, Hsucc. simpl. rewrite bind_eq. unfold ret at 1.
  rewrite get_then. simpl.
  destruct (number_pending st - 1 <? 1)%Z; [|done].
  unfold when. by rewrite finish_eq.
Qed.

Lemma cancel_calls_empty (reason : value) (n : nat) :
  cancel_calls reason (replicate n VUndefined) = [].
Proof.
  unfold cancel_calls.
  assert (forall (f : nat -> nat),
             omap (fun slot => slot)
               (imap (fun number cancel =>
                        if is_function cancel
                        then Some (Cancelled (f number) cancel reason)
                        else None)
                     (replicate n VUndefined)) = []) as H.
  { induction n as [|n IH]; intros f; [done|]. simpl. apply (IH (f ∘ S)). }
  apply (H id).
Qed.

Lemma sequence_returns (requestor_array milliseconds : value) (r : requestor) :
  sequence requestor_array milliseconds = Return r ->
  r_factory r = Sequence /\ r_names r = None /\ r_throttle r = VNum 1
  /\ 1 <= length (r_requestor_array r).
Proof.
  unfold sequence, check_requestor_array.
  destruct requestor_array as [| | | | | | |elems| | |]; try done.
  destruct (length elems <? 1) eqn:Hlen; [done|].
  destruct (existsb bad_requestor elems); [done|].
  intros [= <-]. simpl. apply Nat.ltb_ge in Hlen. done.
Qed.

Section sequence.
Context (r : requestor) (handles : nat -> value -> value).
Context (inputs : list value).
Context (Hfactory : r_factory r = Sequence) (Hnames : r_names r = None).

Let env : environment := fun number input => Returns (handles number input).
Let count : nat := length (r_requestor_array r).

Lemma sequence_first (callback initial_value : value) (st0 : state) :
  r_throttle r = VNum 1 -> 1 <= count ->
  inputs !! 0 = Some initial_value ->
  invoke r callback initial_value = Return st0 ->
  sequence_at r inputs 0 (handle env Tick st0).
Proof.
  intros Hthrottle Hcount Hinput [Hcb Hrun]%invoke_returns.
  destruct (run_returns _ _ _ _ Hrun) as (t & timer & Ht & _ & ->).
  unfold effective_throttle in Ht. rewrite Hthrottle in Ht.
  injection Ht as <-. fold count.
  replace (Z.to_nat 1 `min` count) with 1 by lia.
  simpl. unfold task. rewrite start_requestor_eq. simpl.
  unfold requestor_array. simpl. fold count. rewrite Nat.sub_0_r.
  destruct count as [|n] eqn:Hn; [lia|].
  rewrite start_requestor_fuel_launch; [|by eexists|simpl; unfold requestor_array; simpl; lia].
  simpl. split; simpl; try done.
  - eexists. unfold count in Hn. rewrite Hn. simpl. done.
  - unfold count in Hn. rewrite Hn. lia.
  - by rewrite (take_S_r _ _ _ Hinput).
Qed.

Lemma sequence_live (k : nat) (st : state) :
  sequence_at r inputs k st -> alive st /\ is_live st k = true.
Proof.
  intros [Hself [c Hs] _ Hnumbers _ _ _]. split; [by eexists|].
  unfold is_live. rewrite Hnumbers.
  rewrite lookup_app_r by (by rewrite length_replicate).
  by rewrite length_replicate, Nat.sub_diag.
Qed.

Lemma sequence_next (k : nat) (success error : value) (st : state) :
  sequence_at r inputs k st ->
  S k < count ->
  is_undefined success = false ->
  inputs !! S k = Some success ->
  sequence_at r inputs (S k) (handle env (Report k success error) st).
Proof.
  intros Hat Hk Hsucc Hinput.
  destruct (sequence_live k st Hat) as [Ha Hlive].
  destruct Hat as [Hself [c Hs] Hnext Hnumbers Hcb Hpending Hobserved].
  simpl. unfold task.
  rewrite start_requestor_callback_fires by done.
  unfold action. rewrite get_then. simpl. rewrite Hself, Hfactory.
  rewrite sequence_action_eq by done. cbv zeta. simpl number_pending.
  rewrite Hpending. fold count.
  destruct (Z.ltb_spec (Z.of_nat count - Z.of_nat k - 1) 1); [lia|].
  simpl. rewrite Hself, Hfactory.
  rewrite start_requestor_eq. simpl. unfold requestor_array. simpl.
  rewrite Hself, Hnext. fold count.
  destruct (count - S k) as [|fuel] eqn:Hfuel; [lia|].
  rewrite start_requestor_fuel_launch.
  2:{ unfold alive. simpl. rewrite Hs. by eexists. }
  2:{ simpl. unfold requestor_array. simpl. rewrite Hself, Hnext. fold count. lia. }
  simpl. rewrite Hnext.
  split; simpl; try done.
  - exists (handles (S k) success). rewrite Hs. simpl. fold count.
    rewrite (array_set_in_range k)
      by (rewrite length_insert, length_replicate; lia).
    rewrite list_insert_insert_eq, insert_replicate.
    by rewrite array_set_in_range by (rewrite length_replicate; lia).
  - lia.
  - rewrite Hnumbers.
    rewrite insert_app_r_alt by (by rewrite length_replicate).
    rewrite length_replicate, Nat.sub_diag. simpl.
    by rewrite <- replicate_S_end.
  - fold count. lia.
  - rewrite Hobserved, (take_S_r _ (S k) success) by done.
    rewrite imap_app. simpl. f_equal.
    rewrite length_take.
    apply lookup_lt_Some in Hinput.
    by replace (S k `min` length inputs + 0) with (S k) by lia.
Qed.

Lemma sequence_last (k : nat) (success error : value) (st : state) :
  sequence_at r inputs k st ->
  S k = count ->
  is_undefined success = false ->
  observed (handle env (Report k success error) st)
  = (imap Launched (take (S k) inputs) ++ [Called success VUndefined])%list.
Proof.
  intros Hat Hk Hsucc.
  destruct (sequence_live k st Hat) as [Ha Hlive].
  destruct Hat as [Hself [c Hs] Hnext Hnumbers Hcb Hpending Hobserved].
  simpl. unfold task.
  rewrite start_requestor_callback_fires by done.
  unfold action. rewrite get_then. simpl. rewrite Hself, Hfactory.
  rewrite sequence_action_eq by done. cbv zeta. simpl number_pending.
  rewrite Hpending. fold count.
  destruct (Z.ltb_spec (Z.of_nat count - Z.of_nat k - 1) 1); [|lia].
  rewrite start_requestor_stopped by (simpl; apply cancelled_dead).
  simpl. erewrite cancelled_observed by (simpl; by rewrite Hs).
  simpl. fold count.
  rewrite array_set_in_range
    by (rewrite length_insert, length_replicate; lia).
  rewrite list_insert_insert_eq, insert_replicate, cancel_calls_empty.
  rewrite app_nil_r, Hobserved. unfold delivery. simpl.
  by rewrite Hself, Hnames.
Qed.

End sequence.

(** C2.  A sequence over requestors that all succeed: the first requestor is
    launched with the initial value, each later one with the success value
    reported by the one before it, and when the last one has reported, the
    caller's callback receives its success value; these launches and this
    call are all that the run does. *)
Theorem sequence_threads_values
    (requestor_array milliseconds callback initial_value : value)
    (r : requestor) (st0 : state) (handles : nat -> value -> value)
    (successes : list value) (errors : nat -> value) :
  sequence requestor_array milliseconds = Return r ->
  invoke r callback initial_value = Return st0 ->
  length successes = length (r_requestor_array r) ->
  Forall (fun success => is_undefined success = false) successes ->
  let env : environment := fun number input => Returns (handles number input) in
  let evs :=
    Tick :: imap (fun number success => Report number success (errors number))
                 successes in
  exists last_success,
    last successes = Some last_success
    /\ observed (run_events env evs st0)
       = (imap Launched (take (length successes) (initial_value :: successes))
          ++ [Called last_success VUndefined])%list.
Proof.
  intros (Hfactory & Hnames & Hthrottle & Hcount)%sequence_returns
         Hinvoke Hlen Hdefined env evs.
  set (inputs := initial_value :: successes).
  set (report := fun number success => Report number success (errors number)).
  change (run_events env evs st0)
    with (run_events env (imap report successes) (handle env Tick st0)).
  assert (forall k, k < length successes ->
            sequence_at r inputs k
              (run_events env (imap report (take k successes))
                          (handle env Tick st0)))
    as Hprefix.
  { induction k as [|k IH]; intros Hk.
    - rewrite take_0.
      by apply (sequence_first r handles inputs callback initial_value).
    - destruct (lookup_lt_is_Some_2 successes k) as [success Hsuccess]; [lia|].
      rewrite (take_S_r _ _ _ Hsuccess), imap_app. cbn [imap].
      rewrite length_take, Nat.add_0_r, Nat.min_l by lia.
      rewrite run_events_snoc.
      apply sequence_next; try done.
      + apply IH. lia.
      + lia.
      + by eapply Forall_lookup_1 in Hdefined. }
  destruct successes as [|s0 rest _] using rev_ind; [simpl in *; lia|].
  exists s0. rewrite last_snoc. split; [done|].
  rewrite length_app in *. cbn [length] in *.
  specialize (Hprefix (length rest) ltac:(lia)).
  rewrite take_app_length in Hprefix.
  rewrite imap_app. cbn [imap]. rewrite Nat.add_0_r.
  rewrite run_events_snoc.
  replace (length rest + 1) with (S (length rest)) by lia.
  apply (sequence_last r handles inputs); try done.
  - lia.
  - apply Forall_app in Hdefined as [_ Hlast]. by inversion Hlast.
Qed.

Lemma sequence_threads_values_witness :
  exists r st0,
    sequence (VArr [VFun 1 1; VFun 2 2; VFun 2 3]) VUndefined = Return r
    /\ invoke r (VFun 2 0) (VStr "init") = Return st0
    /\ observed (run_events example_env
                   [Tick; Report 0 (VStr "a") VUndefined;
                    Report 1 (VStr "b") VUndefined;
                    Report 2 (VStr "c") VUndefined] st0)
       = [Launched 0 (VStr "init"); Launched 1 (VStr "a");
          Launched 2 (VStr "b"); Called (VStr "c") VUndefined].
Proof.
  eexists _, _. split; [vm_compute; reflexivity|].
  split; [vm_compute; reflexivity|].
  match goal with |- observed (run_events _ _ ?st0) = _ =>
    destruct (sequence_threads_values
                (VArr [VFun 1 1; VFun 2 2; VFun 2 3]) VUndefined
                (VFun 2 0) (VStr "init") (self st0) st0
                (fun number _ => VFun 1 (100 + number))
                [VStr "a"; VStr "b"; VStr "c"] (fun _ => VUndefined)
                eq_refl eq_refl eq_refl)
      as (last_success & Hlast & Hobserved)
  end.
  - by repeat constructor.
  - injection Hlast as <-. exact Hobserved.
Defined.

Lemma raise_is_a_failure_report_witness :
  exists st0,
    example_run example_race example_raising_env [] = Some st0
    /\ start_requestor example_raising_env (VStr "init") st0
       = (start_requestor example_reporting_env (VStr "init");;
          start_requestor_callback example_reporting_env 0 VUndefined
                                   (VStr "boom")) st0.
Proof.
  eexists. split; [vm_compute; reflexivity|].
  match goal with |- start_requestor _ _ ?st0 = _ =>
    apply (raise_is_a_failure_report example_raising_env example_reporting_env
             st0 (VStr "init") (VStr "boom"))
  end.
  - by apply (example_run_reachable example_race example_raising_env []).
  - by eexists.
  - vm_compute. lia.
  - reflexivity.
  - reflexivity.
  - reflexivity.
  - intros [|number] v Hne; [done|reflexivity].
Defined.

(** * Further properties *)

(** ** The factories: what they accept and what they build *)

Lemma collected_bad_requestor (requestor : value) :
  bad_requestor requestor = negb (collected requestor).
Proof.
  destruct requestor as [| | | | | |arity id| | | |]; simpl; try done.
  destruct arity as [|[|[|arity]]]; done.
Qed.

Lemma check_requestor_array_spec (requestor_array : value) (factory_name : string) :
  (check_requestor_array requestor_array factory_name = Return ()
   /\ exists elems, requestor_array = VArr elems /\ requestors elems)
  \/ (check_requestor_array requestor_array factory_name
      = Throw (make_error factory_name (Some "Bad requestors array.") requestor_array)
      /\ forall elems, requestor_array = VArr elems -> ¬ requestors elems).
Proof.
  unfold check_requestor_array, requestors.
  destruct requestor_array as [| | | | | | |elems| | |];
    try (right; split; [done|by intros ? [=]]).
  destruct (existsb bad_requestor elems) eqn:Hbad.
  - right. rewrite orb_true_r. split; [done|]. intros ? [= <-] [_ Hall].
    apply existsb_exists in Hbad as (x & Hx & Hb).
    rewrite Forall_forall in Hall. apply list_elem_of_In in Hx.
    rewrite collected_bad_requestor, (Hall x Hx) in Hb. done.
  - rewrite orb_false_r. destruct elems as [|x elems].
    + right. split; [done|]. by intros ? [= <-] [? _].
    + left. split; [done|]. eexists. split; [done|]. split; [done|].
      apply Forall_forall. intros y Hy. apply list_elem_of_In in Hy.
      destruct (collected y) eqn:Hc; [done|].
      assert (existsb bad_requestor (x :: elems) = true) as Hex.
      { apply existsb_exists. exists y. split; [done|].
        by rewrite collected_bad_requestor, Hc. }
      congruence.
Qed.


Lemma checked_requestors (elems : list value) (factory_name : string) :
  check_requestor_array (VArr elems) factory_name = Return () -> requestors elems.
Proof.
  intros Hok.
  destruct (check_requestor_array_spec (VArr elems) factory_name)
    as [[_ (elems' & [= <-] & Hr)]|[Hthrow _]]; [done|congruence].
Qed.

Lemma checked_array (requestor_array : value) (factory_name : string) :
  check_requestor_array requestor_array factory_name = Return () ->
  requestors (elements requestor_array).
Proof.
  intros Hok.
  destruct (check_requestor_array_spec requestor_array factory_name)
    as [[_ (elems & -> & Hr)]|[Hthrow _]]; [done|congruence].
Qed.

Lemma missing_length (a : option (list value)) :
  missing a = false -> 0 < length (default [] a).
Proof.
  destruct a as [elems|]; simpl; [|done].
  intros Hn%Nat.eqb_neq. lia.
Qed.

Lemma parallel_well_formed (required_array optional_array : option (list value))
    (milliseconds throttle option : value) (r : requestor) :
  parallel required_array optional_array milliseconds throttle option = Return r ->
  well_formed r /\ r_names r = None /\ r_factory r = Parallel.
Proof.
  unfold parallel, parallel_checked.
  destruct (missing required_array) eqn:Hr, (missing optional_array) eqn:Ho;
    try done.
  3: destruct (negb (is_undefined option) && negb (is_boolean option)) eqn:Hopt;
       [done|].
  all: destruct (check_requestor_array _ _) as [[]|] eqn:Hc; [|done];
    apply checked_requestors in Hc; intros [= <-];
    (split; [|done]); split; simpl; try done; eauto;
    try (by intros [[=]|[=]]); try lia.
  - apply missing_length in Hr. lia.
  - rewrite length_app. lia.
  - destruct option; simpl in *; try done; eauto.
  - apply missing_length in Hr. lia.
Qed.

Lemma parallel_object_with_names (required_object optional_object : value)
    (milliseconds throttle option : value) (r : requestor) :
  parallel_object required_object optional_object milliseconds throttle option
  = Return (RRequestor r) ->
  exists required optional parallel_requestor,
    extract_required required_object = Return required
    /\ extract_optional required_object optional_object = Return optional
    /\ parallel (Some required.*2) (Some optional.*2) milliseconds throttle option
       = Return parallel_requestor
    /\ r = with_names (required.*1 ++ optional.*1)%list parallel_requestor.
Proof.
  unfold parallel_object.
  destruct (extract_required required_object) as [required|]; [|done].
  destruct (extract_optional required_object optional_object) as [optional|];
    [|done].
  destruct (length _ =? 0); [done|].
  destruct (parallel _ _ _ _ _) as [parallel_requestor|] eqn:Hp; [|done].
  intros [= <-]. by exists required, optional, parallel_requestor.
Qed.

Lemma parallel_arrays (required optional : list value)
    (milliseconds throttle option : value) (r : requestor) :
  parallel (Some required) (Some optional) milliseconds throttle option = Return r ->
  r_requestor_array r = (required ++ optional)%list
  /\ r_number_required r = length required.
Proof.
  unfold parallel. simpl.
  destruct required as [|x required], optional as [|y optional]; simpl; try done.
  - by intros (_ & -> & ->)%parallel_checked_returns.
  - intros (_ & -> & ->)%parallel_checked_returns. by rewrite app_nil_r.
  - destruct (_ && _); [done|].
    by intros (_ & -> & ->)%parallel_checked_returns.
Qed.

Lemma made_wf (r : requestor) : made r -> well_formed r.
Proof.
  intros [requestor_array milliseconds r' Hmade
         |required_array optional_array milliseconds throttle option r' Hmade
         |required_object optional_object milliseconds throttle option r' Hmade
         |requestor_array milliseconds throttle r' Hmade
         |requestor_array milliseconds r' Hmade].
  - unfold fallback in Hmade.
    destruct (check_requestor_array _ _) as [[]|] eqn:Hc; [|done].
    apply checked_array in Hc as [Hne Hall]. injection Hmade as <-.
    split; simpl; try done; eauto; try lia.
  - by apply parallel_well_formed in Hmade as [? _].
  - apply parallel_object_with_names in Hmade
      as (required & optional & p & _ & _ & Hp & ->).
    destruct (parallel_arrays _ _ _ _ _ _ Hp) as [Harray _].
    apply parallel_well_formed in Hp as [[] [_ Hf]].
    split; simpl; try done.
    intros names [= <-]. split; [done|].
    rewrite Harray, !length_app, !length_fmap. done.
  - unfold race in Hmade.
    destruct (check_requestor_array _ _) as [[]|] eqn:Hc; [|done].
    apply checked_array in Hc as [Hne Hall]. injection Hmade as <-.
    split; simpl; try done; eauto; try lia. by intros [[=]|[=]].
  - unfold sequence in Hmade.
    destruct (check_requestor_array _ _) as [[]|] eqn:Hc; [|done].
    apply checked_array in Hc as [Hne Hall]. injection Hmade as <-.
    split; simpl; try done; eauto; try lia.
Qed.



(** ** parallel_object: its arguments *)

(** X3.  [parallel_object]: a first argument that is neither [undefined]
    nor of type "object" raises "Type mismatch." with that argument as
    evidence, whatever the second argument is; with the first argument in
    order, a second argument of another type raises "Type mismatch." with
    the second argument as evidence.  [null] has type "object" and passes
    the test: [Object.keys(null)] then raises a TypeError. *)
Theorem parallel_object_type_mismatch (required_object optional_object : value)
    (milliseconds throttle option : value) :
  (typeof required_object <> TUndefined -> typeof required_object <> TObject ->
   parallel_object required_object optional_object milliseconds throttle option
   = Throw (make_error "parallel_object" (Some "Type mismatch.") required_object))
  /\ (is_mapping required_object ->
      typeof optional_object <> TUndefined -> typeof optional_object <> TObject ->
      parallel_object required_object optional_object milliseconds throttle option
      = Throw (make_error "parallel_object" (Some "Type mismatch.") optional_object))
  /\ (required_object = VNull \/ (is_mapping required_object /\ optional_object = VNull) ->
      parallel_object required_object optional_object milliseconds throttle option
      = Throw (VTypeError "Cannot convert undefined or null to object")).
Proof.
  unfold parallel_object, extract_required, extract_optional. split_and!.
  - intros Hu Ho. by destruct required_object.
  - intros [->|[props ->]] Hu Ho; simpl; by destruct optional_object.
  - intros [->|[[->|[props ->]] ->]]; done.
Qed.

Lemma parallel_object_type_mismatch_witness :
  parallel_object (VStr "abc") VNull VUndefined VUndefined VUndefined
  = Throw (make_error "parallel_object" (Some "Type mismatch.") (VStr "abc")).
Proof.
  by apply (parallel_object_type_mismatch (VStr "abc") VNull
              VUndefined VUndefined VUndefined).
Defined.

(** ** parallel_object: the names *)

Lemma get_property_elem (props : list (string * value)) (name : string) (v : value) :
  NoDup props.*1 -> (name, v) ∈ props -> get_property props name = v.
Proof.
  induction props as [|[key w] props IH]; simpl; intros Hnd Hin.
  - by apply elem_of_nil in Hin.
  - apply NoDup_cons in Hnd as [Hkey Hnd].
    destruct (String.eqb_spec key name) as [->|Hne].
    + apply elem_of_cons in Hin as [[= ->]|Hin]; [done|].
      destruct Hkey. apply list_elem_of_fmap. by exists (name, v).
    + apply elem_of_cons in Hin as [[= -> ->]|Hin]; [done|]. by apply IH.
Qed.

Lemma harvest_required_sublist (props : list (string * value)) :
  harvest_required props `sublist_of` props.
Proof. apply sublist_filter. Qed.

Lemma harvest_optional_returns (required_object : value)
    (props optional : list (string * value)) :
  harvest_optional required_object props = Return optional ->
  optional = harvest_required props
  /\ forall name v, (name, v) ∈ optional ->
       is_undefined required_object = true
       \/ property required_object name = VUndefined.
Proof.
  revert optional. induction props as [|[name requestor] props IH];
    intros optional; simpl.
  - intros [= <-]. split; [done|]. intros ?? Hin. by apply elem_of_nil in Hin.
  - unfold harvest_required. rewrite filter_cons. simpl.
    destruct (collected requestor) eqn:Hc.
    + rewrite decide_True by done.
      destruct (negb (is_undefined required_object)
                && negb (is_undefined (property required_object name))) eqn:Hdup;
        [done|].
      destruct (harvest_optional required_object props) as [rest|]; [|done].
      intros [= <-]. destruct (IH rest eq_refl) as [-> Hrest].
      split; [done|]. intros name' v [[= -> ->]|Hin]%elem_of_cons; [|eauto].
      apply andb_false_iff in Hdup as [Hu|Hp]; [left|right].
      * by destruct (is_undefined required_object).
      * by destruct (property required_object name).
    + rewrite decide_False by done. apply IH.
Qed.

Lemma sublist_keys (l k : list (string * value)) :
  l `sublist_of` k -> NoDup k.*1 -> NoDup l.*1.
Proof. intros Hsub Hnd. eapply sublist_NoDup; [done|]. by apply fmap_sublist. Qed.

Lemma extract_required_returns (required_object : value)
    (required : list (string * value)) :
  extract_required required_object = Return required ->
  (required_object = VUndefined /\ required = [])
  \/ exists props, own_properties required_object = Return props
                   /\ required = harvest_required props.
Proof.
  unfold extract_required.
  destruct (is_undefined required_object) eqn:Hu.
  - intros [= <-]. left. by destruct required_object.
  - destruct (typeof required_object); try done.
    destruct (own_properties required_object) as [props|]; [|done].
    intros [= <-]. right. by exists props.
Qed.

Lemma extract_optional_returns (required_object optional_object : value)
    (optional : list (string * value)) :
  extract_optional required_object optional_object = Return optional ->
  ((optional_object = VUndefined /\ optional = [])
   \/ exists props, own_properties optional_object = Return props
                    /\ optional = harvest_required props)
  /\ forall name v, (name, v) ∈ optional ->
       is_undefined required_object = true
       \/ property required_object name = VUndefined.
Proof.
  unfold extract_optional.
  destruct (is_undefined optional_object) eqn:Hu.
  - intros [= <-]. split; [left; by destruct optional_object|].
    intros ?? Hin. by apply elem_of_nil in Hin.
  - destruct (typeof optional_object); try done.
    destruct (own_properties optional_object) as [props|]; [|done].
    intros [Heq Hun]%harvest_optional_returns. split; [|done].
    right. by exists props.
Qed.

Lemma harvested_keys (object : value) (harvested : list (string * value)) :
  NoDup (keys object) ->
  (object = VUndefined /\ harvested = [])
  \/ (exists props, own_properties object = Return props
                    /\ harvested = harvest_required props) ->
  NoDup harvested.*1
  /\ forall name v, (name, v) ∈ harvested ->
       property object name = v /\ collected v = true.
Proof.
  intros Hnd [[-> ->]|(props & Hprops & ->)].
  - split; [constructor|]. intros ?? Hin. by apply elem_of_nil in Hin.
  - unfold keys, property in *. rewrite Hprops in *. split.
    + eapply sublist_keys; [apply harvest_required_sublist|done].
    + intros name v [Hc Hin]%list_elem_of_filter. split; [|done].
      by apply get_property_elem.
Qed.

Lemma collected_defined (v : value) : collected v = true -> is_undefined v = false.
Proof. by destruct v. Qed.




Lemma lookup_fmap_pair (l : list (string * value)) (i : nat) (name : string) :
  l.*1 !! i = Some name -> exists v, l !! i = Some (name, v) /\ l.*2 !! i = Some v.
Proof.
  rewrite !list_lookup_fmap. destruct (l !! i) as [[key v]|]; simpl; [|done].
  intros [= ->]. by exists v.
Qed.

Lemma parallel_object_harvest (required_object optional_object : value)
    (milliseconds throttle option : value) (r : requestor) :
  NoDup (keys required_object) -> NoDup (keys optional_object) ->
  parallel_object required_object optional_object milliseconds throttle option
  = Return (RRequestor r) ->
  exists names,
    r_names r = Some names
    /\ NoDup names
    /\ length names = length (r_requestor_array r)
    /\ forall i name, names !! i = Some name ->
         exists requestor,
           r_requestor_array r !! i = Some requestor
           /\ collected requestor = true
           /\ if i <? r_number_required r
              then property required_object name = requestor
              else property optional_object name = requestor
                   /\ (required_object = VUndefined
                       \/ property required_object name = VUndefined).
Proof.
  intros Hr Ho Hmade.
  apply parallel_object_with_names in Hmade
    as (required & optional & p & Hrequired & Hoptional & Hp & ->).
  destruct (parallel_arrays _ _ _ _ _ _ Hp) as [Harray Hnumber].
  apply extract_required_returns in Hrequired.
  apply extract_optional_returns in Hoptional as [Hoptional Hfree].
  destruct (harvested_keys _ _ Hr Hrequired) as [Hnd1 Hp1].
  destruct (harvested_keys _ _ Ho Hoptional) as [Hnd2 Hp2].
  assert (forall name v, (name, v) ∈ optional ->
            required_object = VUndefined
            \/ property required_object name = VUndefined) as Hfree'.
  { intros name v Hin. destruct (Hfree name v Hin) as [Hu|?]; [left|by right].
    by destruct required_object. }
  exists (required.*1 ++ optional.*1)%list. simpl.
  rewrite Harray, Hnumber, !length_app, !length_fmap.
  split_and!; [done| |done|].
  - apply NoDup_app. split_and!; [done| |done].
    intros name [[name1 v1] [-> Hin1]]%list_elem_of_fmap
                [[name2 v2] [Heq Hin2]]%list_elem_of_fmap.
    simpl in Heq. subst name2.
    destruct (Hp1 _ _ Hin1) as [Hv1 Hc1]. apply collected_defined in Hc1.
    destruct (Hfree' _ _ Hin2) as [->|Hu].
    + destruct Hrequired as [[_ ->]|(props & [= <-] & ->)];
        by apply elem_of_nil in Hin1.
    + simpl in Hu. rewrite Hu in Hv1. by subst v1.
  - intros i name Hi.
    destruct (Nat.ltb_spec i (length required)) as [Hlt|Hge].
    + rewrite lookup_app_l in Hi by (by rewrite length_fmap).
      apply lookup_fmap_pair in Hi as (v & Hin & Hv).
      apply list_elem_of_lookup_2 in Hin. destruct (Hp1 _ _ Hin) as [? ?].
      exists v. split_and!; [|done|done].
      by rewrite lookup_app_l by (by rewrite length_fmap).
    + rewrite lookup_app_r in Hi by (by rewrite length_fmap).
      rewrite length_fmap in Hi.
      apply lookup_fmap_pair in Hi as (v & Hin & Hv).
      apply list_elem_of_lookup_2 in Hin. destruct (Hp2 _ _ Hin) as [? ?].
      exists v. split_and!; [|done|done|by eapply Hfree'].
      rewrite lookup_app_r by (by rewrite length_fmap).
      by rewrite length_fmap.
Qed.

(** X5.  The requestor that [parallel_object] returns: its names are
    pairwise distinct and as many as its requestors; requestor [i] is the
    value stored under name [i], in the required object for the first
    [number_required] names and in the optional object for the others, and
    a name taken from the optional object is not defined in the required
    object. *)
Theorem parallel_object_names (required_object optional_object : value)
    (milliseconds throttle option : value) (r : requestor) :
  NoDup (keys required_object) -> NoDup (keys optional_object) ->
  parallel_object required_object optional_object milliseconds throttle option
  = Return (RRequestor r) ->
  exists names,
    r_names r = Some names
    /\ NoDup names
    /\ length names = length (r_requestor_array r)
    /\ forall i name, names !! i = Some name ->
         exists requestor,
           r_requestor_array r !! i = Some requestor
           /\ collected requestor = true
           /\ if i <? r_number_required r
              then property required_object name = requestor
              else property optional_object name = requestor
                   /\ (required_object = VUndefined
                       \/ property required_object name = VUndefined).
Proof. apply parallel_object_harvest. Qed.

Lemma parallel_object_names_witness :
  exists r,
    parallel_object (VObj [("a", VFun 1 1); ("n", VNum 1)])
                    (VObj [("b", VFun 2 2)]) VUndefined VUndefined VUndefined
    = Return (RRequestor r)
    /\ exists names, r_names r = Some names /\ NoDup names.
Proof.
  eexists. split; [reflexivity|].
  destruct (parallel_object_names
              (VObj [("a", VFun 1 1); ("n", VNum 1)]) (VObj [("b", VFun 2 2)])
              VUndefined VUndefined VUndefined _
              ltac:(by apply (bool_decide_unpack _); vm_compute)
              ltac:(by apply (bool_decide_unpack _); vm_compute)
              eq_refl) as (names & Hnames & Hnd & _).
  exists names. by split.
Defined.





(** ** Invoking a requestor *)

Lemma safe_integer_of_nat (n : nat) :
  (Z.of_nat n <= 2 ^ 53 - 1)%Z ->
  safe_integer (VNum (inject_Z (Z.of_nat n))) = Some (Z.of_nat n).
Proof.
  intros Hn. unfold safe_integer.
  assert (Qred (inject_Z (Z.of_nat n)) = inject_Z (Z.of_nat n)) as ->.
  { unfold Qred, inject_Z.
    pose proof (Z.ggcd_gcd (Z.of_nat n) 1) as Hg.
    pose proof (Z.ggcd_correct_divisors (Z.of_nat n) 1) as Hd.
    destruct (Z.ggcd (Z.of_nat n) 1) as [g [a b]]. simpl in *.
    rewrite Z.gcd_1_r in Hg. subst g. destruct Hd as [Ha Hb].
    assert (a = Z.of_nat n) as -> by lia. by assert (b = 1%Z) as -> by lia. }
  simpl.
  destruct (Z.leb_spec (Z.abs (Z.of_nat n)) (2 ^ 53 - 1)); [done|lia].
Qed.

Lemma throttle_cases (r : requestor) :
  well_formed r ->
  (Z.of_nat (length (r_requestor_array r)) <= 2 ^ 53 - 1)%Z ->
  (throttle_ok (r_throttle r) = true
   /\ exists t, safe_integer (effective_throttle r) = Some t /\ (t <? 1)%Z = false)
  \/ (throttle_ok (r_throttle r) = false
      /\ effective_throttle r = r_throttle r
      /\ (safe_integer (r_throttle r) = None
          \/ exists t, safe_integer (r_throttle r) = Some t /\ (t <? 1)%Z = true)).
Proof.
  intros Hwf Hlen. unfold throttle_ok, effective_throttle.
  destruct (is_undefined (r_throttle r)) eqn:Hu.
  - left. split; [done|]. rewrite safe_integer_of_nat by done.
    eexists. split; [done|].
    destruct Hwf as [[Hne _] _ _ _ _ _].
    destruct (r_requestor_array r); [done|]. simpl length.
    apply Z.ltb_ge. lia.
  - destruct (safe_integer (r_throttle r)) as [t|]; [|right; auto].
    destruct (Z.leb_spec 1 t); [left|right]; split; try done.
    + exists t. split; [done|]. apply Z.ltb_ge. lia.
    + split; [done|]. right. exists t. split; [done|]. apply Z.ltb_lt. lia.
Qed.

Lemma milliseconds_cases (factory_name : string) (milliseconds : value) :
  (milliseconds_ok milliseconds = true
   /\ exists timer, milliseconds_check factory_name milliseconds = Return timer)
  \/ (milliseconds_ok milliseconds = false
      /\ milliseconds_check factory_name milliseconds
         = Throw (make_error factory_name (Some "Bad milliseconds.") milliseconds)).
Proof.
  unfold milliseconds_ok, milliseconds_check.
  destruct milliseconds as [| | |q| | | | | | |]; eauto.
  destruct (Qle_bool 0 q); eauto.
Qed.

Lemma run_cases (r : requestor) (callback initial_value : value) :
  well_formed r ->
  (Z.of_nat (length (r_requestor_array r)) <= 2 ^ 53 - 1)%Z ->
  if throttle_ok (r_throttle r)
  then if milliseconds_ok (r_milliseconds r)
       then exists st0, run r callback initial_value = Return st0
       else run r callback initial_value
            = Throw (make_error (factory_string (r_factory r))
                                (Some "Bad milliseconds.") (r_milliseconds r))
  else run r callback initial_value
       = Throw (make_error (factory_string (r_factory r))
                           (Some "Bad throttle.") (r_throttle r)).
Proof.
  intros Hwf Hlen. unfold run. fold (effective_throttle r).
  destruct (throttle_cases r Hwf Hlen)
    as [[-> (t & -> & ->)]|[-> [-> Hbad]]].
  - destruct (milliseconds_cases (factory_string (r_factory r)) (r_milliseconds r))
      as [[-> [timer ->]]|[-> ->]]; eauto.
  - destruct Hbad as [->|(t & -> & ->)]; done.
Qed.

(** X7.  Invoking a requestor made by a factory throws, in this order of
    precedence: "Not a callback." when the callback is not a function of two
    parameters (under the name of the factory, "parallel_object" included);
    "Bad throttle." when the throttle is not a safe integer of at least 1;
    "Bad milliseconds." when the time limit is given and is not a number of
    at least 0.  Otherwise it returns.  When no throttle is given, and for
    [fallback] and [sequence], the throttle is never at fault. *)
Theorem invoke_outcome (r : requestor) (callback initial_value : value) :
  made r ->
  (Z.of_nat (length (r_requestor_array r)) <= 2 ^ 53 - 1)%Z ->
  (is_callback callback = false ->
   invoke r callback initial_value
   = Throw (make_error (requestor_name r) (Some "Not a callback.") callback))
  /\ (is_callback callback = true -> throttle_ok (r_throttle r) = false ->
      invoke r callback initial_value
      = Throw (make_error (factory_string (r_factory r))
                          (Some "Bad throttle.") (r_throttle r)))
  /\ (is_callback callback = true -> throttle_ok (r_throttle r) = true ->
      milliseconds_ok (r_milliseconds r) = false ->
      invoke r callback initial_value
      = Throw (make_error (factory_string (r_factory r))
                          (Some "Bad milliseconds.") (r_milliseconds r)))
  /\ (is_callback callback = true -> throttle_ok (r_throttle r) = true ->
      milliseconds_ok (r_milliseconds r) = true ->
      exists st0, invoke r callback initial_value = Return st0)
  /\ (r_factory r = Fallback \/ r_factory r = Sequence ->
      throttle_ok (r_throttle r) = true).
Proof.
  intros Hwf%made_wf Hlen.
  pose proof (run_cases r callback initial_value Hwf Hlen) as Hrun.
  unfold invoke, check_callback. fold (requestor_name r).
  split_and!.
  - by intros ->.
  - intros -> Ht. by rewrite Ht in Hrun.
  - intros -> Ht Hm. by rewrite Ht, Hm in Hrun.
  - intros -> Ht Hm. by rewrite Ht, Hm in Hrun.
  - intros Hf. by rewrite (wf_one_at_a_time _ Hwf Hf).
Qed.

Lemma invoke_outcome_witness :
  exists r,
    sequence (VArr [VFun 1 1; VFun 2 2]) (VNum (-1)) = Return r
    /\ invoke r (VFun 2 0) (VStr "init")
       = Throw (make_error "sequence" (Some "Bad milliseconds.") (VNum (-1))).
Proof.
  eexists. split; [reflexivity|].
  match goal with |- invoke ?r _ _ = _ =>
    apply (invoke_outcome r (VFun 2 0) (VStr "init"))
  end.
  - by apply (made_sequence (VArr [VFun 1 1; VFun 2 2]) (VNum (-1))).
  - vm_compute. discriminate.
  - reflexivity.
  - reflexivity.
  - reflexivity.
Defined.

(** ** What the action and timeout functions do, case by case *)

Lemma cancelled_timer_id (reason : value) (st : state) :
  timer_id (cancelled reason st) = false.
Proof.
  unfold cancelled. destruct (timer_id st) eqn:Ht; simpl;
    destruct (cancel_array st); simpl; done.
Qed.

Lemma cancelled_stopped (reason : value) (st : state) :
  cancel_array st = None -> timer_id st = false -> cancelled reason st = st.
Proof. intros Hdead Ht. unfold cancelled. by rewrite Ht, Hdead. Qed.

Lemma finished_cancelled (reason reason' success error : value) (st : state) :
  cancelled reason' (finished reason success error st)
  = finished reason success error st.
Proof.
  apply cancelled_stopped; [apply finished_dead|].
  unfold finished. simpl. apply cancelled_timer_id.
Qed.

Lemma call_cleared (success error : value) (st : state) :
  callback st = VUndefined ->
  call_callback success error st = (Throw not_a_function, st).
Proof. intros Hcb. unfold call_callback. rewrite get_then, Hcb. done. Qed.

(** After the run has ended, a second [cancel]/[callback] pair calls the
    cleared variable. *)
Lemma finish_again (reason reason' success success' error error' : value)
    (st : state) :
  (cancel reason';; call_callback success' error';;
   modify (set_callback VUndefined)) (finished reason success error st)
  = (Throw not_a_function, finished reason success error st).
Proof.
  rewrite cancel_then, finished_cancelled, bind_eq.
  by rewrite call_cleared.
Qed.

Lemma fallback_action_eq (success error : value) (number : nat) (st : state) :
  is_function (callback st) = true ->
  fallback_action success error number st
  = let st1 := set_number_pending (number_pending st - 1) st in
    if is_undefined success
    then (Return (),
          if (number_pending st1 <? 1)%Z
          then finished error VUndefined error st1 else st1)
    else (if (number_pending st1 <? 1)%Z
          then Throw not_a_function else Return (),
          finished VUndefined success VUndefined st1).
Proof.
  intros Hcb. unfold fallback_action. rewrite modify_then. cbv zeta.
  set (st1 := set_number_pending (number_pending st - 1) st).
  rewrite bind_eq. destruct (is_undefined success); simpl negb; unfold when.
  - unfold ret at 1. rewrite get_then.
    destruct (number_pending st1 <? 1)%Z; [|done].
    by rewrite finish_eq.
  - rewrite finish_eq by done. rewrite get_then.
    change (number_pending (finished VUndefined success VUndefined st1))
      with (number_pending (cancelled VUndefined st1)).
    destruct (cancelled_counters_kept VUndefined st1) as (_ & -> & _).
    destruct (number_pending st1 <? 1)%Z; [|done].
    by rewrite finish_again.
Qed.

Lemma race_action_eq (success error : value) (number : nat) (st : state) :
  is_function (callback st) = true ->
  race_action success error number st
  = let st1 := set_number_pending (number_pending st - 1) st in
    if is_undefined success
    then (Return (),
          if (number_pending st1 <? 1)%Z
          then finished error VUndefined error st1 else st1)
    else (if (number_pending st1 <? 1)%Z
          then Throw not_a_function else Return (),
          finished (make_error "race" (Some "Loser.")
                               (VNum (inject_Z (Z.of_nat number))))
                   success VUndefined st1).
Proof.
  intros Hcb. unfold race_action. rewrite modify_then. cbv zeta.
  set (st1 := set_number_pending (number_pending st - 1) st).
  rewrite bind_eq. destruct (is_undefined success); simpl negb; unfold when.
  - unfold ret at 1. rewrite get_then.
    destruct (number_pending st1 <? 1)%Z; [|done].
    by rewrite finish_eq.
  - rewrite finish_eq by done. rewrite get_then.
    match goal with |- context [number_pending (finished ?r ?s ?e st1)] =>
      change (number_pending (finished r s e st1))
        with (number_pending (cancelled r st1));
      destruct (cancelled_counters_kept r st1) as (_ & -> & _)
    end.
    destruct (number_pending st1 <? 1)%Z; [|done].
    by rewrite finish_again.
Qed.

Lemma sequence_action_failure_eq (error : value) (number : nat) (st : state) :
  is_function (callback st) = true ->
  sequence_action VUndefined error number st
  = let st1 := set_number_pending (number_pending st - 1) st in
    (if (number_pending st1 <? 1)%Z then Throw not_a_function else Return (),
     finished error VUndefined error st1).
Proof.
  intros Hcb. unfold sequence_action. rewrite get_then.
  assert (is_undefined (callback st) = false) as ->
    by (by destruct (callback st)).
  simpl negb. unfold when at 1. rewrite modify_then. cbv zeta.
  set (st1 := set_number_pending (number_pending st - 1) st).
  rewrite bind_eq. simpl is_undefined. unfold when.
  rewrite finish_eq by done. rewrite get_then.
  change (number_pending (finished error VUndefined error st1))
    with (number_pending (cancelled error st1)).
  destruct (cancelled_counters_kept error st1) as (_ & -> & _).
  destruct (number_pending st1 <? 1)%Z; [|done].
  by rewrite finish_again.
Qed.

Lemma parallel_timeout_eq (st : state) :
  is_function (callback st) = true ->
  parallel_timeout st
  = (Return (),
     let reason := make_error "parallel" (Some "Timeout.") (milliseconds st) in
     if is_false (option_ st)
     then if (number_pending_required_array st <? 1)%Z
          then observe [delivery st (VArr (results st)) VUndefined]
                 (cancelled reason (set_option VUndefined st))
          else set_option VUndefined st
     else if (number_pending_required_array st <? 1)%Z
          then finished reason (VArr (results st)) VUndefined st
          else finished reason VUndefined reason st).
Proof.
  intros Hcb. unfold parallel_timeout. rewrite get_then. cbv zeta.
  destruct (is_false (option_ st)).
  - rewrite modify_then. unfold when.
    destruct (number_pending_required_array st <? 1)%Z; [|done].
    rewrite cancel_then, get_then.
    rewrite call_callback_eq by (by rewrite cancelled_callback).
    unfold delivery. rewrite cancelled_self.
    by destruct (cancelled_counters_kept
                   (make_error "parallel" (Some "Timeout.") (milliseconds st))
                   (set_option VUndefined st)) as [-> _].
  - rewrite cancel_then, get_then.
    change (number_pending_required_array (cancelled ?r st))
      with (number_pending_required_array (cancelled r st)).
    destruct (cancelled_counters_kept
                (make_error "parallel" (Some "Timeout.") (milliseconds st)) st)
      as (Hres & _ & ->).
    rewrite Hres.
    destruct (number_pending_required_array st <? 1)%Z; rewrite bind_eq;
      rewrite call_callback_eq by (by rewrite cancelled_callback);
      cbv beta iota; unfold modify, finished, delivery;
      by rewrite cancelled_self.
Qed.

Lemma timeout_eq (st : state) :
  is_function (callback st) = true ->
  timeout st
  = match r_factory (self st) with
    | Parallel => parallel_timeout st
    | _ =>
        let error :=
          make_error (factory_name st) (Some "Timeout.") (milliseconds st) in
        (Return (), finished error VUndefined error st)
    end.
Proof.
  intros Hcb. unfold timeout, factory_name. rewrite get_then.
  destruct (r_factory (self st)); try done.
  - unfold fallback_timeout. rewrite get_then. by rewrite finish_eq.
  - unfold race_timeout. rewrite get_then. by rewrite finish_eq.
  - unfold sequence_timeout. rewrite get_then. by rewrite finish_eq.
Qed.

Lemma recorded_refl (st : state) : recorded st st.
Proof. by split. Qed.

Lemma closed_finished (st st1 : state) (reason success error : value)
    (res : result unit) :
  recorded st st1 ->
  res = Return ()
  \/ (res = Throw not_a_function /\ r_factory (self st) <> Parallel) ->
  closed st res (finished reason success error st1).
Proof.
  intros Hrec Hres. unfold finished.
  replace (delivery st1 success error) with (delivery st success error).
  - by apply closed_off.
  - unfold delivery. by rewrite (frame_self _ _ (recorded_frame _ _ Hrec)).
Qed.

Ltac recorded_tac :=
  split; [split|..]; simpl; auto; try reflexivity.

Lemma set_number_pending_recorded (x : Z) (st : state) :
  recorded st (set_number_pending x st).
Proof. recorded_tac. Qed.

Lemma parallel_recorded_recorded (number : nat) (success : value) (st : state) :
  recorded st (parallel_recorded number success st).
Proof.
  unfold parallel_recorded. destruct (number <? number_required st); recorded_tac.
Qed.

Lemma action_closed (success error : value) (number : nat) (st : state) :
  is_function (callback st) = true ->
  closed st (action success error number st).1 (action success error number st).2.
Proof.
  intros Hcb. unfold action. rewrite get_then.
  destruct (r_factory (self st)) eqn:Hf.
  - rewrite fallback_action_eq by done. cbv zeta.
    pose proof (set_number_pending_recorded (number_pending st - 1) st) as Hrec.
    destruct (is_undefined success); simpl.
    + destruct (_ <? _)%Z; [apply closed_finished; auto|by apply closed_on].
    + apply closed_finished; [done|]. destruct (_ <? _)%Z; [right|left]; [|done].
      split; [done|]. by rewrite Hf.
  - rewrite parallel_action_eq by done. cbv zeta.
    pose proof (parallel_recorded_recorded number success st) as Hrec. simpl.
    destruct (_ && _); [apply closed_finished; auto|].
    destruct (_ || _); [apply closed_finished; auto|by apply closed_on].
  - rewrite race_action_eq by done. cbv zeta.
    pose proof (set_number_pending_recorded (number_pending st - 1) st) as Hrec.
    destruct (is_undefined success); simpl.
    + destruct (_ <? _)%Z; [apply closed_finished; auto|by apply closed_on].
    + apply closed_finished; [done|]. destruct (_ <? _)%Z; [right|left]; [|done].
      split; [done|]. by rewrite Hf.
  - pose proof (set_number_pending_recorded (number_pending st - 1) st) as Hrec.
    destruct (is_undefined success) eqn:Hsucc.
    + assert (success = VUndefined) as -> by (by destruct success).
      rewrite sequence_action_failure_eq by done. cbv zeta. simpl.
      apply closed_finished; [done|]. destruct (_ <? _)%Z; [right|left]; [|done].
      split; [done|]. by rewrite Hf.
    + rewrite sequence_action_eq by done. cbv zeta. simpl.
      destruct (_ <? _)%Z; [apply closed_finished; auto|by apply closed_on].
Qed.

Lemma timeout_closed (st : state) :
  is_function (callback st) = true ->
  closed st (timeout st).1 (timeout st).2.
Proof.
  intros Hcb. rewrite timeout_eq by done.
  destruct (r_factory (self st)) eqn:Hf; cbv zeta; simpl;
    try (apply closed_finished; [apply recorded_refl|by left]).
  rewrite parallel_timeout_eq by done. cbv zeta. simpl.
  assert (recorded st (set_option VUndefined st)) as Hrec.
  { recorded_tac. }
  destruct (is_false (option_ st)).
  - destruct (_ <? _)%Z; [|by apply closed_on].
    match goal with |- closed _ _ (observe ?os (cancelled ?r ?s)) =>
      change (observe os (cancelled r s))
        with (set_callback (callback (cancelled r s)) (observe os (cancelled r s)))
    end.
    by apply closed_off; [|left].
  - destruct (_ <? _)%Z; apply closed_finished; auto using recorded_refl.
Qed.

(** ** The log of a run *)

Lemma launches_app (os1 os2 : list observation) :
  launches (os1 ++ os2) = (launches os1 ++ launches os2)%list.
Proof. apply omap_app. Qed.

Lemma cancellations_app (os1 os2 : list observation) :
  cancellations (os1 ++ os2) = (cancellations os1 ++ cancellations os2)%list.
Proof. apply omap_app. Qed.

Lemma calls_app (os1 os2 : list observation) :
  calls (os1 ++ os2) = (calls os1 ++ calls os2)%list.
Proof. apply filter_app. Qed.

Lemma only_launches (os : list observation) :
  Forall (fun o => is_Some (launch_number o)) os ->
  calls os = [] /\ cancellations os = []
  /\ (forall j c reason, Cancelled j c reason ∉ os)
  /\ (forall e, Uncaught e ∉ os)
  /\ (forall success error, Called success error ∉ os).
Proof.
  induction 1 as [|o os Ho _ (IH1 & IH2 & IH3 & IH4 & IH5)].
  - split_and!; try done; intros; apply not_elem_of_nil.
  - destruct o as [number input| | |]; try (by destruct Ho as [? [=]]).
    unfold calls, cancellations in *. rewrite filter_cons_False by done. simpl.
    split_and!; try done; intros; apply not_elem_of_cons; split; auto; done.
Qed.

Lemma cancel_calls_from (reason : value) (slots : list value) (k : nat) :
  omap cancel_number
    (omap (fun slot => slot)
       (imap (fun number cancel =>
                if is_function cancel
                then Some (Cancelled (k + number) cancel reason)
                else None)
             slots))
  `sublist_of` seq k (length slots).
Proof.
  revert k. induction slots as [|c slots IH]; intros k; simpl; [done|].
  erewrite imap_ext; [|intros i x _; simpl; by rewrite Nat.add_succ_r].
  specialize (IH (S k)). simpl in IH.
  destruct (is_function c); simpl.
  - rewrite Nat.add_0_r. by apply sublist_skip.
  - by apply sublist_cons.
Qed.

Lemma cancel_calls_log (reason : value) (slots : list value) :
  launches (cancel_calls reason slots) = []
  /\ calls (cancel_calls reason slots) = []
  /\ NoDup (cancellations (cancel_calls reason slots))
  /\ (forall e, Uncaught e ∉ cancel_calls reason slots)
  /\ (forall j input, Launched j input ∉ cancel_calls reason slots)
  /\ (forall success error, Called success error ∉ cancel_calls reason slots).
Proof.
  split_and!.
  - unfold launches, cancel_calls.
    assert (forall f : nat -> nat,
              omap launch_number
                (omap (fun slot => slot)
                   (imap (fun number cancel =>
                            if is_function cancel
                            then Some (Cancelled (f number) cancel reason)
                            else None) slots)) = []) as H.
    { induction slots as [|c slots IH]; intros f; simpl; [done|].
      destruct (is_function c); simpl; apply (IH (f ∘ S)). }
    apply (H id).
  - unfold calls, cancel_calls.
    assert (forall f : nat -> nat,
              filter (fun o => is_call o = true)
                (omap (fun slot => slot)
                   (imap (fun number cancel =>
                            if is_function cancel
                            then Some (Cancelled (f number) cancel reason)
                            else None) slots)) = []) as H.
    { induction slots as [|c slots IH]; intros f; simpl; [done|].
      destruct (is_function c); simpl; [rewrite filter_cons; simpl|];
        apply (IH (f ∘ S)). }
    apply (H id).
  - eapply sublist_NoDup; [apply (NoDup_seq 0 (length slots))|].
    apply (cancel_calls_from reason slots 0).
  - intros e (j & c & [=] & _)%cancel_calls_elem.
  - intros j input (j' & c & [=] & _)%cancel_calls_elem.
  - intros s e (j & c & [=] & _)%cancel_calls_elem.
Qed.

Lemma delivery_is_call (st : state) (success error : value) :
  exists success' error', delivery st success error = Called success' error'.
Proof.
  unfold delivery, parallel_object_callback.
  destruct (r_names (self st)); [destruct (is_undefined success)|]; eauto.
Qed.

Lemma cancelled_timer_running (reason : value) (st : state) :
  (timer_running st = true -> timer_id st = true) ->
  timer_running (cancelled reason st) = false.
Proof.
  intros Harmed. unfold cancelled.
  destruct (timer_id st) eqn:Ht; simpl; destruct (cancel_array st); simpl;
    try done; destruct (timer_running st); try done; by specialize (Harmed eq_refl).
Qed.

Lemma cancelled_numbers (reason : value) (st : state) :
  numbers (cancelled reason st) = numbers st.
Proof. apply cancelled_core_frame. Qed.

Lemma cancelled_next_number (reason : value) (st : state) :
  next_number (cancelled reason st) = next_number st.
Proof. apply cancelled_core_frame. Qed.

Lemma cancelled_initial_value (reason : value) (st : state) :
  initial_value (cancelled reason st) = initial_value st.
Proof. apply cancelled_core_frame. Qed.

Lemma is_live_clear (st : state) (number j : nat) :
  j <> number -> is_live (clear_number number st) j = is_live st j.
Proof.
  intros Hne. unfold is_live, clear_number. simpl.
  by rewrite list_lookup_insert_ne.
Qed.

(** An action or timeout function keeps the log in order; so does the
    clearing of the number of a requestor whose slot holds no function. *)
Lemma closed_trace (env : environment) (st st' : state) (res : result unit)
    (slots : list value) (cleared : option nat) :
  trace_inv env st -> cancel_array st = Some slots -> held env st slots ->
  (forall number c, cleared = Some number -> slots !! number = Some c ->
                    is_function c = false) ->
  closed st res st' ->
  let st'' := match cleared with
              | Some number => clear_number number st'
              | None => st'
              end in
  traced env res st''
  /\ (alive st'' -> res = Return () /\ recorded st st')
  /\ self st'' = self st /\ initial_value st'' = initial_value st.
Proof.
  intros Htrace Hs Hheld Hcleared Hclosed. cbv zeta.
  destruct Htrace as [Hl Hr Hc Hn Ha Hcd Hre Hi Hu].
  specialize (Hr ltac:(by eexists)).
  destruct (only_launches _ Hr) as (Hcalls & Hcanc & Hnoc & Hnou & Hnocall).
  destruct Hclosed as [st1 Hrec|st1 reason success error res cb Hrec Hres];
    pose proof Hrec as [[Fself Finit Fnext Fnum _ _ _ _ _] Hca Hti Htr Hcb Hob].
  - assert (trace_inv env st1 /\ self st1 = self st
            /\ initial_value st1 = initial_value st) as (Ht1 & Hself & Hinit).
    { split; [|done]. split; rewrite ?Hob, ?Fnext, ?Fself, ?Finit; try done.
      - unfold armed in *. by rewrite Hca, Hti, Htr.
      - intros j c reason Hin. by destruct (Hnoc j c reason). }
    destruct cleared as [number|]; [|by split_and!].
    split_and!; try done.
    split; [|done]. destruct Ht1. split; try done.
    intros j c reason Hin. simpl in Hin. rewrite Hob in Hin.
    by destruct (Hnoc j c reason).
  - set (st2 := cancelled reason st1).
    assert (cancel_array st1 = Some slots) as Hs1 by congruence.
    destruct (delivery_is_call st success error) as (s' & e' & Hd).
    destruct (cancel_calls_log (cancel_reason st1 reason) slots)
      as (Hcl & Hcc & Hcn & Hcu & Hcla & Hcca).
    assert (observed st2
            = (observed st ++ cancel_calls (cancel_reason st1 reason) slots)%list)
      as Hob2.
    { unfold st2. rewrite (cancelled_observed _ _ slots) by done. by rewrite Hob. }
    set (st3 := set_callback cb (observe [delivery st success error] st2)).
    assert (observed st3
            = (observed st ++ cancel_calls (cancel_reason st1 reason) slots
                 ++ [Called s' e'])%list) as Hob3.
    { simpl. by rewrite Hob2, Hd, <- app_assoc. }
    assert (numbers st3 = numbers st
            /\ next_number st3 = next_number st
            /\ self st3 = self st
            /\ initial_value st3 = initial_value st
            /\ cancel_array st3 = None
            /\ timer_id st3 = false
            /\ timer_running st3 = false)
      as (Hnum & Hnext & Hself & Hinit & Hdead & Htid & Htrun).
    { simpl. unfold st2.
      rewrite cancelled_numbers, cancelled_next_number, cancelled_self,
        cancelled_initial_value, cancelled_dead, cancelled_timer_id.
      rewrite cancelled_timer_running.
      - split_and!; try done.
      - unfold armed in Ha. rewrite Hs in Ha. by rewrite Hti, Htr. }
    assert (forall j c r, Cancelled j c r ∈ observed st3 ->
              r = cancel_reason st1 reason /\ slots !! j = Some c
              /\ is_function c = true) as Hcancelled.
    { intros j c r. rewrite Hob3, !elem_of_app.
      intros [Hin|[Hin|Hin]].
      - by destruct (Hnoc j c r).
      - apply cancel_calls_elem in Hin as (j' & c' & [= -> -> ->] & Hslot & Hfun).
        done.
      - by apply list_elem_of_singleton in Hin. }
    assert (trace_inv env st3) as Ht3.
    { split; rewrite ?Hnext, ?Hself, ?Hinit.
      - rewrite Hob3, !launches_app, Hcl, Hl. simpl. by rewrite app_nil_r.
      - intros [? Halive]. congruence.
      - rewrite Hob3, !calls_app, Hcalls, Hcc. simpl. done.
      - rewrite Hob3, !cancellations_app, Hcanc. simpl. by rewrite app_nil_r.
      - unfold armed. by rewrite Hdead.
      - intros j c r Hin. destruct (Hcancelled j c r Hin) as (-> & Hslot & Hfun).
        destruct (Hheld j c Hslot Hfun) as (Hlive & input & Hin' & Henv).
        split_and!; [done|unfold is_live in *; by rewrite Hnum|].
        exists input. split; [|done]. rewrite Hob3. apply elem_of_app. by left.
      - intros j c r j' c' r' Hin Hin'.
        destruct (Hcancelled j c r Hin) as (-> & _).
        by destruct (Hcancelled j' c' r' Hin') as (-> & _).
      - intros Hf j input. rewrite Hob3, !elem_of_app.
        intros [Hin|[Hin|Hin]]; [by apply (Hi Hf j)|by apply Hcla in Hin|].
        by apply list_elem_of_singleton in Hin.
      - intros e. rewrite Hob3, !elem_of_app.
        intros [Hin|[Hin|Hin]]; [by apply Hnou in Hin|by apply Hcu in Hin|].
        by apply list_elem_of_singleton in Hin. }
    assert (forall e, res = Throw e ->
              e = not_a_function /\ r_factory (self st) <> Parallel
              /\ exists success error, Called success error ∈ observed st3)
      as Hthrow.
    { intros e ->. destruct Hres as [[=]|[[= <-] Hf]]. split_and!; [done..|].
      exists s', e'. rewrite Hob3, !elem_of_app. right. right.
      by apply list_elem_of_singleton. }
    assert (forall e, res = Throw e ->
              e = not_a_function /\ r_factory (self st3) <> Parallel
              /\ exists success error, Called success error ∈ observed st3)
      as Hthrow3.
    { intros e He. rewrite Hself. by apply Hthrow. }
    fold st2 st3. destruct cleared as [number|].
    + assert (trace_inv env (clear_number number st3)) as Ht4.
      { destruct Ht3. split; try done.
        - intros j c r Hin.
          destruct (trace_cancelled0 j c r Hin) as (Hfun & Hlive & Hex).
          split_and!; [done| |done].
          rewrite is_live_clear; [done|]. intros ->.
          destruct (Hcancelled number c r Hin) as (_ & Hslot & _).
          by rewrite (Hcleared number c eq_refl Hslot) in Hfun. }
      split_and!; [by split|..|exact Hself|exact Hinit].
      intros [? Halive]. change (cancel_array st3 = Some x) in Halive.
      congruence.
    + split_and!; [by split|..|exact Hself|exact Hinit].
      intros [? Halive]. congruence.
Qed.

Lemma held_slots (env : environment) (st : state) (slots : list value) :
  run_inv st -> returned_inv env st -> cancel_array st = Some slots ->
  held env st slots.
Proof.
  intros Hinv Hret Hs j c Hc Hfun.
  destruct (inv_slots _ Hinv slots Hs) as [_ Hempty].
  destruct (numbers st !! j) as [[x|]|] eqn:Hj.
  - split; [unfold is_live; by rewrite Hj|].
    destruct (Hret slots j x Hs Hj) as (input & c' & Hin & Henv & Hc').
    exists input. split; [done|]. congruence.
  - rewrite Hempty in Hc; [by simplify_eq|by right|by eapply lookup_lt_Some].
  - rewrite Hempty in Hc; [by simplify_eq|by left|by eapply lookup_lt_Some].
Qed.

Lemma launched_trace (env : environment) (input : value) (st : state) :
  trace_inv env st -> alive st ->
  (r_factory (self st) <> Sequence -> input = initial_value st) ->
  trace_inv env (launched (next_number st) input st).
Proof.
  intros [Hl Hr Hc Hn Ha Hcd Hre Hi Hu] Halive Hinput.
  specialize (Hr Halive).
  destruct (only_launches _ Hr) as (Hcalls & Hcanc & Hnoc & Hnou & Hnocall).
  split; simpl.
  - rewrite launches_app, Hl. simpl. by rewrite Nat.add_1_r, seq_S.
  - intros _. apply Forall_app. split; [done|]. by repeat constructor.
  - rewrite calls_app, Hcalls. simpl. lia.
  - rewrite cancellations_app, Hcanc. simpl. constructor.
  - exact Ha.
  - intros j c reason [Hin|Hin]%elem_of_app; [by apply Hnoc in Hin|].
    by apply list_elem_of_singleton in Hin.
  - intros j c reason j' c' reason' [Hin|Hin]%elem_of_app;
      [by apply Hnoc in Hin|]. by apply list_elem_of_singleton in Hin.
  - intros Hf j v [Hin|Hin]%elem_of_app; [by apply (Hi Hf j)|].
    apply list_elem_of_singleton in Hin. injection Hin as -> ->. by apply Hinput.
  - intros e [Hin|Hin]%elem_of_app; [by apply Hnou in Hin|].
    by apply list_elem_of_singleton in Hin.
Qed.

Lemma set_slot_trace (env : environment) (number x : nat) (v : value) (st : state) :
  trace_inv env st -> alive st -> trace_inv env (set_slot number v st).
Proof.
  intros [Hl Hr Hc Hn Ha Hcd Hre Hi Hu] [slots Hs]. split; simpl; try done.
  - intros _. apply Hr. by eexists.
  - unfold armed in *. simpl. rewrite Hs in *. done.
Qed.

Lemma set_deferred_trace (env : environment) (n : nat) (st : state) :
  trace_inv env st -> trace_inv env (set_deferred n st).
Proof. intros []. by split. Qed.

Lemma set_deferred_returned (env : environment) (n : nat) (st : state) :
  returned_inv env st -> returned_inv env (set_deferred n st).
Proof. intros Hret slots j x Hs Hj. by apply (Hret slots j x). Qed.

Lemma traced_return (env : environment) (st : state) :
  trace_inv env st -> traced env (Return ()) st.
Proof. by split. Qed.

Lemma start_requestor_fuel_trace (fuel : nat) (env : environment)
    (input : value) (st : state) :
  run_inv st -> returned_inv env st -> trace_inv env st ->
  (r_factory (self st) <> Sequence -> input = initial_value st) ->
  traced env (start_requestor_fuel fuel env input st).1
             (start_requestor_fuel fuel env input st).2.
Proof.
  revert st. induction fuel as [|fuel IH]; intros st Hinv Hret Htrace Hinput.
  all: destruct (decide (alive st /\ next_number st < length (requestor_array st)))
         as [[Ha Hn]|Hstop];
    [|rewrite start_requestor_fuel_stopped by done; by apply traced_return].
  { simpl. rewrite get_then. rewrite bool_decide_eq_true_2 by done.
    apply Nat.ltb_lt in Hn as ->. by apply traced_return. }
  rewrite start_requestor_fuel_launch by done.
  pose proof (launched_inv input st Hinv Hn) as Hinv1.
  pose proof (launched_live input st Hinv) as Hlive1.
  pose proof (launched_trace env input st Htrace Ha Hinput) as Htrace1.
  pose proof (inv_numbers _ Hinv) as Hlen.
  destruct Ha as [slots Hs].
  destruct (inv_slots _ Hinv slots Hs) as [Hslots_len _].
  pose proof (launched_slot st slots Hinv Hn Hs) as Hslot.
  destruct (env (next_number st) input) as [exception|cancel] eqn:Henv.
  - set (st1 := launched (next_number st) input st) in *.
    assert (cancel_array st1 = Some slots) as Hs1 by done.
    assert (held env st1 slots) as Hheld.
    { intros j c Hc Hfun.
      destruct (held_slots env st slots Hinv Hret Hs j c Hc Hfun)
        as (Hlive & v & Hin & Hv).
      split.
      - unfold is_live in *. simpl.
        destruct (numbers st !! j) as [[x|]|] eqn:Hj; try done.
        by rewrite (lookup_app_l_Some _ _ _ _ Hj).
      - exists v. split; [|done]. simpl. apply elem_of_app. by left. }
    pose proof (completion_inv VUndefined exception (next_number st) _ st1
                  Hinv1 ltac:(by exists slots) Hlive1) as Hdone.
    pose proof (action_frame VUndefined exception (next_number st) st1)
      as [Hframe _].
    pose proof (action_closed VUndefined exception (next_number st) st1
                  (inv_callback _ Hinv1 ltac:(by exists slots))) as Hclosed.
    rewrite bind_eq.
    destruct (action VUndefined exception (next_number st) st1)
      as [[[]|e] st2]; simpl in Hframe, Hclosed.
    + rewrite modify_then.
      destruct (closed_trace env st1 st2 (Return ()) slots
                  (Some (next_number st)) Htrace1 Hs1 Hheld
                  ltac:(intros n c [= <-] Hc; by simplify_eq) Hclosed)
        as ([Htrace3 _] & _ & Hself & Hinit).
      apply IH; try done.
      * apply Hdone. intros slots1 Hslots1. by eapply launched_slot.
      * eapply (completion_returned env (next_number st) st st1 st2);
          try done.
        -- simpl. by apply prefix_app_r.
        -- simpl. intros j x Hne Hj.
           destruct (decide (j < length (numbers st))).
           ++ by rewrite lookup_app_l in Hj.
           ++ rewrite lookup_app_r in Hj by lia.
              destruct (j - length (numbers st)) as [|m] eqn:Hm; [lia|done].
        -- intros slots1 Hslots1. exists slots1. by split.
        -- simpl. rewrite length_app. simpl. lia.
      * rewrite Hself, Hinit. exact Hinput.
    + simpl.
      by destruct (closed_trace env st1 st2 (Throw e) slots None
                     Htrace1 Hs1 Hheld ltac:(by intros n c [=]) Hclosed)
        as (Ht & _).
  - simpl. apply traced_return. eapply set_slot_trace; [done..|by exists slots].
Qed.

Lemma task_trace (env : environment) (m : M unit) (st : state) :
  traced env (m st).1 (m st).2 -> trace_inv env (task m st).
Proof.
  unfold task. destruct (m st) as [[[]|e] st']; simpl; intros [Ht Hthrow];
    [done|].
  destruct (Hthrow e eq_refl) as (-> & Hf & s & e' & Hcalled).
  destruct Ht as [Hl Hr Hc Hn Ha Hcd Hre Hi Hu].
  assert (cancel_array st' = None) as Hdead.
  { destruct (cancel_array st') as [slots|] eqn:Hs; [|done].
    destruct (only_launches _ (Hr ltac:(by eexists))) as (_ & _ & _ & _ & Hno).
    by apply Hno in Hcalled. }
  split; simpl; try done.
  - rewrite launches_app, Hl. simpl. by rewrite app_nil_r.
  - intros [? Halive]. simpl in Halive. congruence.
  - rewrite calls_app. simpl. by rewrite app_nil_r.
  - rewrite cancellations_app. simpl. by rewrite app_nil_r.
  - intros j c reason [Hin|Hin]%elem_of_app;
      [|by apply list_elem_of_singleton in Hin].
    destruct (Hcd j c reason Hin) as (? & ? & input & ? & ?).
    split_and!; [done..|]. exists input. split; [|done].
    apply elem_of_app. by left.
  - intros j c reason j' c' reason' [Hin|Hin]%elem_of_app [Hin'|Hin']%elem_of_app;
      try (by apply list_elem_of_singleton in Hin);
      try (by apply list_elem_of_singleton in Hin').
    by eapply Hre.
  - intros Hf' j v [Hin|Hin]%elem_of_app; [by apply (Hi Hf' j)|].
    by apply list_elem_of_singleton in Hin.
  - intros e [Hin|Hin]%elem_of_app.
    + destruct (Hu e Hin) as (? & ? & s' & e'' & ?). split_and!; [done..|].
      exists s', e''. apply elem_of_app. by left.
    + apply list_elem_of_singleton in Hin. injection Hin as ->.
      split_and!; [done..|]. exists s, e'. apply elem_of_app. by left.
Qed.

Lemma cancelled_trace (env : environment) (reason : value) (st : state) :
  run_inv st -> returned_inv env st -> trace_inv env st ->
  trace_inv env (cancelled reason st).
Proof.
  intros Hinv Hret Htrace.
  destruct (cancel_array st) as [slots|] eqn:Hs.
  2:{ rewrite cancelled_stopped; [done|done|].
      destruct Htrace. unfold armed in *. rewrite Hs in *. tauto. }
  pose proof (held_slots env st slots Hinv Hret Hs) as Hheld.
  destruct Htrace as [Hl Hr Hc Hn Ha Hcd Hre Hi Hu].
  specialize (Hr ltac:(by eexists)).
  destruct (only_launches _ Hr) as (Hcalls & Hcanc & Hnoc & Hnou & Hnocall).
  destruct (cancel_calls_log (cancel_reason st reason) slots)
    as (Hcl & Hcc & Hcn & Hcu & Hcla & Hcca).
  pose proof (cancelled_observed reason st slots Hs) as Hob.
  split; rewrite ?cancelled_next_number, ?cancelled_self,
    ?cancelled_initial_value, ?Hob.
  - rewrite launches_app, Hcl, Hl. by rewrite app_nil_r.
  - intros [? Halive]. rewrite cancelled_dead in Halive. done.
  - rewrite calls_app, Hcalls, Hcc. simpl. lia.
  - by rewrite cancellations_app, Hcanc.
  - unfold armed in *. rewrite cancelled_dead, cancelled_timer_id.
    rewrite Hs in Ha. by rewrite cancelled_timer_running.
  - intros j c r [Hin|Hin]%elem_of_app; [by apply Hnoc in Hin|].
    apply cancel_calls_elem in Hin as (j' & c' & [= -> -> ->] & Hslot & Hfun).
    destruct (Hheld j' c' Hslot Hfun) as (Hlive & input & Hin & Henv).
    split_and!; [done| |].
    + unfold is_live. by rewrite cancelled_numbers.
    + exists input. split; [|done]. apply elem_of_app. by left.
  - intros j c r j' c' r' [Hin|Hin]%elem_of_app [Hin'|Hin']%elem_of_app;
      try (by apply Hnoc in Hin); try (by apply Hnoc in Hin').
    apply cancel_calls_elem in Hin as (? & ? & [= -> -> ->] & _).
    by apply cancel_calls_elem in Hin' as (? & ? & [= -> -> ->] & _).
  - intros Hf j v [Hin|Hin]%elem_of_app; [by apply (Hi Hf j)|].
    by apply Hcla in Hin.
  - intros e [Hin|Hin]%elem_of_app; [by apply Hnou in Hin|by apply Hcu in Hin].
Qed.

Lemma handle_trace (env : environment) (ev : event) (st : state) :
  run_inv st -> returned_inv env st -> trace_inv env st ->
  trace_inv env (handle env ev st).
Proof.
  intros Hinv Hret Htrace.
  destruct ev as [|number success error| |reason]; simpl.
  - destruct (0 <? deferred st); [|done]. apply task_trace.
    apply start_requestor_fuel_trace;
      [by apply set_deferred_inv|by apply set_deferred_returned
      |by apply set_deferred_trace|done].
  - apply task_trace.
    destruct (decide (alive st /\ is_live st number = true)) as [[Ha Hl]|Hno];
      [|rewrite start_requestor_callback_ignored by done; by apply traced_return].
    rewrite start_requestor_callback_fires by done.
    destruct (is_live_Some _ _ Hl) as [x Hx].
    pose proof Ha as [slots Hs].
    destruct (inv_slots _ Hinv slots Hs) as [Hlen _].
    assert (number < length slots) as Hlt.
    { apply lookup_lt_Some in Hx.
      pose proof (inv_numbers _ Hinv). pose proof (inv_cursor _ Hinv). lia. }
    set (st1 := set_slot number VUndefined st).
    assert (run_inv st1) as Hinv1 by (by eapply set_slot_inv).
    assert (cancel_array st1 = Some (<[number := VUndefined]> slots)) as Hs1.
    { unfold st1. simpl. rewrite Hs. simpl. by rewrite array_set_in_range. }
    assert (trace_inv env st1) as Htrace1 by (by eapply set_slot_trace).
    assert (held env st1 (<[number := VUndefined]> slots)) as Hheld.
    { intros j c Hc Hfun.
      assert (j <> number) as Hne.
      { intros ->. rewrite list_lookup_insert_eq in Hc by done. by simplify_eq. }
      rewrite list_lookup_insert_ne in Hc by done.
      by apply (held_slots env st slots Hinv Hret Hs j c Hc Hfun). }
    assert (forall n c, Some number = Some n ->
              <[number := VUndefined]> slots !! n = Some c ->
              is_function c = false) as Hcleared.
    { intros n c [= <-] Hc. rewrite list_lookup_insert_eq in Hc by done.
      by simplify_eq. }
    pose proof (completion_inv success error number x st1 Hinv1
                  ltac:(by eexists) Hx) as Hdone.
    pose proof (action_frame success error number st1) as [Hframe _].
    pose proof (action_closed success error number st1
                  (inv_callback _ Hinv1 ltac:(by eexists))) as Hclosed.
    destruct (action success error number st1) as [[[]|e] st2];
      simpl in Hframe, Hclosed.
    + destruct (closed_trace env st1 st2 (Return ())
                  (<[number := VUndefined]> slots) (Some number)
                  Htrace1 Hs1 Hheld Hcleared Hclosed)
        as ([Htrace3 _] & _ & Hself & Hinit).
      apply start_requestor_fuel_trace; try done.
      * apply Hdone. intros slots1 Hslots1.
        rewrite Hs1 in Hslots1. injection Hslots1 as <-.
        by rewrite list_lookup_insert_eq.
      * eapply (completion_returned env number st st1 st2); try done.
        -- intros slots1 Hslots1. rewrite Hs1 in Hslots1.
           injection Hslots1 as <-. exists slots. split; [done|].
           intros j Hne. by rewrite list_lookup_insert_ne.
        -- by eapply lookup_lt_Some.
      * simpl. destruct (r_factory (self st2)); done.
    + by destruct (closed_trace env st1 st2 (Throw e)
                     (<[number := VUndefined]> slots) None
                     Htrace1 Hs1 Hheld ltac:(by intros n c [=]) Hclosed)
        as (Ht & _).
  - destruct (timer_running st) eqn:Hrun; [|done]. apply task_trace.
    destruct (cancel_array st) as [slots|] eqn:Hs.
    2:{ destruct Htrace. unfold armed in *. rewrite Hs in *.
        destruct trace_armed0. congruence. }
    set (st1 := set_timer (timer_id st) false st).
    assert (trace_inv env st1) as Htrace1.
    { destruct Htrace. split; try done. unfold armed in *. simpl.
      by rewrite Hs in *. }
    assert (held env st1 slots) as Hheld
      by (by apply (held_slots env st slots)).
    pose proof (timeout_closed st1
                  (inv_callback _ Hinv ltac:(by eexists))) as Hclosed.
    by destruct (closed_trace env st1 _ _ slots None
                   Htrace1 Hs Hheld ltac:(by intros n c [=]) Hclosed)
      as (Ht & _).
  - apply task_trace. rewrite cancel_eq. simpl. apply traced_return.
    by apply cancelled_trace.
Qed.

Lemma reachable_trace (env : environment) (st : state) :
  reachable env st -> trace_inv env st.
Proof.
  intros (r & callback & initial_value & st0 & evs & Hinvoke & ->).
  induction evs as [|ev evs IH] using rev_ind.
  - apply invoke_returns in Hinvoke as [_ Hrun].
    destruct (run_returns _ _ _ _ Hrun) as (t & timer & _ & _ & ->).
    split; simpl; try done; try (by constructor); try (by unfold armed; simpl).
    all: intros;
      match goal with H : _ ∈ [] |- _ => by apply elem_of_nil in H end.
  - rewrite run_events_snoc.
    assert (reachable env (run_events env evs st0)) as Hreach
      by (by exists r, callback, initial_value, st0, evs).
    apply handle_trace; [by apply (reachable_inv env)|by apply reachable_returned|done].
Qed.

(** ** After the coordinator has stopped *)

Lemma handle_stopped (env : environment) (ev : event) (st : state) :
  armed st -> cancel_array st = None ->
  handle env ev st = st
  \/ handle env ev st = set_deferred (deferred st - 1) st.
Proof.
  intros Harmed Hdead. unfold armed in Harmed. rewrite Hdead in Harmed.
  destruct Harmed as [Hid Hrun].
  destruct ev as [|number success error| |reason]; simpl.
  - destruct (0 <? deferred st); [right|by left].
    unfold task. by rewrite start_requestor_stopped.
  - left. unfold task. rewrite start_requestor_callback_ignored; [done|].
    intros [[slots Hs] _]. congruence.
  - left. by rewrite Hrun.
  - left. unfold task. rewrite cancel_eq. by apply cancelled_stopped.
Qed.

Lemma run_events_stopped (env : environment) (evs : list event) (st : state) :
  armed st -> cancel_array st = None ->
  set_deferred 0 (run_events env evs st) = set_deferred 0 st.
Proof.
  intros Harmed Hdead. induction evs as [|ev evs IH] using rev_ind; [done|].
  rewrite run_events_snoc.
  assert (armed (run_events env evs st)
          /\ cancel_array (run_events env evs st) = None) as [Harmed' Hdead'].
  { assert (cancel_array (run_events env evs st) = None) as Hd.
    { change (cancel_array (set_deferred 0 (run_events env evs st)) = None).
      by rewrite IH. }
    split; [|done]. unfold armed in *. rewrite Hd, Hdead in *.
    change (timer_id (set_deferred 0 (run_events env evs st)) = false
            /\ timer_running (set_deferred 0 (run_events env evs st)) = false).
    by rewrite IH. }
  destruct (handle_stopped env ev _ Harmed' Hdead') as [->| ->]; done.
Qed.

(** X8.  Once the coordinator has stopped, nothing that happens changes
    what the outside has seen, the callback variable, the results, the
    launch cursor or the numbers: late reports, queued launches, the timer
    and further calls of [cancel] are ignored. *)
Theorem stopped_run_ignores_events (env : environment) (st : state)
    (evs : list event) :
  reachable env st -> cancel_array st = None ->
  let st' := run_events env evs st in
  observed st' = observed st
  /\ callback st' = callback st
  /\ results st' = results st
  /\ next_number st' = next_number st
  /\ numbers st' = numbers st
  /\ cancel_array st' = None
  /\ timer_running st' = false.
Proof.
  intros Hreach Hdead. cbv zeta.
  pose proof (trace_armed _ _ (reachable_trace _ _ Hreach)) as Harmed.
  pose proof (run_events_stopped env evs st Harmed Hdead) as Hsame.
  unfold armed in Harmed. rewrite Hdead in Harmed. destruct Harmed as [_ Hrun].
  split_and!.
  - change (observed (set_deferred 0 (run_events env evs st)) = observed st).
    by rewrite Hsame.
  - change (callback (set_deferred 0 (run_events env evs st)) = callback st).
    by rewrite Hsame.
  - change (results (set_deferred 0 (run_events env evs st)) = results st).
    by rewrite Hsame.
  - change (next_number (set_deferred 0 (run_events env evs st)) = next_number st).
    by rewrite Hsame.
  - change (numbers (set_deferred 0 (run_events env evs st)) = numbers st).
    by rewrite Hsame.
  - change (cancel_array (set_deferred 0 (run_events env evs st)) = None).
    by rewrite Hsame.
  - change (timer_running (set_deferred 0 (run_events env evs st)) = false).
    by rewrite Hsame.
Qed.

Lemma stopped_run_ignores_events_witness :
  exists st,
    example_run example_race example_env
                [Tick; Tick; Report 0 (VStr "won") VUndefined]
    = Some st
    /\ observed (run_events example_env
                   [Report 1 (VStr "late") VUndefined; Tick; Timer;
                    Cancel VUndefined] st)
       = observed st.
Proof.
  eexists. split; [vm_compute; reflexivity|].
  match goal with |- observed (run_events _ ?evs ?st) = _ =>
    apply (stopped_run_ignores_events example_env st evs)
  end.
  - by apply (example_run_reachable example_race example_env
                [Tick; Tick; Report 0 (VStr "won") VUndefined]).
  - reflexivity.
Defined.

(** X9.  In every state of a run the requestors launched so far are the
    requestors 0, 1, ..., [next_number - 1], each launched once and in this
    order, and [next_number] is at most the number of requestors; except
    under [sequence], every one of them was given the initial value. *)
Theorem launches_in_order (env : environment) (st : state) :
  reachable env st ->
  launches (observed st) = seq 0 (next_number st)
  /\ next_number st <= length (requestor_array st)
  /\ (r_factory (self st) <> Sequence ->
      forall number input,
        Launched number input ∈ observed st -> input = initial_value st).
Proof.
  intros Hreach.
  destruct (reachable_trace _ _ Hreach).
  pose proof (inv_cursor _ (reachable_inv _ _ Hreach)). done.
Qed.

Lemma launches_in_order_witness :
  exists st,
    example_run example_race example_env
                [Tick; Tick; Report 0 VUndefined (VStr "lost"); Tick]
    = Some st
    /\ launches (observed st) = seq 0 (next_number st).
Proof.
  eexists. split; [vm_compute; reflexivity|].
  match goal with |- launches (observed ?st) = _ =>
    apply (launches_in_order example_env st)
  end.
  by apply (example_run_reachable example_race example_env
              [Tick; Tick; Report 0 VUndefined (VStr "lost"); Tick]).
Defined.

(** X10.  In every run the caller's callback is called at most once; it is
    called only by a step that stops the coordinator; and once the
    coordinator has stopped it is not called again. *)
Theorem callback_called_at_most_once (env : environment) (st : state) :
  reachable env st ->
  length (calls (observed st)) <= 1
  /\ (forall success error,
        Called success error ∈ observed st -> cancel_array st = None)
  /\ (cancel_array st = None ->
      forall evs, calls (observed (run_events env evs st)) = calls (observed st)).
Proof.
  intros Hreach. pose proof (reachable_trace _ _ Hreach) as Htrace.
  split_and!.
  - apply Htrace.
  - intros success error Hin.
    destruct (cancel_array st) as [slots|] eqn:Hs; [|done].
    destruct (only_launches _ (trace_running _ _ Htrace ltac:(by eexists)))
      as (_ & _ & _ & _ & Hno).
    by apply Hno in Hin.
  - intros Hdead evs.
    pose proof (run_events_stopped env evs st (trace_armed _ _ Htrace) Hdead)
      as Hsame.
    change (calls (observed (set_deferred 0 (run_events env evs st)))
            = calls (observed st)).
    by rewrite Hsame.
Qed.

Lemma callback_called_at_most_once_witness :
  exists st,
    example_run example_race example_env
                [Tick; Tick; Report 1 (VStr "won") VUndefined;
                 Report 0 (VStr "late") VUndefined]
    = Some st
    /\ length (calls (observed st)) <= 1.
Proof.
  eexists. split; [vm_compute; reflexivity|].
  match goal with |- length (calls (observed ?st)) <= 1 =>
    apply (callback_called_at_most_once example_env st)
  end.
  by apply (example_run_reachable example_race example_env
              [Tick; Tick; Report 1 (VStr "won") VUndefined;
               Report 0 (VStr "late") VUndefined]).
Defined.





(** ** The time limit *)




(** ** The caller cancels *)



(** ** Reports, factory by factory *)

(** A report that the coordinator accepts. *)
Lemma report_eq (env : environment) (number : nat) (success error : value)
    (st : state) :
  alive st -> is_live st number = true ->
  handle env (Report number success error) st
  = match action success error number (set_slot number VUndefined st) with
    | (Return _, st') =>
        task (start_requestor env
                (match r_factory (self st') with
                 | Sequence => success
                 | _ => initial_value st'
                 end))
             (clear_number number st')
    | (Throw e, st') => observe [Uncaught e] st'
    end.
Proof.
  intros Ha Hl. simpl. unfold task at 1.
  rewrite start_requestor_callback_fires by done.
  by destruct (action _ _ _ _) as [[[]|e] st'].
Qed.

Lemma start_requestor_next (env : environment) (input : value) (st : state) :
  alive st ->
  (next_number st < length (requestor_array st) ->
   exists cancel, env (next_number st) input = Returns cancel) ->
  exists st',
    task (start_requestor env input) st = st'
    /\ alive st' /\ results st' = results st
    /\ observed st' = (observed st ++ next_launch input st)%list.
Proof.
  intros Ha Hnext. unfold task, next_launch. rewrite start_requestor_eq.
  destruct (Nat.ltb_spec (next_number st) (length (requestor_array st)))
    as [Hlt|Hge].
  - destruct (Hnext Hlt) as [cancel Henv].
    destruct (length (requestor_array st) - next_number st) as [|fuel] eqn:Hfuel;
      [lia|].
    rewrite start_requestor_fuel_launch by done. rewrite Henv.
    eexists. split; [done|]. destruct Ha as [slots Hs].
    split_and!; simpl; try done. unfold alive. simpl. rewrite Hs. by eexists.
  - rewrite start_requestor_fuel_stopped by lia.
    eexists. split; [done|]. by rewrite app_nil_r.
Qed.

(** A report after which the run goes on. *)
Lemma report_continues (env : environment) (number : nat) (input : value)
    (st st1 : state) :
  recorded (set_slot number VUndefined st) st1 -> alive st ->
  (next_number st < length (requestor_array st) ->
   exists cancel, env (next_number st) input = Returns cancel) ->
  let st' := task (start_requestor env input) (clear_number number st1) in
  alive st' /\ results st' = results st1
  /\ observed st' = (observed st ++ next_launch input st)%list.
Proof.
  intros [[Hself _ Hnext _ _ _ _ _ _] Hca _ _ _ Hob] [slots Hs] Hret. cbv zeta.
  simpl in *.
  destruct (start_requestor_next env input (clear_number number st1))
    as (st' & -> & Ha' & Hres & Hob').
  - unfold alive. simpl. rewrite Hca, Hs. by eexists.
  - unfold requestor_array. simpl. rewrite Hnext, Hself. exact Hret.
  - split_and!; [done|done|]. rewrite Hob'. unfold next_launch, requestor_array.
    simpl. by rewrite Hob, Hnext, Hself.
Qed.

(** A report that ends the run, and the call of the cleared callback
    variable that may follow. *)
Lemma report_finishes (env : environment) (number : nat)
    (reason success error input : value) (st st1 : state) (slots : list value)
    (res : result unit) :
  recorded (set_slot number VUndefined st) st1 ->
  cancel_array st = Some slots ->
  let st' := match res with
             | Return _ =>
                 task (start_requestor env input)
                      (clear_number number (finished reason success error st1))
             | Throw e => observe [Uncaught e] (finished reason success error st1)
             end in
  cancel_array st' = None /\ next_number st' = next_number st
  /\ observed st'
     = (observed st
        ++ cancel_calls (cancel_reason st reason) (array_set number VUndefined slots)
        ++ [delivery st success error]
        ++ match res with Return _ => [] | Throw e => [Uncaught e] end)%list.
Proof.
  intros [[Hself _ Hnext _ _ _ _ _ _] Hca _ _ _ Hob] Hs. cbv zeta.
  simpl in *.
  assert (cancel_array st1 = Some (array_set number VUndefined slots)) as Hs1
    by (by rewrite Hca, Hs).
  assert (observed (finished reason success error st1)
          = (observed st
             ++ cancel_calls (cancel_reason st reason)
                  (array_set number VUndefined slots)
             ++ [delivery st success error])%list) as Hobf.
  { rewrite (finished_observed _ _ _ _ _ Hs1), Hob.
    unfold cancel_reason, factory_name, delivery. by rewrite Hself. }
  destruct res as [[]|e].
  - unfold task. rewrite start_requestor_stopped by apply finished_dead.
    split_and!;
      [apply finished_dead
      |exact (eq_trans (finished_next_number reason success error st1) Hnext)|].
    etrans; [exact Hobf|]. reflexivity.
  - split_and!;
      [apply finished_dead
      |exact (eq_trans (finished_next_number reason success error st1) Hnext)|].
    etrans; [exact (f_equal (fun os => (os ++ [Uncaught e])%list) Hobf)|].
    by rewrite <- !app_assoc.
Qed.

Lemma last_pending (x : Z) : (x - 1 <? 1)%Z = (x <=? 1)%Z.
Proof. destruct (Z.ltb_spec (x - 1) 1), (Z.leb_spec x 1); lia || done. Qed.



(** X16.  [sequence].  The report of a failure ends the run: the caller's
    callback receives the error; if the failing requestor was the last one,
    the cleared callback variable is called afterwards and a TypeError
    escapes.  The success of the last requestor ends the run with that
    success; any other success delivers nothing and launches the next
    requestor with the success value as its input. *)
Theorem sequence_report (env : environment) (st : state) (number : nat)
    (success error : value) (slots : list value) :
  reachable env st -> r_factory (self st) = Sequence ->
  r_names (self st) = None ->
  cancel_array st = Some slots -> is_live st number = true ->
  (next_number st < length (requestor_array st) ->
   exists cancel, env (next_number st) success = Returns cancel) ->
  let st' := handle env (Report number success error) st in
  let last := (number_pending st <=? 1)%Z in
  let others := array_set number VUndefined slots in
  if is_undefined success
  then cancel_array st' = None /\ next_number st' = next_number st
       /\ observed st'
          = (observed st
             ++ cancel_calls (cancel_reason st error) others
             ++ [Called VUndefined error]
             ++ if last then [Uncaught not_a_function] else [])%list
  else if last
       then finishes st st'
                     (make_error "sequence" (Some "Cancel.") VUndefined) others
                     (Called success VUndefined)
       else alive st'
            /\ observed st' = (observed st ++ next_launch success st)%list.
Proof.
  intros Hreach Hf Hnames Hs Hl Hnext. cbv zeta.
  pose proof (reachable_inv _ _ Hreach) as Hinv.
  assert (alive st) as Ha by (by eexists).
  rewrite report_eq by done.
  set (st0 := set_slot number VUndefined st).
  set (st1 := set_number_pending (number_pending st - 1) st0).
  assert (is_function (callback st0) = true) as Hcb
    by (by apply (inv_callback _ Hinv)).
  assert (recorded st0 st1) as Hrec by apply set_number_pending_recorded.
  assert (forall s e, delivery st s e = Called s e) as Hd.
  { intros s e. unfold delivery. by rewrite Hnames. }
  unfold action. rewrite get_then. change (self st0) with (self st). rewrite Hf.
  destruct (is_undefined success) eqn:Hsucc.
  - assert (success = VUndefined) as -> by (by destruct success).
    rewrite sequence_action_failure_eq by done. cbv zeta.
    cbn [number_pending set_number_pending].
    change (number_pending st0) with (number_pending st). fold st1.
    rewrite last_pending, <- (Hd VUndefined error).
    destruct (number_pending st <=? 1)%Z.
    + by destruct (report_finishes env number error VUndefined error
                     VUndefined st st1 slots (Throw not_a_function) Hrec Hs)
        as (Hdead & Hn & Hob).
    + by destruct (report_finishes env number error VUndefined error
                     (match r_factory (self (finished error VUndefined error st1)) with
                      | Sequence => VUndefined
                      | _ => initial_value (finished error VUndefined error st1)
                      end) st st1 slots (Return ()) Hrec Hs)
        as (Hdead & Hn & Hob).
  - rewrite sequence_action_eq by done. cbv zeta.
    change (number_pending st0) with (number_pending st). fold st1.
    rewrite last_pending.
    destruct (number_pending st <=? 1)%Z.
    + rewrite <- (Hd success VUndefined).
      destruct (report_finishes env number VUndefined success VUndefined
                  (match r_factory (self (finished VUndefined success VUndefined st1)) with
                   | Sequence => success
                   | _ => initial_value (finished VUndefined success VUndefined st1)
                   end) st st1 slots (Return ()) Hrec Hs)
        as (Hdead & Hn & Hob).
      unfold finishes. split_and!; [done..|]. rewrite Hob, app_nil_r.
      unfold cancel_reason, factory_name. by rewrite Hf.
    + change (self st1) with (self st). rewrite Hf.
      by destruct (report_continues env number success st st1 Hrec Ha Hnext)
        as (? & _ & ?).
Qed.

Lemma sequence_report_witness :
  exists st,
    example_run (sequence (VArr [VFun 1 1; VFun 2 2]) VUndefined)
                example_env [Tick]
    = Some st
    /\ observed (handle example_env (Report 0 VUndefined (VStr "e")) st)
       = [Launched 0 (VStr "init"); Called VUndefined (VStr "e")].
Proof.
  eexists. split; [vm_compute; reflexivity|].
  match goal with |- observed (handle _ _ ?st) = _ =>
    apply (sequence_report example_env st 0 VUndefined (VStr "e")
             [VFun 1 100; VUndefined])
  end.
  - by apply (example_run_reachable
                (sequence (VArr [VFun 1 1; VFun 2 2]) VUndefined)
                example_env [Tick]).
  - reflexivity.
  - reflexivity.
  - reflexivity.
  - reflexivity.
  - intros _. by eexists.
Defined.



(** ** A run that stops by itself delivers a result *)

Lemma closed_called (st st' : state) (res : result unit) :
  alive st -> closed st res st' -> cancel_array st' = None ->
  exists success error, Called success error ∈ observed st'.
Proof.
  intros [slots Hs] [st1 Hrec|st1 reason success error res' cb Hrec Hres] Hdead.
  - rewrite (recorded_cancel_array _ _ Hrec) in Hdead. congruence.
  - destruct (delivery_is_call st success error) as (s' & e' & Hd).
    exists s', e'. simpl. rewrite Hd. apply elem_of_app. right.
    by apply list_elem_of_singleton.
Qed.

Lemma start_requestor_fuel_called (fuel : nat) (env : environment)
    (input : value) (st : state) :
  run_inv st -> alive st ->
  cancel_array (start_requestor_fuel fuel env input st).2 = None ->
  exists success error,
    Called success error ∈ observed (start_requestor_fuel fuel env input st).2.
Proof.
  revert st. induction fuel as [|fuel IH]; intros st Hinv Ha.
  all: destruct (decide (alive st /\ next_number st < length (requestor_array st)))
         as [[_ Hn]|Hstop];
    [|rewrite start_requestor_fuel_stopped by done; simpl; intros Hdead;
      destruct Ha as [? ?]; congruence].
  { simpl. rewrite get_then. rewrite bool_decide_eq_true_2 by done.
    apply Nat.ltb_lt in Hn as ->. simpl. intros Hdead.
    destruct Ha as [? ?]. congruence. }
  rewrite start_requestor_fuel_launch by done.
  pose proof (launched_inv input st Hinv Hn) as Hinv1.
  pose proof (launched_live input st Hinv) as Hlive1.
  destruct Ha as [slots Hs].
  destruct (env (next_number st) input) as [exception|cancel] eqn:Henv.
  - set (st1 := launched (next_number st) input st) in *.
    assert (alive st1) as Ha1 by (by exists slots).
    pose proof (completion_inv VUndefined exception (next_number st) _ st1
                  Hinv1 Ha1 Hlive1) as Hdone.
    pose proof (action_closed VUndefined exception (next_number st) st1
                  (inv_callback _ Hinv1 Ha1)) as Hclosed.
    rewrite bind_eq.
    destruct (action VUndefined exception (next_number st) st1)
      as [[[]|e] st2]; simpl in Hclosed.
    + rewrite modify_then.
      destruct (cancel_array st2) as [slots2|] eqn:Hs2.
      * apply IH.
        -- apply Hdone. intros slots1 Hslots1. by eapply launched_slot.
        -- unfold alive. simpl. rewrite Hs2. by eexists.
      * intros _. rewrite start_requestor_fuel_stopped.
        -- by apply (closed_called st1 st2 (Return ())).
        -- intros [[? Halive] _]. simpl in Halive. congruence.
    + simpl. by apply (closed_called st1 st2 (Throw e)).
  - simpl. rewrite Hs. done.
Qed.

Lemma task_called (m : M unit) (st : state) :
  (cancel_array (m st).2 = None ->
   exists success error, Called success error ∈ observed (m st).2) ->
  cancel_array (task m st) = None ->
  exists success error, Called success error ∈ observed (task m st).
Proof.
  unfold task. destruct (m st) as [[[]|e] st']; simpl; [done|].
  intros Hcalled Hdead. destruct (Hcalled Hdead) as (s & e' & Hin).
  exists s, e'. apply elem_of_app. by left.
Qed.

Lemma called_calls (os : list observation) (success error : value) :
  Called success error ∈ os -> 1 <= length (calls os).
Proof.
  intros Hin.
  assert (Called success error ∈ calls os) as Hc
    by (by apply list_elem_of_filter).
  destruct (calls os); [by apply elem_of_nil in Hc|simpl; lia].
Qed.

(** X18.  A coordinator never stops silently by itself: whenever a queued
    launch, a report or the timer stops a running coordinator, the caller's
    callback has been called, exactly once. *)
Theorem stopping_run_calls_back (env : environment) (st : state) (ev : event) :
  reachable env st -> alive st ->
  (forall reason, ev <> Cancel reason) ->
  cancel_array (handle env ev st) = None ->
  length (calls (observed (handle env ev st))) = 1.
Proof.
  intros Hreach Ha Hev Hdead.
  pose proof (reachable_inv _ _ Hreach) as Hinv.
  assert (reachable env (handle env ev st)) as Hreach'.
  { destruct Hreach as (r & callback & initial_value & st0 & evs & Hinvoke & ->).
    exists r, callback, initial_value, st0, (evs ++ [ev])%list.
    by rewrite run_events_snoc. }
  pose proof (trace_calls _ _ (reachable_trace _ _ Hreach')) as Hmost.
  assert (exists success error,
            Called success error ∈ observed (handle env ev st))
    as (s & e & Hin); [|apply called_calls in Hin; lia].
  revert Hdead. clear Hmost Hreach'.
  destruct ev as [|number success error| |reason]; simpl.
  - destruct (0 <? deferred st);
      [|intros Hdead; destruct Ha as [? ?]; congruence].
    apply task_called. apply start_requestor_fuel_called;
      [by apply set_deferred_inv|done].
  - apply task_called.
    destruct (decide (is_live st number = true)) as [Hl|Hno].
    2:{ rewrite start_requestor_callback_ignored by tauto.
        intros Hdead; destruct Ha as [? ?]; simpl in *; congruence. }
    rewrite start_requestor_callback_fires by done.
    destruct (is_live_Some _ _ Hl) as [x Hx].
    set (st1 := set_slot number VUndefined st).
    assert (run_inv st1) as Hinv1 by (by eapply set_slot_inv).
    assert (alive st1) as Ha1.
    { unfold alive, st1. simpl. by destruct Ha as [? ->]. }
    pose proof (completion_inv success error number x st1 Hinv1 Ha1 Hx)
      as Hdone.
    pose proof (action_closed success error number st1
                  (inv_callback _ Hinv1 Ha1)) as Hclosed.
    destruct (action success error number st1) as [[[]|e] st2];
      simpl in Hclosed.
    + destruct (cancel_array st2) as [slots2|] eqn:Hs2.
      * apply start_requestor_fuel_called.
        -- apply Hdone. intros slots1 Hslots1.
           destruct Ha as [slots Hs]. unfold st1 in Hslots1. simpl in Hslots1.
           rewrite Hs in Hslots1. injection Hslots1 as <-.
           destruct (inv_slots _ Hinv slots Hs) as [Hlen _].
           assert (number < length slots).
           { apply lookup_lt_Some in Hx.
             pose proof (inv_numbers _ Hinv). pose proof (inv_cursor _ Hinv).
             lia. }
           rewrite array_set_in_range by done.
           by rewrite list_lookup_insert_eq.
        -- unfold alive. simpl. rewrite Hs2. by eexists.
      * intros _. rewrite start_requestor_stopped by done.
        by apply (closed_called st1 st2 (Return ())).
    + simpl. by apply (closed_called st1 st2 (Throw e)).
  - destruct (timer_running st);
      [|intros Hdead; destruct Ha as [? ?]; congruence].
    apply task_called.
    set (st1 := set_timer (timer_id st) false st).
    pose proof (timeout_closed st1 (inv_callback _ Hinv Ha)) as Hclosed.
    by apply (closed_called st1 (timeout st1).2 (timeout st1).1).
  - by destruct (Hev reason).
Qed.

Lemma stopping_run_calls_back_witness :
  exists st,
    example_run example_parallel example_env
                [Tick; Tick; Tick; Report 0 (VStr "a") VUndefined]
    = Some st
    /\ length (calls (observed
                        (handle example_env (Report 1 VUndefined (VStr "e")) st)))
       = 1.
Proof.
  eexists. split; [vm_compute; reflexivity|].
  match goal with |- length (calls (observed (handle _ ?ev ?st))) = 1 =>
    apply (stopping_run_calls_back example_env st ev)
  end.
  - by apply (example_run_reachable example_parallel example_env
                [Tick; Tick; Tick; Report 0 (VStr "a") VUndefined]).
  - by eexists.
  - discriminate.
  - reflexivity.
Defined.

(** ** The launches scheduled at the start *)

Lemma tick_launches (env : environment) (st : state) :
  alive st -> 0 < deferred st ->
  next_number st < length (requestor_array st) ->
  (exists cancel, env (next_number st) (initial_value st) = Returns cancel) ->
  let st' := handle env Tick st in
  alive st' /\ self st' = self st /\ initial_value st' = initial_value st
  /\ next_number st' = S (next_number st)
  /\ deferred st' = deferred st - 1
  /\ observed st'
     = (observed st ++ [Launched (next_number st) (initial_value st)])%list.
Proof.
  intros [slots Hs] Hd Hn [cancel Henv]. cbv zeta. simpl.
  apply Nat.ltb_lt in Hd as ->. unfold task. rewrite start_requestor_eq.
  change (requestor_array (set_deferred (deferred st - 1) st))
    with (requestor_array st).
  change (next_number (set_deferred (deferred st - 1) st)) with (next_number st).
  destruct (length (requestor_array st) - next_number st) as [|fuel] eqn:Hfuel;
    [lia|].
  rewrite start_requestor_fuel_launch; [|by exists slots|done].
  change (next_number (set_deferred (deferred st - 1) st)) with (next_number st).
  rewrite Henv. simpl. unfold alive. simpl. rewrite Hs.
  split_and!; try done; try lia.
Qed.

(** X19.  The launches queued at the start run one per tick: when the
    requestors return on being called, after [k] of the [deferred st0]
    queued launches the requestors 0 to [k - 1] have been launched with the
    initial value, in this order, and the coordinator is running; no more
    launches are queued than there are requestors. *)
Theorem scheduled_launches_run (r : requestor) (callback input : value)
    (st0 : state) (env : environment) (k : nat) :
  invoke r callback input = Return st0 ->
  (forall number, number < length (r_requestor_array r) ->
                  exists cancel, env number input = Returns cancel) ->
  k <= deferred st0 ->
  let st := run_events env (replicate k Tick) st0 in
  deferred st0 <= length (r_requestor_array r)
  /\ alive st
  /\ next_number st = k
  /\ deferred st = deferred st0 - k
  /\ observed st = imap Launched (replicate k input).
Proof.
  intros Hinvoke Henv Hk. cbv zeta.
  apply invoke_returns in Hinvoke as [_ Hrun].
  destruct (run_returns _ _ _ _ Hrun) as (t & timer & _ & _ & Hst0).
  assert (deferred st0 <= length (r_requestor_array r)) as Hle
    by (rewrite Hst0; simpl; lia).
  split; [done|].
  assert (alive (run_events env (replicate k Tick) st0)
          /\ self (run_events env (replicate k Tick) st0) = r
          /\ initial_value (run_events env (replicate k Tick) st0) = input
          /\ next_number (run_events env (replicate k Tick) st0) = k
          /\ deferred (run_events env (replicate k Tick) st0) = deferred st0 - k
          /\ observed (run_events env (replicate k Tick) st0)
             = imap Launched (replicate k input)) as H;
    [|tauto].
  induction k as [|k IH].
  - rewrite Hst0. simpl. split_and!; try done; [by eexists|lia].
  - destruct IH as (Ha & Hself & Hinit & Hnext & Hdef & Hob); [lia|].
    rewrite !replicate_S_end, run_events_snoc, imap_app.
    destruct (tick_launches env (run_events env (replicate k Tick) st0))
      as (Ha' & Hself' & Hinit' & Hnext' & Hdef' & Hob'); try done.
    + lia.
    + unfold requestor_array. rewrite Hself, Hnext. lia.
    + rewrite Hnext, Hinit. apply Henv. lia.
    + split_and!; try congruence; [lia|].
      rewrite Hob', Hob, Hnext, Hinit. simpl.
      by rewrite length_replicate, Nat.add_0_r.
Qed.

Lemma scheduled_launches_run_witness :
  exists r st0,
    example_race = Return r
    /\ invoke r (VFun 2 0) (VStr "init") = Return st0
    /\ observed (run_events example_env [Tick; Tick] st0)
       = [Launched 0 (VStr "init"); Launched 1 (VStr "init")].
Proof.
  eexists _, _. split; [reflexivity|]. split; [reflexivity|].
  match goal with |- observed (run_events _ _ ?st0) = _ =>
    apply (scheduled_launches_run (self st0) (VFun 2 0) (VStr "init") st0
             example_env 2)
  end.
  - reflexivity.
  - intros number _. by eexists.
  - vm_compute. lia.
Defined.

(** ** One requestor at a time: fallback and sequence from start to end *)

Lemma one_at_a_time_slots (r : requestor) (inputs : list value) (k : nat)
    (st : state) (reason : value) :
  sequence_at r inputs k st -> k < length (r_requestor_array r) ->
  exists slots,
    cancel_array st = Some slots
    /\ cancel_calls reason (array_set k VUndefined slots) = [].
Proof.
  intros [_ [c Hs] _ _ _ _ _] Hk. eexists. split; [exact Hs|].
  rewrite array_set_in_range by (rewrite length_insert, length_replicate; lia).
  by rewrite list_insert_insert_eq, insert_replicate, cancel_calls_empty.
Qed.

Lemma one_at_a_time_ends (env : environment) (r : requestor)
    (inputs : list value) (k : nat) (st st1 : state)
    (reason success error input : value) (res : result unit) :
  sequence_at r inputs k st -> k < length (r_requestor_array r) ->
  r_names r = None ->
  recorded (set_slot k VUndefined st) st1 ->
  observed match res with
           | Return _ =>
               task (start_requestor env input)
                    (clear_number k (finished reason success error st1))
           | Throw e => observe [Uncaught e] (finished reason success error st1)
           end
  = (imap Launched (take (S k) inputs)
     ++ [Called success error]
     ++ match res with Return _ => [] | Throw e => [Uncaught e] end)%list.
Proof.
  intros Hat Hk Hnames Hrec.
  destruct (one_at_a_time_slots r inputs k st (cancel_reason st reason) Hat Hk)
    as (slots & Hs & Hnone).
  destruct (report_finishes env k reason success error input st st1 slots res
              Hrec Hs) as (_ & _ & ->).
  rewrite Hnone. destruct Hat as [Hself _ _ _ _ _ Hobserved].
  rewrite Hobserved. unfold delivery. by rewrite Hself, Hnames.
Qed.

Section fallback.
Context (r : requestor) (handles : nat -> value -> value) (input : value).
Context (Hfactory : r_factory r = Fallback) (Hnames : r_names r = None).

Let env : environment := fun number input => Returns (handles number input).
Let count : nat := length (r_requestor_array r).
Let inputs : list value := replicate count input.

Lemma fallback_action_at (k : nat) (success error : value) (st : state) :
  sequence_at r inputs k st -> k < count ->
  action success error k (set_slot k VUndefined st)
  = let st1 := set_number_pending (Z.of_nat count - Z.of_nat k - 1)
                 (set_slot k VUndefined st) in
    if is_undefined success
    then (Return (),
          if S k =? count then finished error VUndefined error st1 else st1)
    else (if S k =? count then Throw not_a_function else Return (),
          finished VUndefined success VUndefined st1).
Proof.
  intros [Hself _ _ _ Hcb Hpending _] Hk.
  unfold action. rewrite get_then.
  change (self (set_slot k VUndefined st)) with (self st).
  rewrite Hself, Hfactory. rewrite fallback_action_eq by done. cbv zeta.
  cbn [number_pending set_number_pending].
  change (number_pending (set_slot k VUndefined st)) with (number_pending st).
  rewrite Hpending. fold count.
  assert ((Z.of_nat count - Z.of_nat k - 1 <? 1)%Z = (S k =? count)) as ->;
    [|done].
  destruct (Z.ltb_spec (Z.of_nat count - Z.of_nat k - 1) 1),
    (Nat.eqb_spec (S k) count); lia || done.
Qed.

(** Requestor [k] has failed and another one is left: it is launched with
    the initial value. *)
Lemma fallback_next (k : nat) (error : value) (st : state) :
  sequence_at r inputs k st -> initial_value st = input ->
  S k < count ->
  let st' := handle env (Report k VUndefined error) st in
  sequence_at r inputs (S k) st' /\ initial_value st' = input.
Proof.
  intros Hat Hinput Hk. cbv zeta.
  destruct (sequence_live r inputs k st Hat) as [Ha Hlive].
  rewrite report_eq by done.
  rewrite (fallback_action_at k VUndefined error st) by (done || lia).
  cbv zeta. cbn [is_undefined].
  destruct (Nat.eqb_spec (S k) count) as [|_]; [lia|].
  destruct Hat as [Hself [c Hs] Hnext Hnumbers Hcb Hpending Hobserved].
  cbn [self set_number_pending initial_value]. 
  change (self (set_slot k VUndefined st)) with (self st).
  change (initial_value (set_slot k VUndefined st)) with (initial_value st).
  rewrite Hself, Hfactory, Hinput.
  unfold task. rewrite start_requestor_eq. simpl. unfold requestor_array. simpl.
  rewrite Hself, Hnext. fold count.
  destruct (count - S k) as [|fuel] eqn:Hfuel; [lia|].
  rewrite start_requestor_fuel_launch.
  2:{ unfold alive. simpl. rewrite Hs. by eexists. }
  2:{ simpl. unfold requestor_array. simpl. rewrite Hself, Hnext. fold count. lia. }
  simpl. rewrite Hnext.
  split; [|done]. split; simpl; try done.
  - exists (handles (S k) input). rewrite Hs. simpl. fold count.
    rewrite (array_set_in_range k)
      by (rewrite length_insert, length_replicate; lia).
    rewrite list_insert_insert_eq, insert_replicate.
    by rewrite array_set_in_range by (rewrite length_replicate; lia).
  - lia.
  - rewrite Hnumbers.
    rewrite insert_app_r_alt by (by rewrite length_replicate).
    rewrite length_replicate, Nat.sub_diag. simpl.
    by rewrite <- replicate_S_end.
  - fold count. lia.
  - rewrite Hobserved. unfold inputs.
    rewrite !take_replicate, !Nat.min_l by lia.
    rewrite (replicate_S_end (S k)), imap_app. cbn [imap].
    by rewrite length_replicate, Nat.add_0_r.
Qed.

(** Requestor [k] succeeds: the run ends. *)
Lemma fallback_wins (k : nat) (success error : value) (st : state) :
  sequence_at r inputs k st -> k < count ->
  is_undefined success = false ->
  observed (handle env (Report k success error) st)
  = (imap Launched (replicate (S k) input)
     ++ [Called success VUndefined]
     ++ if S k =? count then [Uncaught not_a_function] else [])%list.
Proof.
  intros Hat Hk Hsucc.
  destruct (sequence_live r inputs k st Hat) as [Ha Hlive].
  rewrite report_eq by done.
  rewrite (fallback_action_at k success error st) by done.
  cbv zeta. rewrite Hsucc.
  set (st1 := set_number_pending (Z.of_nat count - Z.of_nat k - 1)
                (set_slot k VUndefined st)).
  assert (recorded (set_slot k VUndefined st) st1) as Hrec
    by apply set_number_pending_recorded.
  assert (take (S k) inputs = replicate (S k) input) as Htake.
  { unfold inputs. by rewrite take_replicate, Nat.min_l by lia. }
  rewrite <- Htake.
  destruct (S k =? count).
  - apply (one_at_a_time_ends env r inputs k st st1 VUndefined success
             VUndefined VUndefined (Throw not_a_function)); done.
  - match goal with |- context [start_requestor env ?v] =>
      apply (one_at_a_time_ends env r inputs k st st1 VUndefined success
               VUndefined v (Return ())); done
    end.
Qed.

(** The last requestor fails: the run ends with its error. *)
Lemma fallback_exhausted (k : nat) (error : value) (st : state) :
  sequence_at r inputs k st -> S k = count ->
  observed (handle env (Report k VUndefined error) st)
  = (imap Launched (replicate count input) ++ [Called VUndefined error])%list.
Proof.
  intros Hat Hk.
  destruct (sequence_live r inputs k st Hat) as [Ha Hlive].
  rewrite report_eq by done.
  rewrite (fallback_action_at k VUndefined error st) by (done || lia).
  cbv zeta. cbn [is_undefined].
  set (st1 := set_number_pending (Z.of_nat count - Z.of_nat k - 1)
                (set_slot k VUndefined st)).
  assert (recorded (set_slot k VUndefined st) st1) as Hrec
    by apply set_number_pending_recorded.
  assert (take (S k) inputs = replicate count input) as Htake.
  { unfold inputs. by rewrite take_replicate, Nat.min_l, Hk by lia. }
  rewrite <- Htake.
  destruct (Nat.eqb_spec (S k) count) as [_|]; [|lia].
  match goal with |- context [start_requestor env ?v] =>
    rewrite (one_at_a_time_ends env r inputs k st st1 error VUndefined
               error v (Return ())) by (done || lia)
  end.
  by rewrite app_nil_r.
Qed.

(** The state after the first [k] requestors have failed. *)
Lemma fallback_prefix (callback : value) (st0 : state) (errors : list value)
    (k : nat) :
  r_throttle r = VNum 1 -> 1 <= count ->
  invoke r callback input = Return st0 ->
  k <= length errors -> k < count ->
  let st :=
    run_events env
      (imap (fun number error => Report number VUndefined error) (take k errors))
      (handle env Tick st0) in
  sequence_at r inputs k st /\ initial_value st = input.
Proof.
  intros Hthrottle Hcount Hinvoke. cbv zeta.
  induction k as [|k IH]; intros Hk Hlt.
  - rewrite take_0. cbn [imap run_events foldl]. split.
    + apply (sequence_first r handles inputs callback input); try done.
      unfold inputs. apply lookup_replicate_2. fold count. lia.
    + pose proof (invoke_inv _ _ _ _ Hinvoke) as Hinv0.
      rewrite (stepped_initial_value _ _ (handle_stepped env Tick st0 Hinv0)).
      apply invoke_returns in Hinvoke as [_ Hrun].
      by destruct (run_returns _ _ _ _ Hrun) as (t & timer & _ & _ & ->).
  - destruct (lookup_lt_is_Some_2 errors k) as [error Herror]; [lia|].
    rewrite (take_S_r _ _ _ Herror), imap_app. cbn [imap].
    rewrite length_take, Nat.add_0_r, Nat.min_l by lia.
    rewrite run_events_snoc.
    destruct IH as [Hat Hinput]; [lia..|].
    by apply fallback_next.
Qed.

End fallback.

Lemma fallback_returns (requestor_array milliseconds : value) (r : requestor) :
  fallback requestor_array milliseconds = Return r ->
  r_factory r = Fallback /\ r_names r = None /\ r_throttle r = VNum 1
  /\ 1 <= length (r_requestor_array r).
Proof.
  unfold fallback, check_requestor_array.
  destruct requestor_array as [| | | | | | |elems| | |]; try done.
  destruct (length elems <? 1) eqn:Hlen; [done|].
  destruct (existsb bad_requestor elems); [done|].
  intros [= <-]. simpl. apply Nat.ltb_ge in Hlen. done.
Qed.

(** X20.  [fallback] from start to end, over requestors that return when
    they are called.  When the first [k] requestors report failures and
    requestor [k] then reports a success, the requestors 0 to [k] have been
    launched in order, each with the initial value, and the caller's
    callback has received that success; nothing else has happened, except
    that, when requestor [k] is the last one, the cleared callback variable
    has been called afterwards and a TypeError has escaped.  When all the
    requestors report failures, each has been launched with the initial
    value and the callback has received the error of the last one. *)
Theorem fallback_tries_in_order
    (requestor_array milliseconds callback input : value)
    (r : requestor) (st0 : state) (handles : nat -> value -> value)
    (errors : list value) (success error : value) :
  fallback requestor_array milliseconds = Return r ->
  invoke r callback input = Return st0 ->
  let env : environment := fun number input => Returns (handles number input) in
  let count := length (r_requestor_array r) in
  let failures :=
    imap (fun number error => Report number VUndefined error) errors in
  (length errors < count -> is_undefined success = false ->
   observed (run_events env
               (Tick :: failures ++ [Report (length errors) success error])
               st0)
   = (imap Launched (replicate (S (length errors)) input)
      ++ [Called success VUndefined]
      ++ if S (length errors) =? count then [Uncaught not_a_function] else [])%list)
  /\ (length errors = count ->
      exists last_error,
        last errors = Some last_error
        /\ observed (run_events env (Tick :: failures) st0)
           = (imap Launched (replicate count input)
              ++ [Called VUndefined last_error])%list).
Proof.
  intros (Hfactory & Hnames & Hthrottle & Hcount)%fallback_returns
         Hinvoke env count failures.
  split.
  - intros Hlen Hsucc.
    change (run_events env (Tick :: failures ++ [Report (length errors) success error]) st0)
      with (run_events env (failures ++ [Report (length errors) success error])
                       (handle env Tick st0)).
    rewrite run_events_snoc.
    destruct (fallback_prefix r handles input Hfactory callback st0 errors
                (length errors) Hthrottle Hcount Hinvoke ltac:(lia) Hlen)
      as [Hat _].
    rewrite firstn_all in Hat.
    by apply (fallback_wins r handles input Hfactory Hnames).
  - intros Hlen.
    destruct errors as [|last_error rest _] using rev_ind;
      [simpl in *; fold count in Hcount; lia|].
    exists last_error. rewrite last_snoc. split; [done|].
    rewrite length_app in Hlen. cbn [length] in Hlen.
    unfold failures. rewrite imap_app. cbn [imap]. rewrite Nat.add_0_r.
    change (run_events env (Tick :: ?evs) st0)
      with (run_events env evs (handle env Tick st0)).
    rewrite run_events_snoc.
    destruct (fallback_prefix r handles input Hfactory callback st0
                (rest ++ [last_error]) (length rest) Hthrottle Hcount Hinvoke
                ltac:(rewrite length_app; lia) ltac:(fold count; lia))
      as [Hat _].
    rewrite take_app_length in Hat.
    apply (fallback_exhausted r handles input Hfactory Hnames); [done|].
    fold count. lia.
Qed.

Lemma fallback_tries_in_order_witness :
  exists r st0,
    fallback (VArr [VFun 1 1; VFun 2 2; VFun 2 3]) VUndefined = Return r
    /\ invoke r (VFun 2 0) (VStr "init") = Return st0
    /\ observed (run_events example_env
                   [Tick; Report 0 VUndefined (VStr "e0");
                    Report 1 (VStr "b") VUndefined] st0)
       = [Launched 0 (VStr "init"); Launched 1 (VStr "init");
          Called (VStr "b") VUndefined].
Proof.
  eexists _, _. split; [vm_compute; reflexivity|].
  split; [vm_compute; reflexivity|].
  match goal with |- observed (run_events _ _ ?st0) = _ =>
    apply (fallback_tries_in_order
             (VArr [VFun 1 1; VFun 2 2; VFun 2 3]) VUndefined
             (VFun 2 0) (VStr "init") (self st0) st0
             (fun number _ => VFun 1 (100 + number))
             [VStr "e0"] (VStr "b") VUndefined eq_refl eq_refl)
  end.
  - simpl. lia.
  - reflexivity.
Defined.

(** The state of a sequence after the first [k] requestors have succeeded. *)
Lemma sequence_prefix (r : requestor) (handles : nat -> value -> value)
    (callback input : value) (st0 : state) (successes : list value)
    (errors : nat -> value) (k : nat) :
  r_factory r = Sequence -> r_throttle r = VNum 1 ->
  1 <= length (r_requestor_array r) ->
  invoke r callback input = Return st0 ->
  Forall (fun success => is_undefined success = false) successes ->
  k <= length successes -> k < length (r_requestor_array r) ->
  sequence_at r (input :: successes) k
    (run_events (fun number input => Returns (handles number input))
       (imap (fun number success => Report number success (errors number))
             (take k successes))
       (handle (fun number input => Returns (handles number input)) Tick st0)).
Proof.
  intros Hfactory Hthrottle Hcount Hinvoke Hdefined.
  induction k as [|k IH]; intros Hk Hlt.
  - rewrite take_0.
    by apply (sequence_first r handles (input :: successes) callback input).
  - destruct (lookup_lt_is_Some_2 successes k) as [success Hsuccess]; [lia|].
    rewrite (take_S_r _ _ _ Hsuccess), imap_app. cbn [imap].
    rewrite length_take, Nat.add_0_r, Nat.min_l by lia.
    rewrite run_events_snoc.
    apply sequence_next; try done.
    + apply IH; lia.
    + by eapply Forall_lookup_1 in Hdefined.
Qed.

(** X21.  [sequence] from start to end, over requestors that return when
    they are called.  When the first [k] requestors report successes and
    requestor [k] then reports a failure, the requestors 0 to [k] have been
    launched in order, the first with the initial value and each later one
    with the success of the one before it; the caller's callback has
    received the error and no later requestor has been launched; when
    requestor [k] is the last one, the cleared callback variable has been
    called afterwards and a TypeError has escaped. *)
Theorem sequence_stops_at_failure
    (requestor_array milliseconds callback input : value)
    (r : requestor) (st0 : state) (handles : nat -> value -> value)
    (successes : list value) (errors : nat -> value) (error : value) :
  sequence requestor_array milliseconds = Return r ->
  invoke r callback input = Return st0 ->
  length successes < length (r_requestor_array r) ->
  Forall (fun success => is_undefined success = false) successes ->
  let env : environment := fun number input => Returns (handles number input) in
  let evs :=
    Tick :: imap (fun number success => Report number success (errors number))
                 successes
         ++ [Report (length successes) VUndefined error] in
  observed (run_events env evs st0)
  = (imap Launched (input :: successes)
     ++ [Called VUndefined error]
     ++ if S (length successes) =? length (r_requestor_array r)
        then [Uncaught not_a_function] else [])%list.
Proof.
  intros (Hfactory & Hnames & Hthrottle & Hcount)%sequence_returns
         Hinvoke Hlen Hdefined env evs.
  pose proof (sequence_prefix r handles callback input st0 successes errors
                (length successes) Hfactory Hthrottle Hcount Hinvoke Hdefined
                ltac:(lia) Hlen) as Hat.
  rewrite firstn_all in Hat.
  set (k := length successes) in *.
  set (report := fun number success => Report number success (errors number))
    in *.
  change (run_events env evs st0)
    with (run_events env (imap report successes ++ [Report k VUndefined error])
                     (handle env Tick st0)).
  rewrite run_events_snoc. fold env in Hat.
  set (st := run_events env (imap report successes) (handle env Tick st0)) in *.
  destruct (sequence_live r _ k st Hat) as [Ha Hlive].
  rewrite report_eq by done.
  assert (action VUndefined error k (set_slot k VUndefined st)
          = let st1 := set_number_pending
                         (Z.of_nat (length (r_requestor_array r)) - Z.of_nat k - 1)
                         (set_slot k VUndefined st) in
            (if S k =? length (r_requestor_array r)
             then Throw not_a_function else Return (),
             finished error VUndefined error st1)) as ->.
  { destruct Hat as [Hself _ _ _ Hcb Hpending _].
    unfold action. rewrite get_then.
    change (self (set_slot k VUndefined st)) with (self st).
    rewrite Hself, Hfactory. rewrite sequence_action_failure_eq by done.
    cbv zeta. cbn [number_pending set_number_pending].
    change (number_pending (set_slot k VUndefined st)) with (number_pending st).
    rewrite Hpending.
    assert ((Z.of_nat (length (r_requestor_array r)) - Z.of_nat k - 1 <? 1)%Z
            = (S k =? length (r_requestor_array r))) as ->; [|done].
    destruct (Z.ltb_spec (Z.of_nat (length (r_requestor_array r))
                          - Z.of_nat k - 1) 1),
      (Nat.eqb_spec (S k) (length (r_requestor_array r))); lia || done. }
  cbv zeta.
  set (st1 := set_number_pending _ (set_slot k VUndefined st)).
  assert (recorded (set_slot k VUndefined st) st1) as Hrec
    by apply set_number_pending_recorded.
  assert (take (S k) (input :: successes) = input :: successes) as Htake.
  { apply take_ge. simpl. lia. }
  rewrite <- Htake at 1.
  destruct (S k =? length (r_requestor_array r)).
  - apply (one_at_a_time_ends env r (input :: successes) k st st1 error
             VUndefined error VUndefined (Throw not_a_function)); done.
  - match goal with |- context [start_requestor env ?v] =>
      apply (one_at_a_time_ends env r (input :: successes) k st st1 error
               VUndefined error v (Return ())); done
    end.
Qed.

Lemma sequence_stops_at_failure_witness :
  exists r st0,
    sequence (VArr [VFun 1 1; VFun 2 2; VFun 2 3]) VUndefined = Return r
    /\ invoke r (VFun 2 0) (VStr "init") = Return st0
    /\ observed (run_events example_env
                   [Tick; Report 0 (VStr "a") VUndefined;
                    Report 1 VUndefined (VStr "e")] st0)
       = [Launched 0 (VStr "init"); Launched 1 (VStr "a");
          Called VUndefined (VStr "e")].
Proof.
  eexists _, _. split; [vm_compute; reflexivity|].
  split; [vm_compute; reflexivity|].
  match goal with |- observed (run_events _ _ ?st0) = _ =>
    apply (sequence_stops_at_failure
             (VArr [VFun 1 1; VFun 2 2; VFun 2 3]) VUndefined
             (VFun 2 0) (VStr "init") (self st0) st0
             (fun number _ => VFun 1 (100 + number))
             [VStr "a"] (fun _ => VUndefined) (VStr "e") eq_refl eq_refl)
  end.
  - simpl. lia.
  - by repeat constructor.
Defined.

(** ** A requestor reports once *)

(** What an accepted report leaves: the coordinator has stopped, or the
    number of the requestor is cleared. *)
Lemma handle_completes (env : environment) (number : nat)
    (success error : value) (st : state) :
  run_inv st -> alive st -> is_live st number = true ->
  let st' := handle env (Report number success error) st in
  cancel_array st' = None \/ numbers st' !! number = Some None.
Proof.
  intros Hinv Ha Hl. cbv zeta. rewrite report_eq by done.
  destruct (is_live_Some _ _ Hl) as [x Hx].
  set (st1 := set_slot number VUndefined st).
  assert (run_inv st1) as Hinv1 by (by eapply set_slot_inv).
  assert (alive st1) as Ha1.
  { unfold alive, st1. simpl. by destruct Ha as [? ->]. }
  pose proof (completion_inv success error number x st1 Hinv1 Ha1 Hx) as Hdone.
  pose proof (action_frame success error number st1) as [Hframe _].
  destruct (action success error number st1) as [[[]|e] st2]; simpl in Hframe.
  - right.
    assert (run_inv (clear_number number st2)) as Hinv3.
    { apply Hdone. intros slots1 Hslots1.
      destruct Ha as [slots Hs]. unfold st1 in Hslots1. simpl in Hslots1.
      rewrite Hs in Hslots1. injection Hslots1 as <-.
      destruct (inv_slots _ Hinv slots Hs) as [Hlen _].
      assert (number < length slots).
      { apply lookup_lt_Some in Hx.
        pose proof (inv_numbers _ Hinv). pose proof (inv_cursor _ Hinv). lia. }
      rewrite array_set_in_range by done.
      by rewrite list_lookup_insert_eq. }
    match goal with |- context [start_requestor env ?v] =>
      pose proof (task_quiet (start_requestor env v) _ _
                    (start_requestor_fuel_quiet _ env v _ Hinv3)) as Hq
    end.
    apply (quiet_completed _ _ Hq). simpl.
    apply list_lookup_insert_eq.
    rewrite (frame_numbers _ _ Hframe). by eapply lookup_lt_Some.
  - left. destruct Hdone as [_ Hdead]; [|done].
    intros slots1 Hslots1.
    destruct Ha as [slots Hs]. unfold st1 in Hslots1. simpl in Hslots1.
    rewrite Hs in Hslots1. injection Hslots1 as <-.
    destruct (inv_slots _ Hinv slots Hs) as [Hlen _].
    assert (number < length slots).
    { apply lookup_lt_Some in Hx.
      pose proof (inv_numbers _ Hinv). pose proof (inv_cursor _ Hinv). lia. }
    rewrite array_set_in_range by done.
    by rewrite list_lookup_insert_eq.
Qed.

(** A cleared number stays cleared. *)
Lemma handle_completed (env : environment) (ev : event) (number : nat)
    (st : state) :
  run_inv st -> numbers st !! number = Some None ->
  numbers (handle env ev st) !! number = Some None.
Proof.
  intros Hinv Hn.
  destruct ev as [| j success error | |reason].
  1: by apply (quiet_completed _ _ (handle_quiet env Tick st Hinv I)).
  2: by apply (quiet_completed _ _ (handle_quiet env Timer st Hinv I)).
  2: by apply (quiet_completed _ _ (handle_quiet env (Cancel reason) st Hinv I)).
  destruct (decide (alive st /\ is_live st j = true)) as [[Ha Hl]|Hno];
    [|by apply (quiet_completed _ _
                   (handle_quiet env (Report j success error) st Hinv Hno))].
  rewrite report_eq by done.
  destruct (is_live_Some _ _ Hl) as [x Hx].
  set (st1 := set_slot j VUndefined st).
  assert (run_inv st1) as Hinv1 by (by eapply set_slot_inv).
  assert (alive st1) as Ha1.
  { unfold alive, st1. simpl. by destruct Ha as [? ->]. }
  pose proof (completion_inv success error j x st1 Hinv1 Ha1 Hx) as Hdone.
  pose proof (action_frame success error j st1) as [Hframe _].
  destruct (action success error j st1) as [[[]|e] st2]; simpl in Hframe.
  - assert (run_inv (clear_number j st2)) as Hinv3.
    { apply Hdone. intros slots1 Hslots1.
      destruct Ha as [slots Hs]. unfold st1 in Hslots1. simpl in Hslots1.
      rewrite Hs in Hslots1. injection Hslots1 as <-.
      destruct (inv_slots _ Hinv slots Hs) as [Hlen _].
      assert (j < length slots).
      { apply lookup_lt_Some in Hx.
        pose proof (inv_numbers _ Hinv). pose proof (inv_cursor _ Hinv). lia. }
      rewrite array_set_in_range by done.
      by rewrite list_lookup_insert_eq. }
    match goal with |- context [start_requestor env ?v] =>
      pose proof (task_quiet (start_requestor env v) _ _
                    (start_requestor_fuel_quiet _ env v _ Hinv3)) as Hq
    end.
    apply (quiet_completed _ _ Hq). simpl.
    rewrite (frame_numbers _ _ Hframe). simpl.
    assert (j <> number) as Hne by (intros ->; congruence).
    by rewrite list_lookup_insert_ne.
  - simpl. by rewrite (frame_numbers _ _ Hframe).
Qed.

(** X22.  A requestor reports once.  After a report of a requestor has
    been accepted, every later report of the same requestor is ignored: it
    changes nothing, whatever has happened in between. *)
Theorem requestor_reports_once (env : environment) (st : state) (number : nat)
    (success error : value) :
  reachable env st -> alive st -> is_live st number = true ->
  let st' := handle env (Report number success error) st in
  forall evs success' error',
    let st'' := run_events env evs st' in
    handle env (Report number success' error') st'' = st''.
Proof.
  intros Hreach Ha Hl. cbv zeta. intros evs success' error'.
  pose proof (reachable_inv _ _ Hreach) as Hinv.
  set (st' := handle env (Report number success error) st).
  assert (run_inv st') as Hinv' by (by apply handle_stepped).
  assert (cancel_array (run_events env evs st') = None
          \/ numbers (run_events env evs st') !! number = Some None) as Hover.
  { induction evs as [|ev evs IH] using rev_ind.
    - by apply handle_completes.
    - rewrite run_events_snoc.
      pose proof (stepped_inv _ _ (run_events_stepped env evs st' Hinv'))
        as Hinv''.
      destruct IH as [Hdead|Hdone].
      + left. destruct (cancel_array (handle env ev _)) as [slots|] eqn:Hs;
          [|done].
        destruct (stepped_alive _ _ (handle_stepped env ev _ Hinv'')
                    ltac:(by eexists)) as [? ?].
        congruence.
      + right. by apply handle_completed. }
  simpl. unfold task. rewrite start_requestor_callback_ignored; [done|].
  intros [[slots Hs] Hlive]. destruct Hover as [Hdead|Hdone]; [congruence|].
  unfold is_live in Hlive. by rewrite Hdone in Hlive.
Qed.

Lemma requestor_reports_once_witness :
  exists st,
    example_run example_parallel example_env [Tick; Tick; Tick] = Some st
    /\ let st' := handle example_env (Report 2 (VStr "c") VUndefined) st in
       handle example_env (Report 2 (VStr "again") VUndefined) st' = st'.
Proof.
  eexists. split; [vm_compute; reflexivity|].
  match goal with |- let st' := handle _ _ ?st in _ =>
    apply (requestor_reports_once example_env st 2 (VStr "c") VUndefined
             ltac:(by apply (example_run_reachable example_parallel example_env
                               [Tick; Tick; Tick]))
             ltac:(by eexists) eq_refl [])
  end.
Defined.
